(** * Receipt reconciliation engine: matcher, parsers, receipt model, sync

    A shallow embedding of the parts of the receipt matcher that the
    specification makes promises about, followed by the theorems that settle
    those promises.

    - JavaScript numbers are IEEE 754 binary64 values: they are modelled by
      Rocq's primitive floats, so that [Math.abs (a - b) < 0.10] evaluates as
      it does in the program.
    - [null] and [undefined] are [None]; truthiness is written out.
    - A JavaScript [Map] is a stdpp [gmap].
    - Calls that leave the process (ledger HTTP calls, the regular expression
      engine, the date library's parser) are fields of an environment record;
      a call that may throw returns a [Result]. *)

From Stdlib Require Import ZArith Floats Uint63 Bool Ascii String.
From stdpp Require Import gmap strings list.

Set Warnings "-inexact-float".

(** ** JavaScript values *)

Module JS.

(** Outcome of a call that may throw. *)
Inductive Result (A : Type) : Type :=
| Ok (a : A)
| Throw (message : string).
Arguments Ok {A} a.
Arguments Throw {A} message.

(** Truthiness of a number: every number except [0], [-0] and [NaN]. *)
Definition truthy_num (x : float) : bool :=
  PrimFloat.ltb x 0%float || PrimFloat.ltb 0%float x.

(** Truthiness of a nullable number. *)
Definition truthy_onum (o : option float) : bool :=
  match o with Some x => truthy_num x | None => false end.

(** Truthiness of a string: every string except the empty one. *)
Definition truthy_str (s : string) : bool :=
  negb (String.eqb s EmptyString).

Definition truthy_ostr (o : option string) : bool :=
  match o with Some s => truthy_str s | None => false end.

(** [a || b] on nullable strings. *)
Definition or_str (a b : option string) : option string :=
  if truthy_ostr a then a else b.

(** [ToNumber] of a nullable number: [null] converts to [+0]. *)
Definition to_number (o : option float) : float :=
  match o with Some x => x | None => 0%float end.

(** [s.slice(-n)]: the last [n] characters, the whole string when it is
    shorter. *)
Definition slice_last (n : nat) (s : string) : string :=
  String.substring (String.length s - n) n s.

(** [Math.max(...xs)] on a list without [NaN]. *)
Definition Math_max (xs : list float) : float :=
  fold_left (fun acc x => if PrimFloat.ltb acc x then x else acc) xs
            neg_infinity.

Definition is_digit (c : ascii) : bool :=
  let n := N_of_ascii c in (48 <=? n)%N && (n <=? 57)%N.

Definition digit_val (c : ascii) : Z := Z.of_N (N_of_ascii c) - 48.

(** Longest prefix of decimal digits, and the rest. *)
Fixpoint span_digits (l : list ascii) : list ascii * list ascii :=
  match l with
  | c :: l' =>
      if is_digit c
      then let '(ds, rest) := span_digits l' in (c :: ds, rest)
      else ([], l)
  | [] => ([], [])
  end.

Definition digits_to_Z (ds : list ascii) : Z :=
  fold_left (fun acc c => 10 * acc + digit_val c)%Z ds 0%Z.

Definition float_of_Z (n : Z) : float := PrimFloat.of_uint63 (Uint63.of_Z n).

(** [parseFloat] on a string without leading white space: an optional
    sign, decimal digits, an optional fraction; [NaN] when there is no
    digit.  The value is the quotient of the digits read as an integer by
    the power of ten of the fraction, which is the correctly rounded
    binary64 value as long as the digits fit in 53 bits (15 significant
    digits).  Exponents and [Infinity] are not read: no caller passes
    them. *)
Definition parseFloat (s : string) : float :=
  let l := list_ascii_of_string s in
  let '(neg, l) :=
    match l with
    | "-"%char :: l' => (true, l')
    | "+"%char :: l' => (false, l')
    | _ => (false, l)
    end in
  let '(ip, l) := span_digits l in
  let fp :=
    match l with
    | "."%char :: l' => fst (span_digits l')
    | _ => []
    end in
  match ip ++ fp with
  | [] => nan
  | ds =>
      let x := PrimFloat.div (float_of_Z (digits_to_Z ds))
                             (float_of_Z (10 ^ Z.of_nat (length fp))) in
      if neg then PrimFloat.opp x else x
  end.

Definition is_space (c : ascii) : bool :=
  let n := N_of_ascii c in
  (n =? 32)%N || ((9 <=? n)%N && (n <=? 13)%N).

Fixpoint drop_spaces (l : list ascii) : list ascii :=
  match l with
  | c :: l' => if is_space c then drop_spaces l' else l
  | [] => []
  end.

(** [s.trim()]. *)
Definition trim (s : string) : string :=
  string_of_list_ascii
    (rev (drop_spaces (rev (drop_spaces (list_ascii_of_string s))))).

(** [s.split('\n')]. *)
Fixpoint split_lines_aux (l cur : list ascii) : list string :=
  match l with
  | c :: l' =>
      if (N_of_ascii c =? 10)%N
      then string_of_list_ascii (rev cur) :: split_lines_aux l' []
      else split_lines_aux l' (c :: cur)
  | [] => [string_of_list_ascii (rev cur)]
  end.

Definition split_lines (s : string) : list string :=
  split_lines_aux (list_ascii_of_string s) [].

Definition lower_char (c : ascii) : ascii :=
  let n := N_of_ascii c in
  if (65 <=? n)%N && (n <=? 90)%N then ascii_of_N (n + 32) else c.

(** [s.toLowerCase()] on ASCII text. *)
Definition toLowerCase (s : string) : string :=
  string_of_list_ascii (map lower_char (list_ascii_of_string s)).

Definition upper_char (c : ascii) : ascii :=
  let n := N_of_ascii c in
  if (97 <=? n)%N && (n <=? 122)%N then ascii_of_N (n - 32) else c.

(** [s.toUpperCase()] on ASCII text. *)
Definition toUpperCase (s : string) : string :=
  string_of_list_ascii (map upper_char (list_ascii_of_string s)).

Fixpoint is_prefix (p l : list ascii) : bool :=
  match p, l with
  | [], _ => true
  | a :: p', b :: l' => Ascii.eqb a b && is_prefix p' l'
  | _ :: _, [] => false
  end.

Fixpoint includes_aux (p l : list ascii) : bool :=
  is_prefix p l ||
  match l with
  | _ :: l' => includes_aux p l'
  | [] => false
  end.

(** [s.includes(p)]. *)
Definition includes (s p : string) : bool :=
  includes_aux (list_ascii_of_string p) (list_ascii_of_string s).

End JS.

(** ** The date library, on canonical [YYYY-MM-DD] strings *)

Module Dayjs.
Local Open Scope Z_scope.

(** Days from 1970-01-01 to the civil date [y-m-d] of the proleptic
    Gregorian calendar.  A month outside [1..12] carries into the year and
    a day outside the month carries into the months, as [new Date(y, m, d)]
    does. *)
Definition days_from_civil (y m d : Z) : Z :=
  let y := y + (m - 1) / 12 in
  let m := (m - 1) mod 12 + 1 in
  let y' := if m <=? 2 then y - 1 else y in
  let era := y' / 400 in
  let yoe := y' - era * 400 in
  let doy := (153 * (if 2 <? m then m - 3 else m + 9) + 2) / 5 + d - 1 in
  let doe := yoe * 365 + yoe / 4 - yoe / 100 + doy in
  era * 146097 + doe - 719468.

Definition civil_from_days (z : Z) : Z * Z * Z :=
  let z := z + 719468 in
  let era := z / 146097 in
  let doe := z - era * 146097 in
  let yoe := (doe - doe / 1460 + doe / 36524 - doe / 146096) / 365 in
  let y := yoe + era * 400 in
  let doy := doe - (365 * yoe + yoe / 4 - yoe / 100) in
  let mp := (5 * doy + 2) / 153 in
  let d := doy - (153 * mp + 2) / 5 + 1 in
  let m := if mp <? 10 then mp + 3 else mp - 9 in
  (if m <=? 2 then y + 1 else y, m, d).

Definition num2 (a b : ascii) : option Z :=
  if JS.is_digit a && JS.is_digit b
  then Some (10 * JS.digit_val a + JS.digit_val b) else None.

(** [dayjs(s)] for a date string: the day number of a string of the shape
    [YYYY-MM-DD], local midnight; [None] is an invalid date.  The other
    spellings the library accepts are not read: dates reach the matcher
    from [parseDate] and from the ledger, both in this shape. *)
Definition parse (s : string) : option Z :=
  match list_ascii_of_string s with
  | [y1; y2; y3; y4; "-"%char; m1; m2; "-"%char; d1; d2] =>
      yh ← num2 y1 y2; yl ← num2 y3 y4; m ← num2 m1 m2; d ← num2 d1 d2;
      Some (days_from_civil (100 * yh + yl) m d)
  | _ => None
  end.

(** [dayjs(d)] for a nullable date string: [dayjs(null)] is invalid. *)
Definition dayjs (d : option string) : option Z := s ← d; parse s.

Definition digit_char (n : Z) : ascii := ascii_of_N (Z.to_N (48 + n mod 10)).

Definition pad2 (n : Z) : string :=
  String (digit_char (n / 10)) (String (digit_char n) EmptyString).

(** [.format('YYYY-MM-DD')]. *)
Definition format (t : option Z) : string :=
  match t with
  | Some z =>
      let '(y, m, d) := civil_from_days z in
      pad2 (y / 100) +:+ pad2 y +:+ "-" +:+ pad2 m +:+ "-" +:+ pad2 d
  | None => "Invalid Date"
  end.

(** [.add(n, 'day')] and [.subtract(n, 'day')]. *)
Definition add (t : option Z) (n : Z) : option Z := (fun z => z + n) <$> t.
Definition subtract (t : option Z) (n : Z) : option Z := (fun z => z - n) <$> t.

(** [a.diff(b, 'day')]: the signed number of whole days from [b] to [a];
    [None] is [NaN]. *)
Definition diff (a b : option Z) : option Z :=
  x ← a; y ← b; Some (x - y).

End Dayjs.

(** ** Regular expressions and the date parser, as the runtime answers *)

Module Text.

(** A regular expression literal: its source and its flags. *)
Record Regex := { source : string; flags : string }.

#[global] Instance Regex_eq_dec : EqDecision Regex.
Proof. solve_decision. Defined.

(** What the runtime answers on text.
    - [str_match text re] is [text.match(re)] for a pattern without the [g]
      flag: [None] is [null], [Some groups] is a match with its capture
      groups, [match[1]] first.  Every group of the patterns below takes
      part in every match of its pattern.
    - [exec_all re text] is the list of the matches the loop
      [while ((match = re.exec(text)) !== null)] sees for a pattern with the
      [g] flag, each with its capture groups.
    - [dayjs_strict s fmt] is [dayjs(s, fmt, true)] and [dayjs_native s] is
      [dayjs(s)]: [None] when the result is not valid, else the date as
      [.format('YYYY-MM-DD')] prints it. *)
Record Env := {
  str_match : string -> Regex -> option (list string);
  exec_all : Regex -> string -> list (list string);
  dayjs_strict : string -> string -> option string;
  dayjs_native : string -> option string }.

(** [re.test(text)]. *)
Definition test (T : Env) (re : Regex) (text : string) : bool :=
  bool_decide (is_Some (str_match T text re)).

(** [match[k]] for [k >= 1]. *)
Definition group (k : nat) (groups : list string) : option string :=
  groups !! (k - 1)%nat.

End Text.

(** ** Utility helpers (utils/helpers) *)

Module Helpers.
Import Text.

(** The argument of [parseCurrency]: a string, a number already, or
    [undefined]. *)
Inductive CurrencyArg : Type :=
| ArgMissing
| ArgStr (s : string)
| ArgNum (x : float).

Definition capture_arg (o : option string) : CurrencyArg :=
  match o with Some s => ArgStr s | None => ArgMissing end.

(** The replacement of every [$], comma and white space by nothing. *)
Definition strip_currency (s : string) : string :=
  string_of_list_ascii
    (filter (fun c => negb (Ascii.eqb c "$" || Ascii.eqb c "," || JS.is_space c))
            (list_ascii_of_string s)).

Definition isNaN (x : float) : bool := negb (PrimFloat.eqb x x).

Definition parseCurrency (str : CurrencyArg) : option float :=
  match str with
  | ArgMissing => None
  | ArgNum x => if JS.truthy_num x then Some x else None
  | ArgStr s =>
      if JS.truthy_str s then
        let cleaned := strip_currency s in
        let num := JS.parseFloat cleaned in
        if isNaN num then None else Some num
      else None
  end.

Definition dateFormats : list string :=
  ["MM/DD/YYYY"; "M/D/YYYY"; "MM-DD-YYYY"; "M-D-YYYY"; "YYYY-MM-DD";
   "MMM D, YYYY"; "MMMM D, YYYY"; "MM/DD/YY"; "M/D/YY"].

(** First element of [l] on which [f] answers. *)
Fixpoint first_some {A B : Type} (f : A -> option B) (l : list A) : option B :=
  match l with
  | [] => None
  | a :: l' => match f a with Some b => Some b | None => first_some f l' end
  end.

(** [parseDate(dateStr)]: the first format that parses strictly, else the
    native parse, else [null]. *)
Definition parseDate (T : Env) (dateStr : option string) : option string :=
  match dateStr with
  | Some s =>
      if JS.truthy_str s then
        match first_some (dayjs_strict T s) dateFormats with
        | Some d => Some d
        | None => dayjs_native T s
        end
      else None
  | None => None
  end.

Definition cardPatterns : list Regex :=
  [ {| source := "ending\s*in\s*(\d{4})"; flags := "i" |};
    {| source := "\*+(\d{4})"; flags := "" |};
    {| source := "x+(\d{4})"; flags := "i" |};
    {| source := "(\d{4})$"; flags := "" |} ].

(** [extractCardLast4(str)]. *)
Definition extractCardLast4 (T : Env) (str : string) : option string :=
  if JS.truthy_str str then
    match first_some (str_match T str) cardPatterns with
    | Some g => group 1 g
    | None => None
    end
  else None.

Definition jobPatterns : list Regex :=
  [ {| source := "(?:job|project|customer)[:\s]+([^\n\r,]+)"; flags := "i" |};
    {| source := "(?:for|re)[:\s]+([^\n\r,]+(?:remodel|renovation|install|repair|house|home))";
       flags := "i" |} ].

(** [extractJobName(text)]. *)
Definition extractJobName (T : Env) (text : string) : option string :=
  if JS.truthy_str text then
    match first_some (str_match T text) jobPatterns with
    | Some g => JS.trim <$> group 1 g
    | None => None
    end
  else None.

End Helpers.

(** ** The receipt data model (models/receipt) *)

Module Receipt.

Inductive SyncStatus : Type := pending | matched | synced | error.

#[global] Instance SyncStatus_eq_dec : EqDecision SyncStatus.
Proof. solve_decision. Defined.

Record Source := {
  sourceType : string;
  emailId : option string;
  emailSubject : option string;
  attachmentName : option string;
  receivedAt : string }.

(** [qboVendorName] is read by the sync but never written by
    [createReceipt]: it is [undefined] on every receipt built there. *)
Record VendorRef := {
  vendorId : option string;
  vendorName : option string;
  displayName : option string;
  qboVendorName : option string;
  qboVendorId : option string }.

Record Transaction := {
  date : option string;
  total : option float;
  subtotal : option float;
  tax : option float;
  shipping : option float;
  discount : option float }.

Record Payment := {
  method : option string;
  cardType : option string;
  cardLast4 : option string }.

Record Reference := {
  orderNumber : option string;
  invoiceNumber : option string;
  poNumber : option string }.

Record Job := {
  jobName : option string;
  qboCustomerId : option string;
  qboProjectId : option string }.

Record LineItem := {
  description : option string;
  sku : option string;
  quantity : option Z;
  unitPrice : option float;
  totalPrice : option float;
  itemCategory : option string }.

Record QboSync := {
  status : SyncStatus;
  transactionId : option string;
  expenseId : option string;
  billId : option string;
  syncedAt : option string;
  syncError : option string }.

Record Category := {
  categoryName : string;
  qboAccountId : option string;
  isBillable : bool;
  isTaxable : bool }.

Record Attachment := {
  attType : string;
  filename : option string;
  mimeType : option string;
  data : option string;
  size : option Z }.

Record Note := { timestamp : string; message : string }.

Record Metadata := {
  createdAt : string;
  updatedAt : string;
  processingNotes : list Note;
  confidence : option string }.

Record t := {
  id : string;
  source : Source;
  vendor : VendorRef;
  transaction : Transaction;
  payment : Payment;
  reference : Reference;
  job : Job;
  lineItems : list LineItem;
  qboSync : QboSync;
  category : Category;
  attachments : list Attachment;
  metadata : Metadata }.

(** The [data] argument of [createReceipt]: every key is optional. *)
Record Data := {
  d_id : option string;
  d_sourceType : option string;
  d_emailId : option string;
  d_emailSubject : option string;
  d_attachmentName : option string;
  d_receivedAt : option string;
  d_vendorId : option string;
  d_vendorName : option string;
  d_vendorDisplayName : option string;
  d_qboVendorId : option string;
  d_date : option string;
  d_total : option float;
  d_subtotal : option float;
  d_tax : option float;
  d_shipping : option float;
  d_discount : option float;
  d_paymentMethod : option string;
  d_cardType : option string;
  d_cardLast4 : option string;
  d_orderNumber : option string;
  d_invoiceNumber : option string;
  d_poNumber : option string;
  d_jobName : option string;
  d_qboCustomerId : option string;
  d_qboProjectId : option string;
  d_lineItems : option (list LineItem);
  d_categoryName : option string;
  d_qboAccountId : option string;
  d_isBillable : option bool;
  d_isTaxable : option bool;
  d_confidence : option string }.

(** [x || null] on strings and on numbers. *)
Definition str_or_null (o : option string) : option string :=
  if JS.truthy_ostr o then o else None.
Definition num_or_null (o : option float) : option float :=
  if JS.truthy_onum o then o else None.
(** [x !== false]. *)
Definition not_false (o : option bool) : bool :=
  match o with Some false => false | _ => true end.

(** [createReceipt(data)]; [freshId] is what [generateReceiptId()] returns
    and [now] what [new Date().toISOString()] returns. *)
Definition createReceipt (freshId now : string) (data : Data) : t :=
  {| id := default freshId (str_or_null (d_id data));
     source :=
       {| sourceType := default "email" (str_or_null (d_sourceType data));
          emailId := str_or_null (d_emailId data);
          emailSubject := str_or_null (d_emailSubject data);
          attachmentName := str_or_null (d_attachmentName data);
          receivedAt := default now (str_or_null (d_receivedAt data)) |};
     vendor :=
       {| vendorId := str_or_null (d_vendorId data);
          vendorName := str_or_null (d_vendorName data);
          displayName := str_or_null (d_vendorDisplayName data);
          qboVendorName := None;
          qboVendorId := str_or_null (d_qboVendorId data) |};
     transaction :=
       {| date := str_or_null (d_date data);
          total := num_or_null (d_total data);
          subtotal := num_or_null (d_subtotal data);
          tax := num_or_null (d_tax data);
          shipping := num_or_null (d_shipping data);
          discount := num_or_null (d_discount data) |};
     payment :=
       {| method := str_or_null (d_paymentMethod data);
          cardType := str_or_null (d_cardType data);
          cardLast4 := str_or_null (d_cardLast4 data) |};
     reference :=
       {| orderNumber := str_or_null (d_orderNumber data);
          invoiceNumber := str_or_null (d_invoiceNumber data);
          poNumber := str_or_null (d_poNumber data) |};
     job :=
       {| jobName := str_or_null (d_jobName data);
          qboCustomerId := str_or_null (d_qboCustomerId data);
          qboProjectId := str_or_null (d_qboProjectId data) |};
     lineItems := default [] (d_lineItems data);
     qboSync :=
       {| status := pending;
          transactionId := None;
          expenseId := None;
          billId := None;
          syncedAt := None;
          syncError := None |};
     category :=
       {| categoryName :=
            default "Materials & Supplies" (str_or_null (d_categoryName data));
          qboAccountId := str_or_null (d_qboAccountId data);
          isBillable := not_false (d_isBillable data);
          isTaxable := not_false (d_isTaxable data) |};
     attachments := [];
     metadata :=
       {| createdAt := now;
          updatedAt := now;
          processingNotes := [];
          confidence := str_or_null (d_confidence data) |} |}.

(** Field assignments on the receipt object. *)
Definition set_vendor (v : VendorRef) (r : t) : t :=
  {| id := id r; source := source r; vendor := v;
     transaction := transaction r; payment := payment r;
     reference := reference r; job := job r; lineItems := lineItems r;
     qboSync := qboSync r; category := category r;
     attachments := attachments r; metadata := metadata r |}.

Definition set_job (j : Job) (r : t) : t :=
  {| id := id r; source := source r; vendor := vendor r;
     transaction := transaction r; payment := payment r;
     reference := reference r; job := j; lineItems := lineItems r;
     qboSync := qboSync r; category := category r;
     attachments := attachments r; metadata := metadata r |}.

Definition set_category (c : Category) (r : t) : t :=
  {| id := id r; source := source r; vendor := vendor r;
     transaction := transaction r; payment := payment r;
     reference := reference r; job := job r; lineItems := lineItems r;
     qboSync := qboSync r; category := c;
     attachments := attachments r; metadata := metadata r |}.

Definition set_qboSync (q : QboSync) (r : t) : t :=
  {| id := id r; source := source r; vendor := vendor r;
     transaction := transaction r; payment := payment r;
     reference := reference r; job := job r; lineItems := lineItems r;
     qboSync := q; category := category r;
     attachments := attachments r; metadata := metadata r |}.

Definition set_metadata (m : Metadata) (r : t) : t :=
  {| id := id r; source := source r; vendor := vendor r;
     transaction := transaction r; payment := payment r;
     reference := reference r; job := job r; lineItems := lineItems r;
     qboSync := qboSync r; category := category r;
     attachments := attachments r; metadata := m |}.

(** [receipt.metadata.updatedAt = new Date().toISOString()]. *)
Definition touch (now : string) (r : t) : t :=
  set_metadata
    {| createdAt := createdAt (metadata r);
       updatedAt := now;
       processingNotes := processingNotes (metadata r);
       confidence := confidence (metadata r) |} r.

(** The [details] objects the callers of [updateSyncStatus] pass: none,
    [{ transactionId }], [{ expenseId }] or [{ error }]. *)
Inductive Details : Type :=
| NoDetails
| TransactionId (txnId : string)
| ExpenseId (expId : string)
| ErrorMessage (msg : string).

(** [updateSyncStatus(receipt, status, details)]: the new sync object is
    the old one spread, then [status], then [details] spread, then
    [syncedAt]. *)
Definition updateSyncStatus (now : string) (r : t) (st : SyncStatus)
    (details : Details) : t :=
  let q := qboSync r in
  touch now
    (set_qboSync
       {| status := st;
          transactionId :=
            match details with TransactionId i => Some i | _ => transactionId q end;
          expenseId :=
            match details with ExpenseId i => Some i | _ => expenseId q end;
          billId := billId q;
          syncedAt :=
            if decide (st = synced) then Some now else syncedAt q;
          syncError :=
            match details with ErrorMessage m => Some m | _ => syncError q end |}
       r).

(** [addProcessingNote(receipt, note)]. *)
Definition addProcessingNote (now : string) (r : t) (note : string) : t :=
  touch now
    (set_metadata
       {| createdAt := createdAt (metadata r);
          updatedAt := updatedAt (metadata r);
          processingNotes :=
            processingNotes (metadata r) ++ [{| timestamp := now; message := note |}];
          confidence := confidence (metadata r) |} r).

End Receipt.

(** ** The ledger client, as the matcher and the uploader see it *)

Module Qbo.
Export JS.

(** A vendor, customer or account object of the ledger. *)
Record Entity := { Id : string; Name : string }.

(** A purchase of the ledger; [CCNumber] is
    [txn.Credit?.CCDetail?.CCNumber]. *)
Record Purchase := {
  purchaseId : string;
  TotalAmt : float;
  TxnDate : string;
  CCNumber : option string;
  PrivateNote : option string }.

(** The two bodies posted to [/purchase].  Each is a function of the
    receipt and of the object named with it (the credit card account found
    for a new expense, the purchase being updated with its lines), which
    stand here for the body built from them.  A purchase of the ledger
    always has its [Line] array, so building the body does not throw. *)
Inductive Write : Type :=
| NewExpense (r : Receipt.t) (ccAccount : option Entity)
| UpdatedPurchase (r : Receipt.t) (txn : Purchase).

(** [qboClient.makeApiCall], one field per request the engine sends.  A
    query answers [response.QueryResponse?.X || []]; a creation answers the
    created object.  Every call may throw. *)
Record Ledger := {
  queryVendor : option string -> Result (list Entity);
  createVendor : option string -> Result Entity;
  queryCustomer : string -> Result (list Entity);
  createCustomer : string -> Result Entity;
  queryAccount : string -> Result (list Entity);
  queryExpenseAccounts : Result (list Entity);
  queryCreditCardAccounts : Result (list Entity);
  queryPurchases : string -> string -> Result (list Purchase);
  postPurchase : Write -> Result Purchase }.

End Qbo.

(** ** The transaction matcher (services/quickbooks/matcher) *)

Module Matcher.
Import Qbo.
Local Open Scope Z_scope.

(** The three lookup caches of the singleton matcher. *)
Record Caches := {
  vendorCache : gmap (option string) Entity;
  customerCache : gmap string Entity;
  accountCache : gmap string Entity }.

(** [constructor()]. *)
Definition constructor : Caches :=
  {| vendorCache := ∅; customerCache := ∅; accountCache := ∅ |}.

(** [Math.abs(txn.TotalAmt - transaction.total)]. *)
Definition amountDiff (txn : Purchase) (r : Receipt.t) : float :=
  PrimFloat.abs
    (PrimFloat.sub (TotalAmt txn) (to_number (Receipt.total (Receipt.transaction r)))).

Definition amountPoints (amountDiff : float) : Z :=
  if PrimFloat.eqb amountDiff 0%float then 100
  else if PrimFloat.ltb amountDiff 0.10%float then 80
  else if PrimFloat.ltb amountDiff 1.00%float then 50
  else if PrimFloat.ltb amountDiff 5.00%float then 20
  else 0.

(** [dayjs(txn.TxnDate).diff(dayjs(transaction.date), 'day')]. *)
Definition dateDiff (txn : Purchase) (r : Receipt.t) : option Z :=
  Dayjs.diff (Dayjs.dayjs (Some (TxnDate txn)))
             (Dayjs.dayjs (Receipt.date (Receipt.transaction r))).

Definition datePoints (txn : Purchase) (r : Receipt.t) : Z :=
  if decide (Some (TxnDate txn) = Receipt.date (Receipt.transaction r)) then 30
  else
    match dateDiff txn r with
    | Some d => if d <=? 1 then 20 else 0
    | None => 0
    end.

Definition cardPoints (txn : Purchase) (r : Receipt.t) : Z :=
  match Receipt.cardLast4 (Receipt.payment r), CCNumber txn with
  | Some last4, Some number =>
      if truthy_str last4 && truthy_str number then
        let txnLast4 := slice_last 4 number in
        if String.eqb txnLast4 last4 then 50 else 0
      else 0
  | _, _ => 0
  end.

(** The score one iteration of the loop of [findBestMatch] computes. *)
Definition score (txn : Purchase) (r : Receipt.t) : Z :=
  amountPoints (amountDiff txn r) + datePoints txn r + cardPoints txn r.

(** One iteration on the pair [(bestMatch, bestScore)]. *)
Definition step (r : Receipt.t) (best : option Purchase * Z) (txn : Purchase)
    : option Purchase * Z :=
  if snd best <? score txn r then (Some txn, score txn r) else best.

Definition findBestMatch (transactions : list Purchase) (r : Receipt.t)
    : option Purchase :=
  let '(bestMatch, bestScore) := fold_left (step r) transactions (None, 0) in
  if 80 <=? bestScore then bestMatch else None.

(** [findMatchingTransaction(receipt)]: whatever is thrown inside is caught
    and answered by [null]. *)
Definition findMatchingTransaction (L : Ledger) (r : Receipt.t) : option Purchase :=
  let date := Dayjs.dayjs (Receipt.date (Receipt.transaction r)) in
  let startDate := Dayjs.format (Dayjs.subtract date 3) in
  let endDate := Dayjs.format (Dayjs.add date 3) in
  match queryPurchases L startDate endDate with
  | Ok purchases => findBestMatch purchases r
  | Throw _ => None
  end.

Definition set_vendorCache (m : gmap (option string) Entity) (c : Caches) : Caches :=
  {| vendorCache := m; customerCache := customerCache c; accountCache := accountCache c |}.
Definition set_customerCache (m : gmap string Entity) (c : Caches) : Caches :=
  {| vendorCache := vendorCache c; customerCache := m; accountCache := accountCache c |}.
Definition set_accountCache (m : gmap string Entity) (c : Caches) : Caches :=
  {| vendorCache := vendorCache c; customerCache := customerCache c; accountCache := m |}.

(** [findOrCreateVendor(vendorName)]: the cached object if there is one;
    else the first vendor the ledger finds, else a vendor created there,
    cached under the name; [null] when a call throws. *)
Definition findOrCreateVendor (L : Ledger) (c : Caches) (vendorName : option string)
    : option Entity * Caches :=
  match vendorCache c !! vendorName with
  | Some v => (Some v, c)
  | None =>
      match queryVendor L vendorName with
      | Ok (v :: _) => (Some v, set_vendorCache (<[vendorName := v]> (vendorCache c)) c)
      | Ok [] =>
          match createVendor L vendorName with
          | Ok v => (Some v, set_vendorCache (<[vendorName := v]> (vendorCache c)) c)
          | Throw _ => (None, c)
          end
      | Throw _ => (None, c)
      end
  end.

(** [findOrCreateCustomer(jobName)]. *)
Definition findOrCreateCustomer (L : Ledger) (c : Caches) (jobName : option string)
    : option Entity * Caches :=
  match jobName with
  | Some name =>
      if truthy_str name then
        match customerCache c !! name with
        | Some v => (Some v, c)
        | None =>
            match queryCustomer L name with
            | Ok (v :: _) => (Some v, set_customerCache (<[name := v]> (customerCache c)) c)
            | Ok [] =>
                match createCustomer L name with
                | Ok v => (Some v, set_customerCache (<[name := v]> (customerCache c)) c)
                | Throw _ => (None, c)
                end
            | Throw _ => (None, c)
            end
        end
      else (None, c)
  | None => (None, c)
  end.

(** [findCustomer(jobName)], deprecated alias. *)
Definition findCustomer := findOrCreateCustomer.

(** The test of the loop of [findAccount] over all expense accounts. *)
Definition looks_like_supplies (account : Entity) : bool :=
  let name := toLowerCase (Name account) in
  includes name "job supplies" || includes name "job" || includes name "material"
  || includes name "supplies" || includes name "cost of goods".

(** [findAccount(categoryName)]. *)
Definition findAccount (L : Ledger) (c : Caches) (categoryName : string)
    : option Entity * Caches :=
  let searchName := if truthy_str categoryName then categoryName else "Job Supplies" in
  let cached a := (Some a, set_accountCache (<[searchName := a]> (accountCache c)) c) in
  match accountCache c !! searchName with
  | Some a => (Some a, c)
  | None =>
      match queryAccount L searchName with
      | Ok (a :: _) => cached a
      | Ok [] =>
          match queryExpenseAccounts L with
          | Ok allAccounts =>
              match List.find looks_like_supplies allAccounts with
              | Some a => cached a
              | None =>
                  match allAccounts with
                  | a :: _ => cached a
                  | [] => (None, c)
                  end
              end
          | Throw _ => (None, c)
          end
      | Throw _ => (None, c)
      end
  end.

(** [findCreditCardAccount()]. *)
Definition findCreditCardAccount (L : Ledger) : option Entity :=
  match queryCreditCardAccounts L with
  | Ok (a :: _) => Some a
  | Ok [] => None
  | Throw _ => None
  end.

(** [clearCaches()]. *)
Definition clearCaches (c : Caches) : Caches := constructor.

End Matcher.

(** ** The uploader (services/quickbooks/uploader) *)

Module Uploader.
Import Qbo.

(** [createExpense(receipt)]: the created purchase, or what the post
    threw. *)
Definition createExpense (L : Ledger) (r : Receipt.t) : Result Purchase :=
  let ccAccount := Matcher.findCreditCardAccount L in
  postPurchase L (NewExpense r ccAccount).

(** [updateTransaction(receipt, transaction)]. *)
Definition updateTransaction (L : Ledger) (r : Receipt.t) (txn : Purchase)
    : Result Purchase :=
  postPurchase L (UpdatedPurchase r txn).

(** [uploadAttachment(receipt)]: the upload itself is a placeholder in the
    program; what remains is the note. *)
Definition uploadAttachment (now : string) (r : Receipt.t) : Receipt.t :=
  match Receipt.attachments r with
  | attachment :: _ =>
      if truthy_ostr (Receipt.data attachment) then
        let q := Receipt.qboSync r in
        let entityId := or_str (Receipt.expenseId q) (Receipt.billId q) in
        if truthy_ostr entityId then
          Receipt.addProcessingNote now r
            ("Attachment " +:+ default "null" (Receipt.filename attachment)
               +:+ " ready for upload")
        else r
      else r
  | [] => r
  end.

(** [syncReceipt(receipt)].  The receipt is one object, changed in place:
    the caller sees the changes whether the call returns or throws, so the
    model answers the caches, the receipt as it is left, and whether the
    call returned ([Ok tt]) or re-threw ([Throw message]). *)
Definition syncReceipt (L : Ledger) (now : string) (c : Matcher.Caches) (r : Receipt.t)
    : Matcher.Caches * Receipt.t * Result unit :=
  let v0 := Receipt.vendor r in
  let vendorName :=
    or_str (or_str (Receipt.qboVendorName v0) (Receipt.displayName v0))
           (Receipt.vendorName v0) in
  let '(vendor, c) := Matcher.findOrCreateVendor L c vendorName in
  let r :=
    match vendor with
    | Some v =>
        Receipt.set_vendor
          {| Receipt.vendorId := Receipt.vendorId v0;
             Receipt.vendorName := Receipt.vendorName v0;
             Receipt.displayName := Receipt.displayName v0;
             Receipt.qboVendorName := Receipt.qboVendorName v0;
             Receipt.qboVendorId := Some (Id v) |} r
    | None => r
    end in
  let j0 := Receipt.job r in
  let '(r, c) :=
    if truthy_ostr (Receipt.jobName j0) then
      let '(customer, c) := Matcher.findCustomer L c (Receipt.jobName j0) in
      match customer with
      | Some cu =>
          (Receipt.set_job
             {| Receipt.jobName := Receipt.jobName j0;
                Receipt.qboCustomerId := Some (Id cu);
                Receipt.qboProjectId := Receipt.qboProjectId j0 |} r, c)
      | None => (r, c)
      end
    else (r, c) in
  let k0 := Receipt.category r in
  let '(account, c) := Matcher.findAccount L c (Receipt.categoryName k0) in
  let r :=
    match account with
    | Some a =>
        Receipt.set_category
          {| Receipt.categoryName := Receipt.categoryName k0;
             Receipt.qboAccountId := Some (Id a);
             Receipt.isBillable := Receipt.isBillable k0;
             Receipt.isTaxable := Receipt.isTaxable k0 |} r
    | None => r
    end in
  let written :=
    match Matcher.findMatchingTransaction L r with
    | Some matchingTxn =>
        match updateTransaction L r matchingTxn with
        | Ok _ =>
            let r := Receipt.updateSyncStatus now r Receipt.matched
                       (Receipt.TransactionId (purchaseId matchingTxn)) in
            Ok (Receipt.addProcessingNote now r
                  ("Matched to existing transaction #" +:+ purchaseId matchingTxn))
        | Throw e => Throw e
        end
    | None =>
        match createExpense L r with
        | Ok expense =>
            let r := Receipt.updateSyncStatus now r Receipt.synced
                       (Receipt.ExpenseId (purchaseId expense)) in
            Ok (Receipt.addProcessingNote now r
                  ("Created new expense #" +:+ purchaseId expense))
        | Throw e => Throw e
        end
    end in
  match written with
  | Ok r =>
      let r :=
        match Receipt.attachments r with
        | _ :: _ => uploadAttachment now r
        | [] => r
        end in
      (c, r, Ok tt)
  | Throw e =>
      (c, Receipt.updateSyncStatus now r Receipt.error (Receipt.ErrorMessage e), Throw e)
  end.

End Uploader.

(** ** The scheduler (services/scheduler) *)

Module Scheduler.
Import Qbo.
Local Open Scope Z_scope.

Record Stats := {
  totalRuns : Z;
  totalProcessed : Z;
  totalSynced : Z;
  totalErrors : Z }.

Record t := {
  isRunning : bool;
  lastRun : option string;
  stats : Stats }.

(** [constructor()]. *)
Definition constructor : t :=
  {| isRunning := false;
     lastRun := None;
     stats := {| totalRuns := 0; totalProcessed := 0; totalSynced := 0; totalErrors := 0 |} |}.

(** What the outside world answers during one cycle: the clock, the two
    authentications, and the receipts extracted from the new mail, each
    with the ledger as it answers while that receipt is synced. *)
Record Cycle := {
  now : string;
  gmailAuth : Result bool;
  qboAuth : Result bool;
  processNewEmails : Result (list (Ledger * Receipt.t)) }.

Definition count_error (s : Stats) : Stats :=
  {| totalRuns := totalRuns s; totalProcessed := totalProcessed s;
     totalSynced := totalSynced s; totalErrors := totalErrors s + 1 |}.

Definition count_synced (s : Stats) : Stats :=
  {| totalRuns := totalRuns s; totalProcessed := totalProcessed s;
     totalSynced := totalSynced s + 1; totalErrors := totalErrors s |}.

(** Step 3 of [runPipeline]: the loop over the receipts, one after the
    other, on the caches of the one matcher. *)
Fixpoint syncAll (now : string) (receipts : list (Ledger * Receipt.t))
    (s : Stats) (c : Matcher.Caches) : Stats * Matcher.Caches * list Receipt.t :=
  match receipts with
  | [] => (s, c, [])
  | (L, receipt) :: rest =>
      let '(c, receipt, outcome) := Uploader.syncReceipt L now c receipt in
      let s := match outcome with Ok _ => count_synced s | Throw _ => count_error s end in
      let '(s, c, done) := syncAll now rest s c in
      (s, c, receipt :: done)
  end.

(** The [try] block of [runPipeline]. *)
Definition cycleBody (cy : Cycle) (s : Stats) (c : Matcher.Caches)
    : Stats * Matcher.Caches * list Receipt.t :=
  match gmailAuth cy with
  | Throw _ => (count_error s, c, [])
  | Ok gmailOk =>
      match qboAuth cy with
      | Throw _ => (count_error s, c, [])
      | Ok qboOk =>
          if negb gmailOk then (s, c, [])
          else if negb qboOk then (s, c, [])
          else
            match processNewEmails cy with
            | Throw _ => (count_error s, c, [])
            | Ok receipts =>
                let s :=
                  {| totalRuns := totalRuns s;
                     totalProcessed := totalProcessed s + Z.of_nat (length receipts);
                     totalSynced := totalSynced s;
                     totalErrors := totalErrors s |} in
                match receipts with
                | [] => (s, c, [])
                | _ :: _ => syncAll (now cy) receipts s c
                end
            end
      end
  end.

(** [runPipeline()], on the scheduler and the matcher of the process; the
    receipts are answered as the cycle leaves them. *)
Definition runPipeline (cy : Cycle) (sch : t) (c : Matcher.Caches)
    : t * Matcher.Caches * list Receipt.t :=
  if isRunning sch then (sch, c, [])
  else
    let s := stats sch in
    let s :=
      {| totalRuns := totalRuns s + 1; totalProcessed := totalProcessed s;
         totalSynced := totalSynced s; totalErrors := totalErrors s |} in
    let '(s, c, receipts) := cycleBody cy s c in
    ({| isRunning := false; lastRun := Some (now cy); stats := s |}, c, receipts).

End Scheduler.

(** ** Vendor profiles (config/vendors) *)

Module Vendors.
Import Text.

(** The [extractors] of a profile; a profile need not have every key. *)
Record Extractors := {
  x_total : option Regex;
  x_date : option Regex;
  x_orderNumber : option Regex;
  x_invoiceNumber : option Regex;
  x_cardLast4 : option Regex }.

(** A detected vendor: the profile with its [vendorId]. *)
Record Profile := {
  vendorId : string;
  name : string;
  displayName : string;
  emailPatterns : list Regex;
  receiptType : string;
  qboVendorName : string;
  category : string;
  extractors : Extractors }.

Definition rx (src : string) : option Regex := Some {| source := src; flags := "i" |}.
Definition pat (src : string) : Regex := {| source := src; flags := "i" |}.

Definition homeDepot : Profile :=
  {| vendorId := "home-depot"; name := "Home Depot"; displayName := "The Home Depot";
     emailPatterns := [pat "homedepot\.com"; pat "home\s*depot"; pat "order@homedepot"];
     receiptType := "pdf"; qboVendorName := "The Home Depot";
     category := "Materials & Supplies";
     extractors :=
       {| x_total := rx "(?:order\s*total|grand\s*total|total)[:\s]*\$?([\d,]+\.?\d*)";
          x_date := rx "(?:order\s*date|date)[:\s]*(\d{1,2}[\/\-]\d{1,2}[\/\-]\d{2,4})";
          x_orderNumber := rx "(?:order\s*#?|order\s*number)[:\s]*(\w+)";
          x_invoiceNumber := None;
          x_cardLast4 := rx "(?:visa|mastercard|amex|discover).*?(\d{4})" |} |}.

Definition lowes : Profile :=
  {| vendorId := "lowes"; name := "Lowes"; displayName := "Lowe's";
     emailPatterns := [pat "lowes\.com"; pat "lowe'?s"; pat "receipt@lowes"];
     receiptType := "html"; qboVendorName := "Lowe's";
     category := "Materials & Supplies";
     extractors :=
       {| x_total := rx "(?:order\s*total|total)[:\s]*\$?([\d,]+\.?\d*)";
          x_date := rx "(\d{1,2}[\/\-]\d{1,2}[\/\-]\d{2,4})";
          x_orderNumber := rx "(?:order\s*#?)[:\s]*(\d+)";
          x_invoiceNumber := None;
          x_cardLast4 := rx "ending\s*in\s*(\d{4})" |} |}.

Definition amazon : Profile :=
  {| vendorId := "amazon"; name := "Amazon"; displayName := "Amazon.com";
     emailPatterns := [pat "amazon\.com"; pat "auto-confirm@amazon"; pat "ship-confirm@amazon"];
     receiptType := "html"; qboVendorName := "Amazon.com";
     category := "Materials & Supplies";
     extractors :=
       {| x_total := rx "(?:order\s*total|grand\s*total)[:\s]*\$?([\d,]+\.?\d*)";
          x_date := rx "(?:order\s*placed|ordered\s*on)[:\s]*(\w+\s+\d{1,2},?\s*\d{4})";
          x_orderNumber := rx "(?:order\s*#?)[:\s]*([\d\-]+)";
          x_invoiceNumber := None;
          x_cardLast4 := rx "ending\s*in\s*(\d{4})" |} |}.

Definition ced : Profile :=
  {| vendorId := "ced"; name := "CED";
     displayName := "Consolidated Electrical Distributors";
     emailPatterns := [pat "ced\.com"; pat "cedcareers"; pat "consolidated\s*electrical"];
     receiptType := "pdf"; qboVendorName := "CED";
     category := "Electrical Supplies";
     extractors :=
       {| x_total := rx "(?:total|amount\s*due)[:\s]*\$?([\d,]+\.?\d*)";
          x_date := rx "(?:invoice\s*date|date)[:\s]*(\d{1,2}[\/\-]\d{1,2}[\/\-]\d{2,4})";
          x_orderNumber := None;
          x_invoiceNumber := rx "(?:invoice\s*#?)[:\s]*(\w+)";
          x_cardLast4 := None |} |}.

Definition aceHardware : Profile :=
  {| vendorId := "ace-hardware"; name := "Ace Hardware"; displayName := "Ace Hardware";
     emailPatterns := [pat "acehardware\.com"; pat "ace\s*hardware"];
     receiptType := "html"; qboVendorName := "Ace Hardware";
     category := "Materials & Supplies";
     extractors :=
       {| x_total := rx "(?:total)[:\s]*\$?([\d,]+\.?\d*)";
          x_date := rx "(\d{1,2}[\/\-]\d{1,2}[\/\-]\d{2,4})";
          x_orderNumber := None;
          x_invoiceNumber := None;
          x_cardLast4 := None |} |}.

Definition alphaSupply : Profile :=
  {| vendorId := "alpha-supply"; name := "Alpha Supply"; displayName := "Alpha Supply";
     emailPatterns := [pat "alpha\s*supply"; pat "alphasupply"; pat "@alphasupply\."];
     receiptType := "pdf"; qboVendorName := "Alpha Supply";
     category := "Electrical Supplies";
     extractors :=
       {| x_total := rx "(?:total|amount\s*due|invoice\s*total)[:\s]*\$?([\d,]+\.?\d*)";
          x_date := rx "(?:invoice\s*date|date)[:\s]*(\d{1,2}[\/\-]\d{1,2}[\/\-]\d{2,4})";
          x_orderNumber := rx "(?:order\s*#?|P\.?O\.?)[:\s]*(\w+)";
          x_invoiceNumber := rx "(?:invoice\s*#?|inv\s*#?)[:\s]*(\w+)";
          x_cardLast4 := rx "(?:card|visa|mastercard|amex)[^\d]*(\d{4})" |} |}.

Definition readLighting : Profile :=
  {| vendorId := "read-lighting"; name := "Read Lighting"; displayName := "Read Lighting";
     emailPatterns :=
       [pat "read\s*lighting"; pat "readlighting"; pat "rlt"; pat "@readlighting\."];
     receiptType := "pdf"; qboVendorName := "Read Lighting";
     category := "Electrical Supplies";
     extractors :=
       {| x_total := rx "(?:total|amount\s*due|grand\s*total)[:\s]*\$?([\d,]+\.?\d*)";
          x_date := rx "(?:date|invoice\s*date)[:\s]*(\d{1,2}[\/\-]\d{1,2}[\/\-]\d{2,4})";
          x_orderNumber := rx "(?:order\s*#?|P\.?O\.?)[:\s]*(\w+)";
          x_invoiceNumber := rx "(?:invoice\s*#?|inv\s*#?)[:\s]*(\w+)";
          x_cardLast4 := rx "(?:card|visa|mastercard|amex)[^\d]*(\d{4})" |} |}.

(** The profiles, in the order of the table. *)
Definition vendors : list Profile :=
  [homeDepot; lowes; amazon; ced; aceHardware; alphaSupply; readLighting].

(** [getVendor(vendorId)]. *)
Definition getVendor (vendorId' : string) : option Profile :=
  List.find (fun v => String.eqb (vendorId v) vendorId') vendors.

End Vendors.

(** ** The parsers (parsers/vendors) and the router (parsers/index) *)

Module Parsers.
Import Text Helpers.

Inductive Confidence : Type := low | medium | high.

#[global] Instance Confidence_eq_dec : EqDecision Confidence.
Proof. solve_decision. Defined.

(** The object a parser answers.  The parsers do not all set the same
    keys: a key a parser never sets is [None] in its results. *)
Record Parsed := {
  total : option float;
  subtotal : option float;
  tax : option float;
  date : option string;
  orderNumber : option string;
  invoiceNumber : option string;
  poNumber : option string;
  cardLast4 : option string;
  paymentMethod : option string;
  accountNumber : option string;
  jobName : option string;
  lineItems : list Receipt.LineItem;
  confidence : Confidence }.

Definition set_confidence (c : Confidence) (r : Parsed) : Parsed :=
  {| total := total r; subtotal := subtotal r; tax := tax r; date := date r;
     orderNumber := orderNumber r; invoiceNumber := invoiceNumber r;
     poNumber := poNumber r; cardLast4 := cardLast4 r;
     paymentMethod := paymentMethod r; accountNumber := accountNumber r;
     jobName := jobName r; lineItems := lineItems r; confidence := c |}.

(** [parseInt(s, 10)] on a capture of digits; [None] is [NaN]. *)
Definition parseInt (s : string) : option Z :=
  match fst (JS.span_digits (list_ascii_of_string s)) with
  | [] => None
  | ds => Some (JS.digits_to_Z ds)
  end.

(** [parseCurrency(match[k])]. *)
Definition currency_of (k : nat) (groups : list string) : option float :=
  parseCurrency (capture_arg (group k groups)).

(** [const m = text.match(re); if (m) field = m[1];] for an optional
    pattern. *)
Definition capture1 (T : Env) (text : string) (re : option Regex) : option string :=
  re ← re; g ← str_match T text re; group 1 g.

(** The loop [for (const pattern of patterns) { const match =
    text.match(pattern); if (match) { field = parseCurrency(match[1]); if
    (field) break; } }], started with the field at [cur]. *)
Fixpoint currency_cascade (T : Env) (text : string) (patterns : list Regex)
    (cur : option float) : option float :=
  match patterns with
  | [] => cur
  | p :: ps =>
      match str_match T text p with
      | Some g =>
          let v := currency_of 1 g in
          if JS.truthy_onum v then v else currency_cascade T text ps v
      | None => currency_cascade T text ps cur
      end
  end.

(** The same loop with [parseDate] for the date. *)
Fixpoint date_cascade (T : Env) (text : string) (patterns : list Regex)
    (cur : option string) : option string :=
  match patterns with
  | [] => cur
  | p :: ps =>
      match str_match T text p with
      | Some g =>
          let v := parseDate T (group 1 g) in
          if JS.truthy_ostr v then v else date_cascade T text ps v
      | None => date_cascade T text ps cur
      end
  end.

Definition lit (src fl : string) : Regex := {| source := src; flags := fl |}.

Definition summaryLine : Regex := lit "^(total|subtotal|tax|shipping|discount)" "i".

Definition item (description : string) (sku : option string) (quantity : option Z)
    (unitPrice totalPrice : option float) : Receipt.LineItem :=
  {| Receipt.description := Some description; Receipt.sku := sku;
     Receipt.quantity := quantity; Receipt.unitPrice := unitPrice;
     Receipt.totalPrice := totalPrice; Receipt.itemCategory := None |}.

(** *** The generic parser *)

Module GenericParser.

(** [getDefaultExtractors()]. *)
Definition getDefaultExtractors : Vendors.Extractors :=
  {| Vendors.x_total := Some (lit "(?:order\s*)?(?:grand\s*)?total[:\s]*\$?([\d,]+\.?\d*)" "i");
     Vendors.x_date := Some (lit "(?:date|ordered?)[:\s]*(\d{1,2}[\/\-]\d{1,2}[\/\-]\d{2,4})" "i");
     Vendors.x_orderNumber := Some (lit "(?:order|confirmation)\s*(?:#|number)?[:\s]*([\w\-]+)" "i");
     Vendors.x_invoiceNumber := Some (lit "invoice\s*(?:#|number)?[:\s]*([\w\-]+)" "i");
     Vendors.x_cardLast4 := Some (lit "(?:card|visa|mastercard|amex|discover)[^\d]*(\d{4})" "i") |}.

(** The [result] object [parse] and [parseHtml] start from. *)
Definition emptyResult : Parsed :=
  {| total := None; subtotal := None; tax := None; date := None;
     orderNumber := None; invoiceNumber := None; poNumber := None;
     cardLast4 := None; paymentMethod := None; accountNumber := None;
     jobName := None; lineItems := []; confidence := low |}.

Definition amountPattern : Regex := lit "\$?([\d,]+\.\d{2})\b" "g".

(** [extractLargestAmount(text)]. *)
Definition extractLargestAmount (T : Env) (text : string) : option float :=
  let amounts :=
    omap (fun g =>
            match currency_of 1 g with
            | Some amount => if PrimFloat.ltb 0%float amount then Some amount else None
            | None => None
            end)
         (exec_all T amountPattern text) in
  match amounts with
  | [] => None
  | _ :: _ => Some (JS.Math_max amounts)
  end.

Definition datePatterns : list Regex :=
  [ lit "(\d{1,2}\/\d{1,2}\/\d{2,4})" "g";
    lit "(\d{1,2}-\d{1,2}-\d{2,4})" "g";
    lit "(\w+\s+\d{1,2},?\s*\d{4})" "g" ].

(** The comparator [(a, b) => new Date(b) - new Date(a)]; [None] is
    [NaN]. *)
Definition byDateDesc (a b : string) : option Z :=
  Dayjs.diff (Dayjs.parse b) (Dayjs.parse a).

(** Insertion of [a] before the elements of a sorted list that do not
    come before it; the sort is stable. *)
Fixpoint insert_sorted (a : string) (l : list string) : list string :=
  match l with
  | [] => [a]
  | b :: l' =>
      match byDateDesc a b with
      | Some c => if (0 <? c)%Z then b :: insert_sorted a l' else a :: l
      | None => a :: l
      end
  end.

Definition sortDates (dates : list string) : list string :=
  foldr insert_sorted [] dates.

(** [extractMostRecentDate(text)]. *)
Definition extractMostRecentDate (T : Env) (text : string) : option string :=
  let dates :=
    concat (map (fun pattern =>
                   omap (fun g => parseDate T (group 1 g)) (exec_all T pattern text))
                datePatterns) in
  head (sortDates dates).

Definition methods : list (Regex * string) :=
  [ (lit "visa" "i", "VISA");
    (lit "mastercard|master\s*card" "i", "MasterCard");
    (lit "amex|american\s*express" "i", "Amex");
    (lit "discover" "i", "Discover");
    (lit "debit" "i", "Debit");
    (lit "cash" "i", "Cash");
    (lit "check" "i", "Check") ].

(** [detectPaymentMethod(text)]. *)
Definition detectPaymentMethod (T : Env) (text : string) : option string :=
  first_some (fun '(pattern, method) => if test T pattern text then Some method else None)
             methods.

Definition simpleLine : Regex := lit "^(.+?)\s+\$?([\d,]+\.\d{2})\s*$" "".

(** [extractLineItems(text)]. *)
Definition extractLineItems (T : Env) (text : string) : list Receipt.LineItem :=
  let items :=
    omap (fun line =>
            match str_match T line simpleLine with
            | Some g =>
                let description := JS.trim (default "" (group 1 g)) in
                let price := currency_of 2 g in
                if test T summaryLine description then None
                else Some (item description None (Some 1%Z) None price)
            | None => None
            end)
         (JS.split_lines text) in
  take 50 items.

(** [calculateConfidence(result)]. *)
Definition confidenceScore (result : Parsed) : Z :=
  ((if JS.truthy_onum (total result) then 2 else 0)
   + (if JS.truthy_ostr (date result) then 2 else 0)
   + (if JS.truthy_ostr (orderNumber result) || JS.truthy_ostr (invoiceNumber result)
      then 1 else 0)
   + (if JS.truthy_ostr (cardLast4 result) then 1 else 0)
   + (if bool_decide (0 < length (lineItems result))%nat then 1 else 0))%Z.

Definition calculateConfidence (result : Parsed) : Confidence :=
  let score := confidenceScore result in
  if (5 <=? score)%Z then high
  else if (3 <=? score)%Z then medium
  else low.

(** The [result] object of [parse] as it stands when the last test of
    [parse] reads it. *)
Definition extract (T : Env) (text : string) (vendor : option Vendors.Profile) : Parsed :=
  let extractors :=
    match vendor with
    | Some v => Vendors.extractors v
    | None => getDefaultExtractors
    end in
  let total :=
    match Vendors.x_total extractors with
    | Some re =>
        match str_match T text re with
        | Some g => currency_of 1 g
        | None => None
        end
    | None => None
    end in
  let total := if JS.truthy_onum total then total else extractLargestAmount T text in
  let date :=
    match Vendors.x_date extractors with
    | Some re =>
        match str_match T text re with
        | Some g => parseDate T (group 1 g)
        | None => None
        end
    | None => None
    end in
  let date := if JS.truthy_ostr date then date else extractMostRecentDate T text in
  let orderNumber := capture1 T text (Vendors.x_orderNumber extractors) in
  let invoiceNumber := capture1 T text (Vendors.x_invoiceNumber extractors) in
  let cardLast4 := capture1 T text (Vendors.x_cardLast4 extractors) in
  let cardLast4 := if JS.truthy_ostr cardLast4 then cardLast4 else extractCardLast4 T text in
  let result :=
    {| total := total; subtotal := None; tax := None; date := date;
       orderNumber := orderNumber; invoiceNumber := invoiceNumber;
       poNumber := None; cardLast4 := cardLast4;
       paymentMethod := detectPaymentMethod T text;
       accountNumber := None;
       jobName := extractJobName T text;
       lineItems := extractLineItems T text;
       confidence := low |} in
  set_confidence (calculateConfidence result) result.

(** [parse(text, sourceType, vendor)]. *)
Definition parse (T : Env) (text sourceType : string) (vendor : option Vendors.Profile)
    : option Parsed :=
  let result := extract T text vendor in
  if JS.truthy_onum (total result) && JS.truthy_ostr (date result)
  then Some result else None.

End GenericParser.
(** *** The Alpha Supply parser *)

Module AlphaSupplyParser.

Definition totalPatterns : list Regex :=
  [ lit "(?:invoice\s*)?total[:\s]*\$?([\d,]+\.?\d*)" "i";
    lit "amount\s*due[:\s]*\$?([\d,]+\.?\d*)" "i";
    lit "balance\s*due[:\s]*\$?([\d,]+\.?\d*)" "i";
    lit "grand\s*total[:\s]*\$?([\d,]+\.?\d*)" "i" ].

Definition datePatterns : list Regex :=
  [ lit "invoice\s*date[:\s]*(\d{1,2}[\/\-]\d{1,2}[\/\-]\d{2,4})" "i";
    lit "date[:\s]*(\d{1,2}[\/\-]\d{1,2}[\/\-]\d{2,4})" "i";
    lit "(\d{1,2}[\/\-]\d{1,2}[\/\-]\d{2,4})" "" ].

Definition linePatterns : list Regex :=
  [ lit "^\s*(\w{3,15})\s+(.{10,50}?)\s+(\d+)\s+\$?([\d,]+\.\d{2})\s+\$?([\d,]+\.\d{2})" "";
    lit "^\s*(.{10,50}?)\s+(\d+)\s+@?\s*\$?([\d,]+\.\d{2})" "";
    lit "^\s*(.{5,60}?)\s+\$?([\d,]+\.\d{2})\s*$" "" ].

(** What the body of the inner loop pushes for a match, by
    [match.length], which is one more than the number of groups. *)
Definition itemOfMatch (T : Env) (g : list string) : option Receipt.LineItem :=
  let m k := default "" (group k g) in
  match length g with
  | 5%nat =>
      Some (item (JS.trim (m 2%nat)) (Some (JS.trim (m 1%nat))) (parseInt (m 3%nat))
                 (currency_of 4 g) (currency_of 5 g))
  | 3%nat =>
      Some (item (JS.trim (m 1%nat)) None (parseInt (m 2%nat)) None (currency_of 3 g))
  | 2%nat =>
      let description := JS.trim (m 1%nat) in
      if test T summaryLine description then None
      else Some (item description None (Some 1%Z) None (currency_of 2 g))
  | _ => None
  end.

(** [extractLineItems(text)]: on each line the first pattern that matches
    decides, and the loop moves to the next line. *)
Definition extractLineItems (T : Env) (text : string) : list Receipt.LineItem :=
  let items :=
    omap (fun line =>
            match first_some (str_match T line) linePatterns with
            | Some g => itemOfMatch T g
            | None => None
            end)
         (JS.split_lines text) in
  take 50 items.

(** The [result] object of [parse] as it stands when the last test of
    [parse] reads it. *)
Definition extract (T : Env) (text : string) : Parsed :=
  let total := currency_cascade T text totalPatterns None in
  let subtotal :=
    g ← str_match T text (lit "subtotal[:\s]*\$?([\d,]+\.?\d*)" "i"); currency_of 1 g in
  let tax :=
    g ← str_match T text (lit "(?:sales\s*)?tax[:\s]*\$?([\d,]+\.?\d*)" "i"); currency_of 1 g in
  let date := date_cascade T text datePatterns None in
  let invoiceNumber :=
    capture1 T text (Some (lit "invoice\s*(?:#|number|no\.?)?[:\s]*(\w+)" "i")) in
  let poNumber :=
    capture1 T text
      (Some (lit "(?:p\.?o\.?|purchase\s*order)\s*(?:#|number)?[:\s]*([\w\-]+)" "i")) in
  let accountNumber :=
    capture1 T text (Some (lit "account\s*(?:#|number)?[:\s]*(\d+)" "i")) in
  let cardMatch :=
    str_match T text (lit "(visa|mastercard|amex|discover)[^\d]*(\d{4})" "i") in
  let lineItems := extractLineItems T text in
  let confidence :=
    if JS.truthy_onum total && JS.truthy_ostr date
       && (JS.truthy_ostr invoiceNumber || JS.truthy_ostr poNumber)
    then high
    else if JS.truthy_onum total && JS.truthy_ostr date then medium
    else low in
  {| total := total; subtotal := subtotal; tax := tax; date := date;
     orderNumber := None; invoiceNumber := invoiceNumber; poNumber := poNumber;
     cardLast4 := g ← cardMatch; group 2 g;
     paymentMethod := g ← cardMatch; JS.toUpperCase <$> group 1 g;
     accountNumber := accountNumber;
     jobName := None;
     lineItems := lineItems;
     confidence := confidence |}.

(** [parse(text, sourceType)]. *)
Definition parse (T : Env) (text sourceType : string) : option Parsed :=
  let result := extract T text in
  if JS.truthy_onum (total result) || bool_decide (0 < length (lineItems result))%nat
  then Some result else None.

End AlphaSupplyParser.

(** *** The registry and the router *)

(** A parser object of the registry, by its [parse] method.  The router
    calls a vendor parser with two arguments, so the third parameter is
    [undefined] there; only the generic parser reads it. *)
Record Parser := {
  parse : Env -> string -> string -> option Vendors.Profile -> option Parsed }.

Definition generic : Parser := {| parse := GenericParser.parse |}.

Definition alphaSupply : Parser :=
  {| parse := fun T text sourceType _ => AlphaSupplyParser.parse T text sourceType |}.

Section Registry.

(** The parsers of the five other vendors. *)
Context (homeDepot lowes amazon ced readLighting : Parser).

(** The registry object, by key. *)
Definition vendorParsers : gmap string Parser :=
  list_to_map
    [ ("generic", generic);
      ("home-depot", homeDepot);
      ("lowes", lowes);
      ("amazon", amazon);
      ("ced", ced);
      ("alpha-supply", alphaSupply);
      ("read-lighting", readLighting) ].

(** [parseText(textContent, vendor)].  A vendor parser that answers
    [null] falls through to the generic parser.  The registry is read by
    the [vendorId] of a detected vendor, which is a key of the profile
    table. *)
Definition parseText (T : Env) (textContent : string) (vendor : option Vendors.Profile)
    : option Parsed :=
  let specific :=
    v ← vendor;
    p ← vendorParsers !! Vendors.vendorId v;
    parse p T textContent "text" None in
  match specific with
  | Some result => Some result
  | None =>
      g ← vendorParsers !! "generic";
      parse g T textContent "text" vendor
  end.

End Registry.

End Parsers.

(** ** Sample receipts, candidates and ledgers *)

Module Samples.
Import Qbo.

(** A [data] object with no key. *)
Definition noData : Receipt.Data :=
  {| Receipt.d_id := None; Receipt.d_sourceType := None; Receipt.d_emailId := None;
     Receipt.d_emailSubject := None; Receipt.d_attachmentName := None;
     Receipt.d_receivedAt := None; Receipt.d_vendorId := None;
     Receipt.d_vendorName := None; Receipt.d_vendorDisplayName := None;
     Receipt.d_qboVendorId := None; Receipt.d_date := None; Receipt.d_total := None;
     Receipt.d_subtotal := None; Receipt.d_tax := None; Receipt.d_shipping := None;
     Receipt.d_discount := None; Receipt.d_paymentMethod := None;
     Receipt.d_cardType := None; Receipt.d_cardLast4 := None;
     Receipt.d_orderNumber := None; Receipt.d_invoiceNumber := None;
     Receipt.d_poNumber := None; Receipt.d_jobName := None;
     Receipt.d_qboCustomerId := None; Receipt.d_qboProjectId := None;
     Receipt.d_lineItems := None; Receipt.d_categoryName := None;
     Receipt.d_qboAccountId := None; Receipt.d_isBillable := None;
     Receipt.d_isTaxable := None; Receipt.d_confidence := None |}.

(** The receipt of an Ace Hardware purchase of 119.76 on 2025-11-23, paid
    with a card ending in 1234, as [createReceipt] builds it and the mail
    processor fills it. *)
Definition aceReceipt : Receipt.t :=
  let r := Receipt.createReceipt "RLT-MIB2K3-A1B2C3" "2025-11-24T08:00:00.000Z" noData in
  {| Receipt.id := Receipt.id r;
     Receipt.source := Receipt.source r;
     Receipt.vendor :=
       {| Receipt.vendorId := Some "ace-hardware";
          Receipt.vendorName := Some "Ace Hardware";
          Receipt.displayName := Some "Ace Hardware";
          Receipt.qboVendorName := None;
          Receipt.qboVendorId := None |};
     Receipt.transaction :=
       {| Receipt.date := Some "2025-11-23"; Receipt.total := Some 119.76%float;
          Receipt.subtotal := None; Receipt.tax := None; Receipt.shipping := None;
          Receipt.discount := None |};
     Receipt.payment :=
       {| Receipt.method := Some "VISA"; Receipt.cardType := None;
          Receipt.cardLast4 := Some "1234" |};
     Receipt.reference := Receipt.reference r;
     Receipt.job := Receipt.job r;
     Receipt.lineItems := [];
     Receipt.qboSync := Receipt.qboSync r;
     Receipt.category := Receipt.category r;
     Receipt.attachments := [];
     Receipt.metadata := Receipt.metadata r |}.

Definition purchase (i : string) (amount : float) (day : string) (card : option string)
    : Purchase :=
  {| purchaseId := i; TotalAmt := amount; TxnDate := day; CCNumber := card;
     PrivateNote := None |}.

(** Same amount, same day, same card. *)
Definition exactCandidate : Purchase :=
  purchase "501" 119.76%float "2025-11-23" (Some "XXXXXXXXXXXX1234").

(** Two dollars more, three days later, no card on the purchase. *)
Definition twoDollarCandidate : Purchase :=
  purchase "502" 121.76%float "2025-11-26" None.

(** Two dollars more, same day, same card. *)
Definition twoDollarSameDayCard : Purchase :=
  purchase "503" 121.76%float "2025-11-23" (Some "XXXXXXXXXXXX1234").

(** Forty dollars more, three days before the receipt, another card. *)
Definition earlierCandidate : Purchase :=
  purchase "504" 159.76%float "2025-11-20" (Some "XXXXXXXXXXXX9999").

(** Forty dollars more, three days after the receipt, another card. *)
Definition laterCandidate : Purchase :=
  purchase "505" 159.76%float "2025-11-26" (Some "XXXXXXXXXXXX9999").



End Samples.

(** ** The amount component as the specification words it *)

Module CentsSpec.
Local Open Scope Z_scope.


End CentsSpec.

(** ** The confidence points as the specification words them *)

Module ConfidenceSpec.
Import Parsers.
Local Open Scope Z_scope.

(** +2 total, +2 date, +1 any reference number, +1 card suffix, +1 any
    line item. *)
Definition points (hasTotal hasDate hasReference hasCard hasItem : bool) : Z :=
  (if hasTotal then 2 else 0) + (if hasDate then 2 else 0)
  + (if hasReference then 1 else 0) + (if hasCard then 1 else 0)
  + (if hasItem then 1 else 0).

(** At least 5 is high, at least 3 is medium, else low. *)
Definition label (p : Z) : Confidence :=
  if 5 <=? p then high else if 3 <=? p then medium else low.

(** The order of the labels. *)
Definition rank (c : Confidence) : Z :=
  match c with low => 0 | medium => 1 | high => 2 end.

(** The fields of a result that count, as booleans. *)
Definition hasTotal (r : Parsed) : bool := JS.truthy_onum (total r).
Definition hasDate (r : Parsed) : bool := JS.truthy_ostr (date r).
Definition hasReference (r : Parsed) : bool :=
  JS.truthy_ostr (orderNumber r) || JS.truthy_ostr (invoiceNumber r).
Definition hasCard (r : Parsed) : bool := JS.truthy_ostr (cardLast4 r).
Definition hasItem (r : Parsed) : bool :=
  match lineItems r with [] => false | _ :: _ => true end.

(** [r'] has every counted field that [r] has. *)
Definition extends (r r' : Parsed) : Prop :=
  (hasTotal r = true → hasTotal r' = true)
  ∧ (hasDate r = true → hasDate r' = true)
  ∧ (hasReference r = true → hasReference r' = true)
  ∧ (hasCard r = true → hasCard r' = true)
  ∧ (hasItem r = true → hasItem r' = true).

End ConfidenceSpec.

(** ** Sample texts and parse results *)

Module TextSamples.
Import Text Parsers.

(** A text with a total and nothing else. *)
Definition totalOnlyText : string := "Total: $50.00".

(** The patterns that find the amount after the word Total. *)
Definition totalFinders : list Regex :=
  [ lit "(?:order\s*)?(?:grand\s*)?total[:\s]*\$?([\d,]+\.?\d*)" "i";
    lit "(?:total)[:\s]*\$?([\d,]+\.?\d*)" "i";
    lit "(?:invoice\s*)?total[:\s]*\$?([\d,]+\.?\d*)" "i" ].

(** The line patterns that split the text into a description and a
    price. *)
Definition lineSplitters : list Regex :=
  [ lit "^(.+?)\s+\$?([\d,]+\.\d{2})\s*$" "";
    lit "^\s*(.{5,60}?)\s+\$?([\d,]+\.\d{2})\s*$" "" ].

(** What the runtime answers on [totalOnlyText] and on the description
    [Total:] cut from it, for the patterns of the generic parser (with its
    default extractors or those of the Ace Hardware profile) and of the
    Alpha Supply parser.  No other pattern of theirs matches, no substring
    has the shape of a date, and the date parser is not called. *)
Definition totalOnlyEnv : Env :=
  {| str_match := fun text re =>
       if decide (text = totalOnlyText) then
         if bool_decide (re ∈ totalFinders) then Some ["50.00"]
         else if bool_decide (re ∈ lineSplitters) then Some ["Total:"; "50.00"]
         else None
       else if decide (text = "Total:" ∧ re = summaryLine) then Some ["Total"]
       else None;
     exec_all := fun re text =>
       if decide (re = GenericParser.amountPattern ∧ text = totalOnlyText)
       then [["50.00"]] else [];
     dayjs_strict := fun _ _ => None;
     dayjs_native := fun _ => None |}.

(** Results with a total only, with a total and a date, and with every
    counted field. *)
Definition totalOnlyResult : Parsed :=
  {| total := Some 50%float; subtotal := None; tax := None; date := None;
     orderNumber := None; invoiceNumber := None; poNumber := None;
     cardLast4 := None; paymentMethod := None; accountNumber := None;
     jobName := None; lineItems := []; confidence := low |}.

Definition totalAndDateResult : Parsed :=
  {| total := Some 50%float; subtotal := None; tax := None;
     date := Some "2025-11-23";
     orderNumber := None; invoiceNumber := None; poNumber := None;
     cardLast4 := None; paymentMethod := None; accountNumber := None;
     jobName := None; lineItems := []; confidence := low |}.

Definition fullResult : Parsed :=
  {| total := Some 119.76%float; subtotal := None; tax := None;
     date := Some "2025-11-23";
     orderNumber := Some "W123456789"; invoiceNumber := None; poNumber := None;
     cardLast4 := Some "1234"; paymentMethod := Some "VISA"; accountNumber := None;
     jobName := None;
     lineItems := [item "Wire nuts" None (Some 1%Z) None (Some 119.76%float)];
     confidence := low |}.

End TextSamples.

(** ** Sequences of operations on one receipt, and what a cycle keeps *)

Module Lifecycle.
Import Qbo.

(** An operation on a receipt after its creation: a sync against the
    ledger as it answers then, or a processing note. *)
Inductive Op : Type :=
| Sync (L : Ledger) (now : string)
| Note (now note : string).

Definition apply (st : Matcher.Caches * Receipt.t) (op : Op) : Matcher.Caches * Receipt.t :=
  match op with
  | Sync L now => (Uploader.syncReceipt L now st.1 st.2).1
  | Note now note => (st.1, Receipt.addProcessingNote now st.2 note)
  end.

Definition run (ops : list Op) (st : Matcher.Caches * Receipt.t)
    : Matcher.Caches * Receipt.t :=
  fold_left apply ops st.

Definition statusOf (r : Receipt.t) : Receipt.SyncStatus :=
  Receipt.status (Receipt.qboSync r).

(** Every entry of the caches [c] is an entry of the caches [c']. *)
Definition keeps (c c' : Matcher.Caches) : Prop :=
  Matcher.vendorCache c ⊆ Matcher.vendorCache c'
  ∧ Matcher.customerCache c ⊆ Matcher.customerCache c'
  ∧ Matcher.accountCache c ⊆ Matcher.accountCache c'.

(** The ledger [L] with its purchase query answered by [answer]. *)
Definition with_purchases (answer : Result (list Purchase)) (L : Ledger) : Ledger :=
  {| queryVendor := queryVendor L;
     createVendor := createVendor L;
     queryCustomer := queryCustomer L;
     createCustomer := createCustomer L;
     queryAccount := queryAccount L;
     queryExpenseAccounts := queryExpenseAccounts L;
     queryCreditCardAccounts := queryCreditCardAccounts L;
     queryPurchases := fun _ _ => answer;
     postPurchase := postPurchase L |}.

End Lifecycle.

(** ** Sample ledgers and cycles *)

Module LedgerSamples.
Import Qbo.

(** What the ledger answers to a post: the purchase, under a new
    identifier for a new expense. *)
Definition posted (w : Write) : Purchase :=
  match w with
  | NewExpense r _ =>
      {| purchaseId := "900";
         TotalAmt := to_number (Receipt.total (Receipt.transaction r));
         TxnDate := default "" (Receipt.date (Receipt.transaction r));
         CCNumber := None;
         PrivateNote := Some ("Imported by RLT Receipt Matcher - " +:+ Receipt.id r) |}
  | UpdatedPurchase _ txn => txn
  end.

(** A ledger that knows no vendor, customer or purchase yet, has one
    expense account and one credit card account, and accepts what it is
    sent. *)
Definition quietLedger : Ledger :=
  {| queryVendor := fun _ => Ok [];
     createVendor := fun name => Ok {| Id := "61"; Name := default "null" name |};
     queryCustomer := fun _ => Ok [];
     createCustomer := fun name => Ok {| Id := "62"; Name := name |};
     queryAccount := fun _ => Ok [];
     queryExpenseAccounts := Ok [ {| Id := "7"; Name := "Job Materials" |} ];
     queryCreditCardAccounts := Ok [ {| Id := "9"; Name := "Company Visa" |} ];
     queryPurchases := fun _ _ => Ok [];
     postPurchase := fun w => Ok (posted w) |}.

(** The same ledger while every vendor, customer and account call
    fails. *)
Definition lookupsDown : Ledger :=
  {| queryVendor := fun _ => Throw "AuthenticationFailed";
     createVendor := fun _ => Throw "AuthenticationFailed";
     queryCustomer := fun _ => Throw "AuthenticationFailed";
     createCustomer := fun _ => Throw "AuthenticationFailed";
     queryAccount := fun _ => Throw "AuthenticationFailed";
     queryExpenseAccounts := Throw "AuthenticationFailed";
     queryCreditCardAccounts := Ok [ {| Id := "9"; Name := "Company Visa" |} ];
     queryPurchases := fun _ _ => Ok [];
     postPurchase := fun w => Ok (posted w) |}.

(** The same ledger while it refuses every post. *)
Definition writesRefused : Ledger :=
  {| queryVendor := queryVendor quietLedger;
     createVendor := createVendor quietLedger;
     queryCustomer := queryCustomer quietLedger;
     createCustomer := createCustomer quietLedger;
     queryAccount := queryAccount quietLedger;
     queryExpenseAccounts := queryExpenseAccounts quietLedger;
     queryCreditCardAccounts := queryCreditCardAccounts quietLedger;
     queryPurchases := queryPurchases quietLedger;
     postPurchase := fun _ => Throw "ValidationFault" |}.

(** The same ledger while the purchase query fails. *)
Definition purchaseQueryDown : Ledger :=
  Lifecycle.with_purchases (Throw "ThrottleExceeded") quietLedger.

(** The same ledger once it holds the purchase of the sample receipt. *)
Definition holdsExactCandidate : Ledger :=
  Lifecycle.with_purchases (Ok [Samples.exactCandidate]) quietLedger.

(** A ledger where the vendor named Ace Hardware is the vendor [i]. *)
Definition aceIs (i : string) : Ledger :=
  {| queryVendor := fun _ => Ok [ {| Id := i; Name := "Ace Hardware" |} ];
     createVendor := createVendor quietLedger;
     queryCustomer := queryCustomer quietLedger;
     createCustomer := createCustomer quietLedger;
     queryAccount := queryAccount quietLedger;
     queryExpenseAccounts := queryExpenseAccounts quietLedger;
     queryCreditCardAccounts := queryCreditCardAccounts quietLedger;
     queryPurchases := queryPurchases quietLedger;
     postPurchase := postPurchase quietLedger |}.

(** The sample receipt with a job name. *)
Definition jobReceipt : Receipt.t :=
  Receipt.set_job
    {| Receipt.jobName := Some "Smith Kitchen";
       Receipt.qboCustomerId := None;
       Receipt.qboProjectId := None |} Samples.aceReceipt.

Definition clock : string := "2025-11-24T09:00:00.000Z".

(** A cycle with one Ace Hardware receipt, while the ledger has the
    vendor under the identifier [i]. *)
Definition cycleWithAce (i : string) : Scheduler.Cycle :=
  {| Scheduler.now := clock;
     Scheduler.gmailAuth := Ok true;
     Scheduler.qboAuth := Ok true;
     Scheduler.processNewEmails := Ok [(aceIs i, Samples.aceReceipt)] |}.

(** The process after a first cycle in which the vendor was [34]. *)
Definition afterFirstCycle : Scheduler.t * Matcher.Caches * list Receipt.t :=
  Scheduler.runPipeline (cycleWithAce "34") Scheduler.constructor Matcher.constructor.

(** The caches and the receipt after a first sync of the sample receipt
    against the quiet ledger. *)
Definition firstSync : Matcher.Caches * Receipt.t :=
  (Uploader.syncReceipt quietLedger clock Matcher.constructor Samples.aceReceipt).1.

(** The sync of the receipt with a job while the lookups are down. *)
Definition syncWhileLookupsDown : Matcher.Caches * Receipt.t * Result unit :=
  Uploader.syncReceipt lookupsDown clock Matcher.constructor jobReceipt.

(** The [qboVendorId] of the receipts a cycle leaves. *)
Definition vendorIds (out : Scheduler.t * Matcher.Caches * list Receipt.t)
    : list (option string) :=
  map (fun r => Receipt.qboVendorId (Receipt.vendor r)) out.2.

End LedgerSamples.

(** * Checking a decidable property on a run of consecutive integers *)

Module Range.

(** [holds_from p n z]: [p] holds at [z], [z + 1], ..., [z + n - 1]. *)
Fixpoint holds_from (p : Z → bool) (n : nat) (z : Z) : bool :=
  match n with
  | O => true
  | S n' => p z && holds_from p n' (z + 1)%Z
  end.

End Range.

(** ** The part of a receipt the ledger lookups of a sync leave alone *)

Module SyncSpec.

(** [r0] is [r] but for the three ledger ids of the vendor, the customer
    and the account. *)
Definition lookups_only (r r0 : Receipt.t) : Prop :=
  Receipt.id r0 = Receipt.id r
  ∧ Receipt.source r0 = Receipt.source r
  ∧ Receipt.transaction r0 = Receipt.transaction r
  ∧ Receipt.payment r0 = Receipt.payment r
  ∧ Receipt.reference r0 = Receipt.reference r
  ∧ Receipt.lineItems r0 = Receipt.lineItems r
  ∧ Receipt.attachments r0 = Receipt.attachments r
  ∧ Receipt.qboSync r0 = Receipt.qboSync r
  ∧ Receipt.metadata r0 = Receipt.metadata r
  ∧ Receipt.vendorId (Receipt.vendor r0) = Receipt.vendorId (Receipt.vendor r)
  ∧ Receipt.vendorName (Receipt.vendor r0) = Receipt.vendorName (Receipt.vendor r)
  ∧ Receipt.displayName (Receipt.vendor r0) = Receipt.displayName (Receipt.vendor r)
  ∧ Receipt.qboVendorName (Receipt.vendor r0) = Receipt.qboVendorName (Receipt.vendor r)
  ∧ Receipt.jobName (Receipt.job r0) = Receipt.jobName (Receipt.job r)
  ∧ Receipt.qboProjectId (Receipt.job r0) = Receipt.qboProjectId (Receipt.job r)
  ∧ Receipt.categoryName (Receipt.category r0) = Receipt.categoryName (Receipt.category r)
  ∧ Receipt.isBillable (Receipt.category r0) = Receipt.isBillable (Receipt.category r)
  ∧ Receipt.isTaxable (Receipt.category r0) = Receipt.isTaxable (Receipt.category r).

End SyncSpec.

(** ** The generic parser on HTML mail (parsers/vendors/generic, parseHtml) *)

Module GenericHtml.
Import Text Helpers Parsers.

(** The [extracted] object [parseHtml] reads, as the HTML parser builds
    it: the labeled amounts ([undefined] without a match, else what
    [parseCurrency] answered), all amounts, the dates, the order
    information and the tables, each a list of rows of cell texts. *)
Record Extracted := {
  labeledTotal : option float;
  labeledSubtotal : option float;
  labeledTax : option float;
  allAmounts : list float;
  dates : list string;
  infoOrderNumber : option string;
  infoInvoiceNumber : option string;
  infoCardLast4 : option string;
  tables : list (list (list string)) }.

Definition priceCell : Regex := lit "\$?([\d,]+\.\d{2})" "".

(** One iteration of the loop over the cells of a row, on the pair
    [(price, description)]. *)
Definition scanCell (T : Env) (st : option float * option string) (cell : string)
    : option float * option string :=
  match str_match T cell priceCell with
  | Some g => (currency_of 1 g, snd st)
  | None =>
      if bool_decide (3 < String.length cell)%nat && negb (JS.truthy_onum (fst st))
      then (fst st, Some cell)
      else st
  end.

(** What a data row pushes. *)
Definition itemOfRow (T : Env) (row : list string) : option Receipt.LineItem :=
  if bool_decide (length row < 2)%nat then None
  else
    let '(price, description) := fold_left (scanCell T) row (None, None) in
    match description with
    | Some d =>
        if JS.truthy_str d && JS.truthy_onum price
        then Some (item d None (Some 1%Z) None price)
        else None
    | None => None
    end.

(** The rows of a table after its first, which is taken for a header. *)
Definition itemsOfTable (T : Env) (rows : list (list string)) : list Receipt.LineItem :=
  if bool_decide (length rows < 2)%nat then []
  else omap (itemOfRow T) (drop 1 rows).

(** [extractLineItemsFromTables(tables)]. *)
Definition extractLineItemsFromTables (T : Env) (tables : list (list (list string)))
    : list Receipt.LineItem :=
  take 50 (concat (map (itemsOfTable T) tables)).

(** The [result] object of [parseHtml] as it stands when the last test
    reads it. *)
Definition extractHtml (T : Env) (extracted : Extracted) : Parsed :=
  let total :=
    if JS.truthy_onum (labeledTotal extracted) then labeledTotal extracted
    else if bool_decide (0 < length (allAmounts extracted))%nat
         then Some (JS.Math_max (allAmounts extracted))
         else None in
  let keep_num (o : option float) := if JS.truthy_onum o then o else None in
  let keep_str (o : option string) := if JS.truthy_ostr o then o else None in
  let result :=
    {| total := total;
       subtotal := keep_num (labeledSubtotal extracted);
       tax := keep_num (labeledTax extracted);
       date := head (dates extracted);
       orderNumber := keep_str (infoOrderNumber extracted);
       invoiceNumber := keep_str (infoInvoiceNumber extracted);
       poNumber := None;
       cardLast4 := keep_str (infoCardLast4 extracted);
       paymentMethod := None;
       accountNumber := None;
       jobName := None;
       lineItems := extractLineItemsFromTables T (tables extracted);
       confidence := low |} in
  set_confidence (GenericParser.calculateConfidence result) result.

(** [parseHtml(htmlContent, extracted, vendor)]; neither the HTML nor the
    vendor is read. *)
Definition parseHtml (T : Env) (htmlContent : string) (extracted : Extracted)
    (vendor : option Vendors.Profile) : option Parsed :=
  let result := extractHtml T extracted in
  if JS.truthy_onum (total result) && JS.truthy_ostr (date result)
  then Some result else None.

End GenericHtml.

(** ** Sample texts with dates *)

Module DatedSamples.
Import Text Parsers.

(** A text with a date and a total. *)
Definition datedText : string :=
  "Date: 11/23/2025" +:+ String (ascii_of_nat 10) "Total: $50.00".

(** A text with two dates. *)
Definition twoDatesText : string := "Ordered 11/20/2025, delivered 11/23/2025".

(** What the date parser answers on the date strings of the two texts. *)
Definition strictDate (s fmt : string) : option string :=
  if decide (fmt = "MM/DD/YYYY") then
    if decide (s = "11/23/2025") then Some "2025-11-23"
    else if decide (s = "11/20/2025") then Some "2025-11-20"
    else None
  else None.

(** What the runtime answers on the two texts for the patterns of the
    generic parser. *)
Definition datedEnv : Env :=
  {| str_match := fun text re =>
       if decide (text = datedText) then
         if decide (re = lit "(?:order\s*)?(?:grand\s*)?total[:\s]*\$?([\d,]+\.?\d*)" "i")
         then Some ["50.00"]
         else if decide (re = lit "(?:date|ordered?)[:\s]*(\d{1,2}[\/\-]\d{1,2}[\/\-]\d{2,4})" "i")
         then Some ["11/23/2025"]
         else None
       else if decide (text = "Total: $50.00" ∧ re = GenericParser.simpleLine)
       then Some ["Total:"; "50.00"]
       else if decide (text = "Total:" ∧ re = summaryLine) then Some ["Total"]
       else None;
     exec_all := fun re text =>
       if decide (re = lit "(\d{1,2}\/\d{1,2}\/\d{2,4})" "g" ∧ text = twoDatesText)
       then [["11/20/2025"]; ["11/23/2025"]] else [];
     dayjs_strict := strictDate;
     dayjs_native := fun _ => None |}.

(** The day number of a date string that parses; [0] stands for one that
    does not. *)
Definition dayOf (d : string) : Z := default 0%Z (Dayjs.parse d).

End DatedSamples.

(** ** More of the utility helpers (utils/helpers) *)

Module Normalize.

(** [\w]: a letter, a digit or the underscore. *)
Definition is_word (c : ascii) : bool :=
  let n := N_of_ascii c in
  ((48 <=? n)%N && (n <=? 57)%N) || ((65 <=? n)%N && (n <=? 90)%N)
  || ((97 <=? n)%N && (n <=? 122)%N) || (n =? 95)%N.

(** [.replace(/\s+/g, ' ')]: every run of white space becomes one space;
    [in_run] says that the character before was white space. *)
Fixpoint collapse (in_run : bool) (l : list ascii) : list ascii :=
  match l with
  | [] => []
  | c :: l' =>
      if JS.is_space c
      then if in_run then collapse true l' else " "%char :: collapse true l'
      else c :: collapse false l'
  end.

(** The characters [.replace(/[^\w\s\-']/g, '')] keeps. *)
Definition kept (c : ascii) : bool :=
  is_word c || JS.is_space c || Ascii.eqb c "-" || Ascii.eqb c "'".

(** [normalizeVendorName(name)], on ASCII text. *)
Definition normalizeVendorName (name : option string) : option string :=
  match name with
  | Some s =>
      if JS.truthy_str s then
        Some (string_of_list_ascii
                (filter (fun c => kept c = true)
                        (collapse false (list_ascii_of_string (JS.trim s)))))
      else None
  | None => None
  end.

(** A name as the normalization leaves it alone: word characters,
    hyphens, apostrophes and single spaces, with no space at either
    end. *)
Definition plain (c : ascii) : bool :=
  is_word c || Ascii.eqb c " " || Ascii.eqb c "-" || Ascii.eqb c "'".

Fixpoint single_spaced (l : list ascii) : bool :=
  match l with
  | a :: (b :: _) as l' => negb (Ascii.eqb a " " && Ascii.eqb b " ") && single_spaced l'
  | _ => true
  end.

Definition clean (s : string) : bool :=
  let l := list_ascii_of_string s in
  forallb plain l && single_spaced l
  && match l with c :: _ => negb (Ascii.eqb c " ") | [] => false end
  && match rev l with c :: _ => negb (Ascii.eqb c " ") | [] => false end.

End Normalize.

Module Retry.
Import JS.
Local Open Scope Z_scope.

(** The options of [retry], whole numbers here. *)
Record Options := { maxRetries : Z; baseDelay : Z; maxDelay : Z }.

(** [{ maxRetries = 3, baseDelay = 1000, maxDelay = 30000 }]. *)
Definition defaults : Options :=
  {| maxRetries := 3; baseDelay := 1000; maxDelay := 30000 |}.

(** How [retry] ends: it returns what [fn] returned, or throws the last
    error, which is [undefined] when [fn] was never called. *)
Inductive Outcome (A : Type) : Type :=
| Returned (a : A)
| Rethrown (message : string)
| ThrownUndefined.
Arguments Returned {A} a.
Arguments Rethrown {A} message.
Arguments ThrownUndefined {A}.

Definition thrown {A} (lastError : option string) : Outcome A :=
  match lastError with Some e => Rethrown e | None => ThrownUndefined end.

(** The loop of [retry] from [attempt] on, for [n] more iterations.  The
    call number [k] of [fn] (from 0) answers [fn k]; the outcome comes with
    the delays slept, in order. *)
Fixpoint attempts {A} (fn : nat -> Result A) (o : Options) (n : nat) (attempt : nat)
    (lastError : option string) : Outcome A * list Z :=
  match n with
  | O => (thrown lastError, [])
  | S n' =>
      match fn attempt with
      | Ok a => (Returned a, [])
      | Throw e =>
          let slept :=
            if Z.of_nat attempt <? maxRetries o - 1
            then [Z.min (baseDelay o * 2 ^ Z.of_nat attempt) (maxDelay o)]
            else [] in
          let '(out, rest) := attempts fn o n' (S attempt) (Some e) in
          (out, slept ++ rest)
      end
  end.

(** [retry(fn, options)]. *)
Definition retry {A} (fn : nat -> Result A) (o : Options) : Outcome A * list Z :=
  attempts fn o (Z.to_nat (maxRetries o)) 0 None.

(** The delays before the attempts [from + 1] to [from + k]: the base
    delay doubled at each attempt, capped. *)
Definition backoff (o : Options) (from k : nat) : list Z :=
  map (fun j => Z.min (baseDelay o * 2 ^ Z.of_nat j) (maxDelay o)) (seq from k).

(** A call that fails twice, then answers. *)
Definition thirdTimeLucky (k : nat) : Result string :=
  match k with
  | 0%nat => Throw "ECONNRESET"
  | 1%nat => Throw "ETIMEDOUT"
  | _ => Ok "done"
  end.

(** A call that fails every time, with the number of the call in the
    message. *)
Definition alwaysDown (k : nat) : Result string :=
  Throw (String (Dayjs.digit_char (Z.of_nat k)) EmptyString).

End Retry.

(** ** Vendor detection (config/vendors, detectVendor) *)

Module Detect.
Import Text Vendors.

(** The fields of a fetched mail that the detection reads. *)
Record Email := {
  from : option string;
  subject : option string;
  snippet : option string }.

(** [[from || '', subject || '', snippet || ''].join(' ').toLowerCase()]. *)
Definition searchText (email : Email) : string :=
  JS.toLowerCase
    (default "" (from email) +:+ " " +:+ default "" (subject email) +:+ " "
       +:+ default "" (snippet email)).

(** The inner loop: one of the mail patterns of the profile tests true. *)
Definition matches (T : Env) (text : string) (v : Profile) : bool :=
  existsb (fun pattern => test T pattern text) (emailPatterns v).

(** [detectVendor(email)]: the profiles are tried in the order of the
    table. *)
Definition detectVendor (T : Env) (email : Email) : option Profile :=
  List.find (matches T (searchText email)) vendors.

(** [getAllVendorNames()]. *)
Definition getAllVendorNames : list string := map qboVendorName vendors.

(** A mail from Read Lighting that mentions the Home Depot, and what the
    runtime answers on it: the patterns of both vendors match. *)
Definition forwardedMail : Email :=
  {| from := Some "billing@readlighting.com";
     subject := Some "Invoice 4471";
     snippet := Some "Material picked up at Home Depot" |}.

Definition forwardedEnv : Env :=
  {| str_match := fun text re =>
       if decide (text = searchText forwardedMail) then
         if decide (re = pat "home\s*depot") then Some []
         else if decide (re = pat "read\s*lighting") then Some []
         else if decide (re = pat "readlighting") then Some []
         else if decide (re = pat "@readlighting\.") then Some []
         else None
       else None;
     exec_all := fun _ _ => [];
     dayjs_strict := fun _ _ => None;
     dayjs_native := fun _ => None |}.

End Detect.

(** ** The parser router on decoded documents (parsers/index) *)

Module Router.
Import Text Parsers.

Section Decoded.

Context (homeDepot lowes amazon ced readLighting : Parser).

Abbreviation registry := (vendorParsers homeDepot lowes amazon ced readLighting).

(** [parsePdf(pdfBuffer, vendor)]; [decoded] is what
    [pdfParser.extractText(pdfBuffer)] answers or throws. *)
Definition parsePdf (T : Env) (decoded : JS.Result string) (vendor : option Vendors.Profile)
    : option Parsed :=
  match decoded with
  | JS.Throw _ => None
  | JS.Ok text =>
      if negb (JS.truthy_str text) || (String.length (JS.trim text) =? 0)%nat then None
      else
        let specific :=
          v ← vendor;
          p ← registry !! Vendors.vendorId v;
          parse p T text "pdf" None in
        match specific with
        | Some result => Some result
        | None => g ← registry !! "generic"; parse g T text "pdf" vendor
        end
  end.

(** [parseImage(imageBuffer, vendor)]; [decoded] is what
    [imageParser.extractText(imageBuffer)] answers or throws. *)
Definition parseImage (T : Env) (decoded : JS.Result string) (vendor : option Vendors.Profile)
    : option Parsed :=
  match decoded with
  | JS.Throw _ => None
  | JS.Ok text =>
      if negb (JS.truthy_str text) || (String.length (JS.trim text) =? 0)%nat then None
      else
        let specific :=
          v ← vendor;
          p ← registry !! Vendors.vendorId v;
          parse p T text "image" None in
        match specific with
        | Some result => Some result
        | None => g ← registry !! "generic"; parse g T text "image" vendor
        end
  end.

End Decoded.

End Router.

(** ** More of the receipt model (models/receipt) *)

Module ReceiptOps.
Import Receipt.

Definition set_lineItems (l : list LineItem) (r : t) : t :=
  {| id := id r; source := source r; vendor := vendor r;
     transaction := transaction r; payment := payment r;
     reference := reference r; job := job r; lineItems := l;
     qboSync := qboSync r; category := category r;
     attachments := attachments r; metadata := metadata r |}.

Definition set_attachments (l : list Attachment) (r : t) : t :=
  {| id := id r; source := source r; vendor := vendor r;
     transaction := transaction r; payment := payment r;
     reference := reference r; job := job r; lineItems := lineItems r;
     qboSync := qboSync r; category := category r;
     attachments := l; metadata := metadata r |}.

Definition set_transaction (x : Transaction) (r : t) : t :=
  {| id := id r; source := source r; vendor := vendor r;
     transaction := x; payment := payment r;
     reference := reference r; job := job r; lineItems := lineItems r;
     qboSync := qboSync r; category := category r;
     attachments := attachments r; metadata := metadata r |}.

Definition set_payment (x : Payment) (r : t) : t :=
  {| id := id r; source := source r; vendor := vendor r;
     transaction := transaction r; payment := x;
     reference := reference r; job := job r; lineItems := lineItems r;
     qboSync := qboSync r; category := category r;
     attachments := attachments r; metadata := metadata r |}.

Definition set_reference (x : Reference) (r : t) : t :=
  {| id := id r; source := source r; vendor := vendor r;
     transaction := transaction r; payment := payment r;
     reference := x; job := job r; lineItems := lineItems r;
     qboSync := qboSync r; category := category r;
     attachments := attachments r; metadata := metadata r |}.

(** [quantity || 1]: [0] and [NaN] give [1]. *)
Definition quantity_or_one (q : option Z) : Z :=
  match q with
  | Some z => if (z =? 0)%Z then 1%Z else z
  | None => 1%Z
  end.

(** [size || null]. *)
Definition size_or_null (s : option Z) : option Z :=
  match s with
  | Some z => if (z =? 0)%Z then None else Some z
  | None => None
  end.

(** [addLineItem(receipt, item)]; [now] is what
    [new Date().toISOString()] returns. *)
Definition addLineItem (now : string) (r : t) (item : LineItem) : t :=
  touch now
    (set_lineItems
       (lineItems r ++
          [ {| description := str_or_null (description item);
               sku := str_or_null (sku item);
               quantity := Some (quantity_or_one (quantity item));
               unitPrice := num_or_null (unitPrice item);
               totalPrice := num_or_null (totalPrice item);
               itemCategory := str_or_null (itemCategory item) |} ])
       r).

(** The [attachment] argument of [addAttachment]: every key is
    optional. *)
Record AttachmentArg := {
  a_type : option string;
  a_filename : option string;
  a_mimeType : option string;
  a_data : option string;
  a_size : option Z }.

(** [addAttachment(receipt, attachment)]. *)
Definition addAttachment (now : string) (r : t) (attachment : AttachmentArg) : t :=
  touch now
    (set_attachments
       (attachments r ++
          [ {| attType := default "pdf" (str_or_null (a_type attachment));
               filename := str_or_null (a_filename attachment);
               mimeType := str_or_null (a_mimeType attachment);
               data := str_or_null (a_data attachment);
               size := size_or_null (a_size attachment) |} ])
       r).

Record Validation := { isValid : bool; errors : list string }.

(** [validateReceipt(receipt)]. *)
Definition validateReceipt (r : t) : Validation :=
  let errors :=
    (if JS.truthy_ostr (vendorName (vendor r)) then [] else ["Vendor name is required"])
    ++ (if JS.truthy_onum (total (transaction r)) then []
        else ["Transaction total is required"])
    ++ (if JS.truthy_ostr (date (transaction r)) then []
        else ["Transaction date is required"]) in
  {| isValid := bool_decide (length errors = 0%nat); errors := errors |}.

End ReceiptOps.

(** ** The mail processor (services/gmail/processor) *)

Module Processor.
Import JS Parsers ReceiptOps.

(** An attachment of a fetched mail, as the fetcher lists it. *)
Record MailAttachment := {
  attachmentId : string;
  messageId : string;
  filename : string;
  mimeType : string;
  size : option Z }.

(** A fetched mail, by the fields the processor reads. *)
Record Mail := {
  mailId : string;
  subject : option string;
  date : option string;
  vendor : option Vendors.Profile;
  attachments : list MailAttachment;
  bodyHtml : option string;
  bodyText : option string }.

(** What the outside world answers while one mail is processed: the
    download of an attachment (a buffer, here a string) and its base64
    text, the four entries of the parser router, which catch what is thrown
    inside them, the marking of the mail, the identifier generated for the
    receipt and the clock. *)
Record World := {
  downloadAttachment : string -> string -> Result string;
  toBase64 : string -> string;
  parsePdf : string -> option Vendors.Profile -> option Parsed;
  parseImage : string -> option Vendors.Profile -> option Parsed;
  parseHtml : string -> option Vendors.Profile -> option Parsed;
  parseText : string -> option Vendors.Profile -> option Parsed;
  markAsProcessed : string -> Result unit;
  freshId : string;
  now : string }.

(** [s.startsWith(p)] and [s.endsWith(p)]. *)
Definition startsWith (s p : string) : bool :=
  is_prefix (list_ascii_of_string p) (list_ascii_of_string s).
Definition endsWith (s p : string) : bool :=
  is_prefix (rev (list_ascii_of_string p)) (rev (list_ascii_of_string s)).

Definition isPdf (a : MailAttachment) : bool :=
  String.eqb (mimeType a) "application/pdf" || endsWith (toLowerCase (filename a)) ".pdf".

Definition isImage (a : MailAttachment) : bool := startsWith (mimeType a) "image/".

(** One [try] block of [processAttachments]: download, attach, parse; a
    failed download is caught. *)
Definition tryAttachment (W : World) (kind label : string)
    (route : string -> option Vendors.Profile -> option Parsed)
    (mail : Mail) (a : MailAttachment) (r : Receipt.t) : Receipt.t * option Parsed :=
  match downloadAttachment W (messageId a) (attachmentId a) with
  | Throw _ => (r, None)
  | Ok data =>
      let r :=
        addAttachment (now W) r
          {| a_type := Some kind;
             a_filename := Some (filename a);
             a_mimeType := Some (mimeType a);
             a_data := Some (toBase64 W data);
             a_size := size a |} in
      match route data (vendor mail) with
      | Some parsed =>
          (Receipt.addProcessingNote (now W) r (label +:+ filename a), Some parsed)
      | None => (r, None)
      end
  end.

(** [processAttachments(email, receipt)], on the attachments left. *)
Fixpoint processAttachments (W : World) (mail : Mail) (left : list MailAttachment)
    (r : Receipt.t) : Receipt.t * option Parsed :=
  match left with
  | [] => (r, None)
  | a :: rest =>
      let '(r, parsed) :=
        if isPdf a then tryAttachment W "pdf" "Parsed from PDF: " (parsePdf W) mail a r
        else (r, None) in
      match parsed with
      | Some p => (r, Some p)
      | None =>
          let '(r, parsed) :=
            if isImage a
            then tryAttachment W "image" "Parsed from image: " (parseImage W) mail a r
            else (r, None) in
          match parsed with
          | Some p => (r, Some p)
          | None => processAttachments W mail rest r
          end
      end
  end.

(** [processEmailBody(email, receipt)]. *)
Definition processEmailBody (W : World) (mail : Mail) (r : Receipt.t)
    : Receipt.t * option Parsed :=
  let fromHtml :=
    match bodyHtml mail with
    | Some html => if truthy_str html then parseHtml W html (vendor mail) else None
    | None => None
    end in
  match fromHtml with
  | Some parsed =>
      (Receipt.addProcessingNote (now W) r "Parsed from HTML email body", Some parsed)
  | None =>
      let fromText :=
        match bodyText mail with
        | Some text => if truthy_str text then parseText W text (vendor mail) else None
        | None => None
        end in
      match fromText with
      | Some parsed =>
          (Receipt.addProcessingNote (now W) r "Parsed from plain text email body",
           Some parsed)
      | None => (r, None)
      end
  end.

(** The receipt [processEmail] starts from. *)
Definition baseReceipt (W : World) (mail : Mail) : Receipt.t :=
  Receipt.createReceipt (freshId W) (now W)
    {| Receipt.d_id := None;
       Receipt.d_sourceType := Some "email";
       Receipt.d_emailId := Some (mailId mail);
       Receipt.d_emailSubject := subject mail;
       Receipt.d_attachmentName := None;
       Receipt.d_receivedAt := date mail;
       Receipt.d_vendorId := Vendors.vendorId <$> vendor mail;
       Receipt.d_vendorName := Vendors.name <$> vendor mail;
       Receipt.d_vendorDisplayName := Vendors.displayName <$> vendor mail;
       Receipt.d_qboVendorId := None;
       Receipt.d_date := None; Receipt.d_total := None; Receipt.d_subtotal := None;
       Receipt.d_tax := None; Receipt.d_shipping := None; Receipt.d_discount := None;
       Receipt.d_paymentMethod := None; Receipt.d_cardType := None;
       Receipt.d_cardLast4 := None;
       Receipt.d_orderNumber := None; Receipt.d_invoiceNumber := None;
       Receipt.d_poNumber := None;
       Receipt.d_jobName := None; Receipt.d_qboCustomerId := None;
       Receipt.d_qboProjectId := None;
       Receipt.d_lineItems := None;
       Receipt.d_categoryName :=
         Some (default "Materials & Supplies"
                 (Receipt.str_or_null (Vendors.category <$> vendor mail)));
       Receipt.d_qboAccountId := None;
       Receipt.d_isBillable := None; Receipt.d_isTaxable := None;
       Receipt.d_confidence := None |}.

(** The merge of the parsed data into the receipt: the three
    [Object.assign] calls and the two guarded assignments. *)
Definition mergeParsed (parsed : Parsed) (r : Receipt.t) : Receipt.t :=
  let r :=
    set_transaction
      {| Receipt.date := Parsers.date parsed;
         Receipt.total := Parsers.total parsed;
         Receipt.subtotal := Parsers.subtotal parsed;
         Receipt.tax := Parsers.tax parsed;
         Receipt.shipping := Receipt.shipping (Receipt.transaction r);
         Receipt.discount := Receipt.discount (Receipt.transaction r) |} r in
  let r :=
    set_payment
      {| Receipt.method := Parsers.paymentMethod parsed;
         Receipt.cardType := Receipt.cardType (Receipt.payment r);
         Receipt.cardLast4 := Parsers.cardLast4 parsed |} r in
  let r :=
    set_reference
      {| Receipt.orderNumber := Parsers.orderNumber parsed;
         Receipt.invoiceNumber := Parsers.invoiceNumber parsed;
         Receipt.poNumber := Receipt.poNumber (Receipt.reference r) |} r in
  let r :=
    if truthy_ostr (Parsers.jobName parsed)
    then Receipt.set_job
           {| Receipt.jobName := Parsers.jobName parsed;
              Receipt.qboCustomerId := Receipt.qboCustomerId (Receipt.job r);
              Receipt.qboProjectId := Receipt.qboProjectId (Receipt.job r) |} r
    else r in
  set_lineItems (Parsers.lineItems parsed) r.

(** [processEmail(email)]: the receipt or [null], or what the marking of
    the mail threw; with it, the ids the mail service was asked to mark as
    processed. *)
Definition processEmail (W : World) (mail : Mail)
    : Result (option Receipt.t) * list string :=
  let receipt := baseReceipt W mail in
  let '(receipt, parsed) :=
    match attachments mail with
    | _ :: _ => processAttachments W mail (attachments mail) receipt
    | [] => (receipt, None)
    end in
  let '(receipt, parsed) :=
    match parsed with
    | Some p => (receipt, Some p)
    | None => processEmailBody W mail receipt
    end in
  match parsed with
  | None => (Ok None, [])
  | Some p =>
      let receipt := mergeParsed p receipt in
      match markAsProcessed W (mailId mail) with
      | Ok _ => (Ok (Some receipt), [mailId mail])
      | Throw e => (Throw e, [mailId mail])
      end
  end.

(** What [processNewEmails] answers. *)
Record Batch := { processed : nat; receipts : list Receipt.t }.

(** The loop of [processNewEmails] over the fetched mails, each with the
    world as it answers while that mail is processed: the receipts pushed
    and the ids asked to be marked. *)
Fixpoint processAll (emails : list (World * Mail)) : list Receipt.t * list string :=
  match emails with
  | [] => ([], [])
  | (W, mail) :: rest =>
      let '(outcome, marked) := processEmail W mail in
      let '(results, marks) := processAll rest in
      (match outcome with
       | Ok (Some receipt) => receipt :: results
       | Ok None => results
       | Throw _ => results
       end, marked ++ marks)
  end.

(** [processNewEmails()]; [fetched] is what
    [gmailFetcher.fetchUnreadReceipts()] answers or throws. *)
Definition processNewEmails (fetched : Result (list (World * Mail)))
    : Result Batch * list string :=
  match fetched with
  | Throw e => (Throw e, [])
  | Ok emails =>
      let '(results, marks) := processAll emails in
      (Ok {| processed := length emails; receipts := results |}, marks)
  end.

End Processor.

(** ** What the processor reads and what it leaves alone *)

Module ProcessorSpec.
Import JS Parsers Processor.

(** An entry of the router answered [p] on a part of the mail the
    processor gives it: a PDF or image attachment that downloads, the HTML
    body or the text body. *)
Definition answered (W : World) (mail : Mail) (p : Parsed) : Prop :=
  (∃ a data,
      a ∈ attachments mail
      ∧ downloadAttachment W (messageId a) (attachmentId a) = Ok data
      ∧ ((isPdf a = true ∧ parsePdf W data (vendor mail) = Some p)
         ∨ (isImage a = true ∧ parseImage W data (vendor mail) = Some p)))
  ∨ (∃ html, bodyHtml mail = Some html ∧ truthy_str html = true
             ∧ parseHtml W html (vendor mail) = Some p)
  ∨ (∃ text, bodyText mail = Some text ∧ truthy_str text = true
             ∧ parseText W text (vendor mail) = Some p).

(** [r'] is [r] but for the attachments, the notes and the update
    time. *)
Definition same_core (r r' : Receipt.t) : Prop :=
  Receipt.id r' = Receipt.id r
  ∧ Receipt.source r' = Receipt.source r
  ∧ Receipt.vendor r' = Receipt.vendor r
  ∧ Receipt.transaction r' = Receipt.transaction r
  ∧ Receipt.payment r' = Receipt.payment r
  ∧ Receipt.reference r' = Receipt.reference r
  ∧ Receipt.job r' = Receipt.job r
  ∧ Receipt.lineItems r' = Receipt.lineItems r
  ∧ Receipt.qboSync r' = Receipt.qboSync r
  ∧ Receipt.category r' = Receipt.category r
  ∧ Receipt.createdAt (Receipt.metadata r') = Receipt.createdAt (Receipt.metadata r)
  ∧ Receipt.confidence (Receipt.metadata r') = Receipt.confidence (Receipt.metadata r).

End ProcessorSpec.

(** ** Sample mails *)

Module MailSamples.
Import JS Parsers Processor.

(** The invoice of the sample receipt as a PDF attachment. *)
Definition invoicePdf : MailAttachment :=
  {| attachmentId := "att-1"; messageId := "msg-1"; filename := "Invoice.PDF";
     mimeType := "application/octet-stream"; size := Some 20480%Z |}.

(** A mail from Ace Hardware with that attachment and a text body. *)
Definition aceMail : Mail :=
  {| mailId := "msg-1";
     subject := Some "Your Ace Hardware receipt";
     date := Some "Sun, 23 Nov 2025 17:05:00 -0600";
     vendor := Some Vendors.aceHardware;
     attachments := [invoicePdf];
     bodyHtml := None;
     bodyText := Some "Thank you for shopping at Ace Hardware." |}.

(** The same mail with another body. *)
Definition with_body (html text : option string) (mail : Mail) : Mail :=
  {| mailId := mailId mail; subject := subject mail; date := date mail;
     vendor := vendor mail; attachments := attachments mail;
     bodyHtml := html; bodyText := text |}.

(** A world where the attachment downloads and the PDF router answers
    the full sample result, and no other entry answers. *)
Definition pdfWorld : World :=
  {| downloadAttachment := fun _ _ => Ok "%PDF-1.4";
     toBase64 := fun _ => "JVBERi0xLjQ=";
     parsePdf := fun _ _ => Some TextSamples.fullResult;
     parseImage := fun _ _ => None;
     parseHtml := fun _ _ => None;
     parseText := fun _ _ => None;
     markAsProcessed := fun _ => Ok tt;
     freshId := "RLT-MIB2K3-A1B2C3";
     now := "2025-11-24T08:00:00.000Z" |}.

(** The same world while no entry of the router answers. *)
Definition blindWorld : World :=
  {| downloadAttachment := downloadAttachment pdfWorld;
     toBase64 := toBase64 pdfWorld;
     parsePdf := fun _ _ => None;
     parseImage := fun _ _ => None;
     parseHtml := fun _ _ => None;
     parseText := fun _ _ => None;
     markAsProcessed := markAsProcessed pdfWorld;
     freshId := freshId pdfWorld;
     now := now pdfWorld |}.

End MailSamples.

(** ** Replies of the purchase query that the scoring loop cannot read *)

Module RawReply.
Import Qbo.
Local Open Scope Z_scope.

(** The array the purchase request answers may hold [null] among its
    purchases ([None] here).  The loop of [findBestMatch] throws a
    [TypeError] when it reads [txn.TotalAmt] on such an element. *)
Fixpoint loop (r : Receipt.t) (best : option Purchase * Z)
    (transactions : list (option Purchase)) : Result (option Purchase * Z) :=
  match transactions with
  | [] => Ok best
  | None :: _ => Throw "TypeError: Cannot read properties of null (reading 'TotalAmt')"
  | Some txn :: rest => loop r (Matcher.step r best txn) rest
  end.

(** [findBestMatch(transactions, receipt)] on such an array. *)
Definition findBestMatch (transactions : list (option Purchase)) (r : Receipt.t)
    : Result (option Purchase) :=
  match loop r (None, 0) transactions with
  | Ok (bestMatch, bestScore) => Ok (if 80 <=? bestScore then bestMatch else None)
  | Throw e => Throw e
  end.

(** [findMatchingTransaction(receipt)] on what the request answers or
    throws: what is thrown by the request or by the scoring is caught and
    answered by [null]. *)
Definition findMatchingTransaction (reply : Result (list (option Purchase)))
    (r : Receipt.t) : option Purchase :=
  match reply with
  | Ok purchases =>
      match findBestMatch purchases r with
      | Ok found => found
      | Throw _ => None
      end
  | Throw _ => None
  end.

(** The reply of the ledger record, whose purchases are all read. *)
Definition of_ledger (answer : Result (list Purchase)) : Result (list (option Purchase)) :=
  match answer with
  | Ok purchases => Ok (map Some purchases)
  | Throw e => Throw e
  end.

End RawReply.

(** ** The window of the purchase query *)

Module Window.
Import Qbo.

(** The two dates of the query [findMatchingTransaction] makes for a
    receipt. *)
Definition startDate (r : Receipt.t) : string :=
  Dayjs.format (Dayjs.subtract (Dayjs.dayjs (Receipt.date (Receipt.transaction r))) 3).
Definition endDate (r : Receipt.t) : string :=
  Dayjs.format (Dayjs.add (Dayjs.dayjs (Receipt.date (Receipt.transaction r))) 3).

(** The quiet sample ledger when it holds the purchase of the sample
    receipt and answers it for the window of that receipt only. *)
Definition holdsCandidateInWindow : Ledger :=
  {| queryVendor := queryVendor LedgerSamples.quietLedger;
     createVendor := createVendor LedgerSamples.quietLedger;
     queryCustomer := queryCustomer LedgerSamples.quietLedger;
     createCustomer := createCustomer LedgerSamples.quietLedger;
     queryAccount := queryAccount LedgerSamples.quietLedger;
     queryExpenseAccounts := queryExpenseAccounts LedgerSamples.quietLedger;
     queryCreditCardAccounts := queryCreditCardAccounts LedgerSamples.quietLedger;
     queryPurchases := fun from to =>
       if decide (from = "2025-11-20" ∧ to = "2025-11-26")
       then Ok [Samples.exactCandidate] else Ok [];
     postPurchase := postPurchase LedgerSamples.quietLedger |}.

(** The same ledger when the query for that window fails and every other
    query answers the purchase. *)
Definition windowQueryDown : Ledger :=
  {| queryVendor := queryVendor LedgerSamples.quietLedger;
     createVendor := createVendor LedgerSamples.quietLedger;
     queryCustomer := queryCustomer LedgerSamples.quietLedger;
     createCustomer := createCustomer LedgerSamples.quietLedger;
     queryAccount := queryAccount LedgerSamples.quietLedger;
     queryExpenseAccounts := queryExpenseAccounts LedgerSamples.quietLedger;
     queryCreditCardAccounts := queryCreditCardAccounts LedgerSamples.quietLedger;
     queryPurchases := fun from to =>
       if decide (from = "2025-11-20" ∧ to = "2025-11-26")
       then Throw "ThrottleExceeded" else Ok [Samples.exactCandidate];
     postPurchase := postPurchase LedgerSamples.quietLedger |}.

(** The sample receipt with its invoice attached. *)
Definition attachedReceipt : Receipt.t :=
  ReceiptOps.addAttachment "2025-11-24T08:00:00.000Z" Samples.aceReceipt
    {| ReceiptOps.a_type := Some "pdf";
       ReceiptOps.a_filename := Some "invoice.pdf";
       ReceiptOps.a_mimeType := Some "application/pdf";
       ReceiptOps.a_data := Some "JVBERi0xLjQ=";
       ReceiptOps.a_size := Some 20480%Z |}.

End Window.

(** * Properties *)

(** ** The transaction matcher *)

Section MatcherFacts.
Import Qbo Matcher.
Local Open Scope Z_scope.

Lemma amountPoints_range d : 0 ≤ amountPoints d ≤ 100.
Proof. unfold amountPoints. repeat case_match; lia. Qed.

Lemma datePoints_range t r : 0 ≤ datePoints t r ≤ 30.
Proof. unfold datePoints. repeat case_match; lia. Qed.

Lemma cardPoints_range t r : 0 ≤ cardPoints t r ≤ 50.
Proof. unfold cardPoints. repeat case_match; lia. Qed.

Lemma score_range t r : 0 ≤ score t r ≤ 180.
Proof.
  unfold score.
  pose proof (amountPoints_range (amountDiff t r)).
  pose proof (datePoints_range t r).
  pose proof (cardPoints_range t r).
  lia.
Qed.

(** What the loop has in hand after a list of candidates, started with
    [best] at score [s]: either nothing beat [s], or the first candidate of
    the highest score, which is above [s]. *)
Lemma loop_spec r txns : ∀ best s,
  let out := fold_left (step r) txns (best, s) in
  (out = (best, s) ∧ ∀ u, u ∈ txns → score u r ≤ s)
  ∨ (∃ before t after,
        txns = before ++ t :: after
        ∧ out = (Some t, score t r)
        ∧ s < score t r
        ∧ (∀ u, u ∈ before → score u r < score t r)
        ∧ (∀ u, u ∈ after → score u r ≤ score t r)).
Proof.
  induction txns as [|a txns IH]; intros best s; simpl.
  - left. split; [done|]. intros u Hu. by apply elem_of_nil in Hu.
  - change (step r (best, s) a)
      with (if s <? score a r then (Some a, score a r) else (best, s)).
    destruct (s <? score a r) eqn:Hlt.
    + apply Z.ltb_lt in Hlt.
      destruct (IH (Some a) (score a r))
        as [[Heq Hle] | (before & t & after & -> & Hout & Hs & Hb & Ha)].
      * right. exists [], a, txns. split_and!; [done|done|lia| |done].
        intros u Hu. by apply elem_of_nil in Hu.
      * right. exists (a :: before), t, after. split_and!; [done|done|lia| |done].
        intros u Hu. apply elem_of_cons in Hu as [-> | Hu]; [lia | by apply Hb].
    + apply Z.ltb_ge in Hlt.
      destruct (IH best s)
        as [[Heq Hle] | (before & t & after & -> & Hout & Hs & Hb & Ha)].
      * left. split; [done|].
        intros u Hu. apply elem_of_cons in Hu as [-> | Hu]; [lia | by apply Hle].
      * right. exists (a :: before), t, after. split_and!; [done|done|lia| |done].
        intros u Hu. apply elem_of_cons in Hu as [-> | Hu]; [lia | by apply Hb].
Qed.

(** The answer of [findBestMatch]: the first candidate of the highest
    score when that score reaches 80, else [null]. *)
Lemma findBestMatch_spec txns r :
  match findBestMatch txns r with
  | Some t =>
      ∃ before after,
        txns = before ++ t :: after
        ∧ 80 ≤ score t r
        ∧ (∀ u, u ∈ before → score u r < score t r)
        ∧ (∀ u, u ∈ after → score u r ≤ score t r)
  | None => ∀ u, u ∈ txns → score u r < 80
  end.
Proof.
  unfold findBestMatch.
  destruct (loop_spec r txns None 0) as [[Heq Hle] | (before & t & after & Htx & Hout & Hs & Hb & Ha)].
  - rewrite Heq. simpl. intros u Hu. specialize (Hle u Hu). lia.
  - rewrite Hout. destruct (80 <=? score t r) eqn:H80.
    + apply Z.leb_le in H80. exists before, after. done.
    + apply Z.leb_gt in H80. intros u Hu. subst txns.
      apply elem_of_app in Hu as [Hu | Hu].
      * specialize (Hb u Hu). lia.
      * apply elem_of_cons in Hu as [-> | Hu]; [lia|]. specialize (Ha u Hu). lia.
Qed.

Lemma findBestMatch_some_score txns r t :
  findBestMatch txns r = Some t → t ∈ txns ∧ 80 ≤ score t r.
Proof.
  intros H. pose proof (findBestMatch_spec txns r) as Hs. rewrite H in Hs.
  destruct Hs as (before & after & -> & H80 & _). split; [|done].
  apply elem_of_app. right. apply elem_of_cons. by left.
Qed.

Lemma findBestMatch_max txns r t u :
  findBestMatch txns r = Some t → u ∈ txns → score u r ≤ score t r.
Proof.
  intros H Hu. pose proof (findBestMatch_spec txns r) as Hs. rewrite H in Hs.
  destruct Hs as (before & after & -> & H80 & Hb & Ha).
  apply elem_of_app in Hu as [Hu | Hu].
  - specialize (Hb u Hu). lia.
  - apply elem_of_cons in Hu as [-> | Hu]; [lia | by apply Ha].
Qed.

End MatcherFacts.

Section MatcherTheorems.
Import Qbo Matcher.
Local Open Scope Z_scope.

Lemma truthy_str_ne s : truthy_str s = true ↔ s ≠ "".
Proof.
  unfold truthy_str. destruct (String.eqb_spec s ""); simpl; split; try done.
Qed.

Lemma amountPoints_zero d : PrimFloat.eqb d 0%float = true → amountPoints d = 100.
Proof. intros H. unfold amountPoints. by rewrite H. Qed.

Lemma datePoints_same_date t r :
  Some (TxnDate t) = Receipt.date (Receipt.transaction r) → datePoints t r = 30.
Proof. intros H. unfold datePoints. by rewrite decide_True. Qed.

Lemma cardPoints_same_suffix t r last4 number :
  Receipt.cardLast4 (Receipt.payment r) = Some last4 →
  CCNumber t = Some number →
  last4 ≠ "" →
  slice_last 4 number = last4 →
  cardPoints t r = 50.
Proof.
  intros Hc Hn Hne Hs. unfold cardPoints. rewrite Hc, Hn.
  assert (number ≠ "") as Hnn by (intros ->; by apply Hne).
  apply truthy_str_ne in Hne, Hnn. rewrite Hne, Hnn. simpl.
  by rewrite Hs, String.eqb_refl.
Qed.

(** C1 as the program has it.  [findBestMatch] answers the first
    candidate of the highest score when that score is at least 80 and [null]
    otherwise.  A candidate with amount delta 0, the receipt's date and a
    card number ending in the receipt's last four digits scores 180, and a
    list that holds it is answered with a candidate of score 180 (the
    candidate itself when it is alone).  The points add up: a candidate with
    a 2.00 amount delta scores 20 plus its date and card points, which
    reaches 80 exactly when the card matches and the date gives 20 or 30;
    then the candidate alone is the answer, and otherwise it is never the
    answer. *)
Theorem findBestMatch_threshold :
  (∀ txns r,
      match findBestMatch txns r with
      | Some t =>
          ∃ before after,
            txns = before ++ t :: after
            ∧ 80 ≤ score t r
            ∧ (∀ u, u ∈ before → score u r < score t r)
            ∧ (∀ u, u ∈ after → score u r ≤ score t r)
      | None => ∀ u, u ∈ txns → score u r < 80
      end)
  ∧ (∀ t r last4 number,
        PrimFloat.eqb (amountDiff t r) 0%float = true →
        Some (TxnDate t) = Receipt.date (Receipt.transaction r) →
        Receipt.cardLast4 (Receipt.payment r) = Some last4 →
        CCNumber t = Some number →
        last4 ≠ "" →
        slice_last 4 number = last4 →
        score t r = 180
        ∧ findBestMatch [t] r = Some t
        ∧ ∀ txns, t ∈ txns → ∃ t', findBestMatch txns r = Some t' ∧ score t' r = 180)
  ∧ (∀ t r,
        amountDiff t r = 2%float →
        score t r = 20 + datePoints t r + cardPoints t r
        ∧ (80 ≤ score t r ↔ cardPoints t r = 50 ∧ 20 ≤ datePoints t r)
        ∧ (80 ≤ score t r → findBestMatch [t] r = Some t)
        ∧ (score t r < 80 → ∀ txns, findBestMatch txns r ≠ Some t)).
Proof.
  split; [exact findBestMatch_spec|]. split.
  - intros t r last4 number Ha Hd Hc Hn Hne Hs.
    assert (score t r = 180) as H180.
    { unfold score.
      rewrite (amountPoints_zero _ Ha), (datePoints_same_date _ _ Hd),
        (cardPoints_same_suffix _ _ _ _ Hc Hn Hne Hs). done. }
    assert (∀ txns, t ∈ txns → ∃ t', findBestMatch txns r = Some t' ∧ score t' r = 180)
      as Hall.
    { intros txns Hin.
      pose proof (findBestMatch_spec txns r) as Hspec.
      destruct (findBestMatch txns r) as [t'|] eqn:Hf.
      - exists t'. split; [done|].
        pose proof (findBestMatch_max _ _ _ _ Hf Hin).
        pose proof (score_range t' r). lia.
      - specialize (Hspec t Hin). lia. }
    split_and!; [done| |done].
    destruct (Hall [t]) as (t' & Hf & _); [apply list_elem_of_singleton; done|].
    apply findBestMatch_some_score in Hf as Hin. destruct Hin as [Hin _].
    apply list_elem_of_singleton in Hin. by subst t'.
  - intros t r Ha.
    assert (score t r = 20 + datePoints t r + cardPoints t r) as H20.
    { unfold score. rewrite Ha. reflexivity. }
    assert (datePoints t r = 0 ∨ datePoints t r = 20 ∨ datePoints t r = 30) as Hd.
    { unfold datePoints. repeat case_match; auto. }
    assert (cardPoints t r = 0 ∨ cardPoints t r = 50) as Hc.
    { unfold cardPoints. repeat case_match; auto. }
    split_and!; [done | lia | |].
    + intros H80. unfold findBestMatch. simpl. unfold step. simpl.
      destruct (0 <? score t r) eqn:H0; [|apply Z.ltb_ge in H0; lia].
      destruct (80 <=? score t r) eqn:H8; [done | apply Z.leb_gt in H8; lia].
    + intros Hlt txns Hf. apply findBestMatch_some_score in Hf as [_ H80]. lia.
Qed.

(** The particular cases of the amended C1 on the sample receipt: the
    exact candidate, and the two candidates two dollars off, one three days
    later with no card, one on the receipt's day and card. *)
Lemma findBestMatch_threshold_witness :
  (score Samples.exactCandidate Samples.aceReceipt = 180
   ∧ findBestMatch [Samples.exactCandidate] Samples.aceReceipt = Some Samples.exactCandidate)
  ∧ (score Samples.twoDollarCandidate Samples.aceReceipt
     = 20 + datePoints Samples.twoDollarCandidate Samples.aceReceipt
         + cardPoints Samples.twoDollarCandidate Samples.aceReceipt
     ∧ ∀ txns, findBestMatch txns Samples.aceReceipt ≠ Some Samples.twoDollarCandidate)
  ∧ findBestMatch [Samples.twoDollarSameDayCard] Samples.aceReceipt
    = Some Samples.twoDollarSameDayCard.
Proof.
  destruct findBestMatch_threshold as (_ & H180 & H20). split; [|split].
  - destruct (H180 Samples.exactCandidate Samples.aceReceipt "1234" "XXXXXXXXXXXX1234")
      as (Hs & Hf & _); try reflexivity; [discriminate|]. split; assumption.
  - destruct (H20 Samples.twoDollarCandidate Samples.aceReceipt eq_refl)
      as (Hs & _ & _ & Hrej). split; [assumption|]. apply Hrej. reflexivity.
  - destruct (H20 Samples.twoDollarSameDayCard Samples.aceReceipt eq_refl)
      as (_ & _ & Hacc & _). apply Hacc. vm_compute. discriminate.
Defined.

(** C1 fails on the program.  A 2.00 amount delta does not by itself
    exclude a candidate, whatever its date and card: the points add up, and
    with the receipt's date and card the candidate scores 100 and is the
    answer. *)
Lemma two_dollar_delta_with_date_and_card :
  amountDiff Samples.twoDollarSameDayCard Samples.aceReceipt = 2%float
  ∧ score Samples.twoDollarSameDayCard Samples.aceReceipt = 100
  ∧ findBestMatch [Samples.twoDollarSameDayCard] Samples.aceReceipt
    = Some Samples.twoDollarSameDayCard.
Proof. split_and!; reflexivity. Qed.

(** The date points are 20 exactly when the dates differ as strings and
    the candidate's day is at most one day after the receipt's, however
    long before it. *)
Lemma datePoints_twenty t r :
  datePoints t r = 20
  ↔ Some (TxnDate t) ≠ Receipt.date (Receipt.transaction r)
    ∧ ∃ d, dateDiff t r = Some d ∧ d ≤ 1.
Proof.
  unfold datePoints. destruct (decide _) as [He|Hne].
  - split; [discriminate|]. intros [H _]. done.
  - destruct (dateDiff t r) as [d|].
    + destruct (d <=? 1) eqn:Hd.
      * apply Z.leb_le in Hd. split; [|done]. intros _. split; [done|]. by exists d.
      * apply Z.leb_gt in Hd. split; [discriminate|].
        intros (_ & d' & [= <-] & Hle). lia.
    + split; [discriminate|]. intros (_ & d' & [=] & _).
Qed.

(** C2, at the input where the program departs from it.  The candidate is
    dated 2025-11-20 and the receipt 2025-11-23: the dates are unequal and
    three days apart, and the date component is 20, where C2 gives 0.
    A candidate dated three days after the receipt gets 0. *)
Theorem datePoints_three_days_before :
  dateDiff Samples.earlierCandidate Samples.aceReceipt = Some (-3)
  ∧ datePoints Samples.earlierCandidate Samples.aceReceipt = 20
  ∧ dateDiff Samples.laterCandidate Samples.aceReceipt = Some 3
  ∧ datePoints Samples.laterCandidate Samples.aceReceipt = 0.
Proof. split_and!; reflexivity. Qed.

End MatcherTheorems.

(** ** Amounts *)

Section AmountTheorems.
Import Qbo Matcher Helpers.
Local Open Scope Z_scope.





End AmountTheorems.

(** ** The confidence label of the generic parser *)

Section ConfidenceTheorems.
Import Parsers Parsers.GenericParser ConfidenceSpec.
Local Open Scope Z_scope.

Lemma confidenceScore_points r :
  confidenceScore r = points (hasTotal r) (hasDate r) (hasReference r) (hasCard r) (hasItem r).
Proof.
  unfold confidenceScore, points, hasTotal, hasDate, hasReference, hasCard, hasItem.
  destruct (lineItems r); reflexivity.
Qed.

Lemma points_monotone a b c d e a' b' c' d' e' :
  (a = true → a' = true) → (b = true → b' = true) → (c = true → c' = true) →
  (d = true → d' = true) → (e = true → e' = true) →
  points a b c d e ≤ points a' b' c' d' e'.
Proof.
  unfold points. intros Ha Hb Hc Hd He.
  destruct a, b, c, d, e, a', b', c', d', e'; simpl;
    try lia; exfalso;
    first [ by discriminate Ha | by discriminate Hb | by discriminate Hc
          | by discriminate Hd | by discriminate He ].
Qed.

Lemma label_monotone p q : p ≤ q → rank (label p) ≤ rank (label q).
Proof.
  unfold label. intros H.
  destruct (5 <=? p) eqn:Hp5, (3 <=? p) eqn:Hp3, (5 <=? q) eqn:Hq5, (3 <=? q) eqn:Hq3;
    simpl; lia.
Qed.

(** C6.  The label of [calculateConfidence] is the one the point scheme
    gives: 2 for a total, 2 for a date, 1 for an order or invoice number, 1
    for a card suffix, 1 for a line item; high from 5, medium from 3, low
    below.  A result that has every counted field of another has a label at
    least as high; in particular whatever is added to the empty result, the
    label does not go below that of the empty result. *)
Theorem calculateConfidence_point_scheme :
  (∀ r, calculateConfidence r
        = label (points (hasTotal r) (hasDate r) (hasReference r) (hasCard r) (hasItem r)))
  ∧ (∀ r r', extends r r' → rank (calculateConfidence r) ≤ rank (calculateConfidence r'))
  ∧ (∀ r', rank (calculateConfidence emptyResult) ≤ rank (calculateConfidence r')).
Proof.
  assert (∀ r, calculateConfidence r
               = label (points (hasTotal r) (hasDate r) (hasReference r) (hasCard r) (hasItem r)))
    as Hscheme.
  { intros r. unfold calculateConfidence, label. by rewrite confidenceScore_points. }
  assert (∀ r r', extends r r' → rank (calculateConfidence r) ≤ rank (calculateConfidence r'))
    as Hmono.
  { intros r r' (Ha & Hb & Hc & Hd & He). rewrite !Hscheme.
    apply label_monotone. by apply points_monotone. }
  split_and!; [done|done|].
  intros r'. apply Hmono. unfold extends. split_and!; discriminate.
Qed.

End ConfidenceTheorems.

(** The labels of the three sample results, and the order between the
    first two, from C6. *)
Lemma calculateConfidence_point_scheme_witness :
  Parsers.GenericParser.calculateConfidence TextSamples.totalOnlyResult = Parsers.low
  ∧ Parsers.GenericParser.calculateConfidence TextSamples.totalAndDateResult = Parsers.medium
  ∧ Parsers.GenericParser.calculateConfidence TextSamples.fullResult = Parsers.high
  ∧ (ConfidenceSpec.rank (Parsers.GenericParser.calculateConfidence TextSamples.totalOnlyResult)
     ≤ ConfidenceSpec.rank (Parsers.GenericParser.calculateConfidence TextSamples.totalAndDateResult))%Z.
Proof.
  destruct calculateConfidence_point_scheme as (Hscheme & Hmono & _).
  split_and!.
  - rewrite Hscheme. reflexivity.
  - rewrite Hscheme. reflexivity.
  - rewrite Hscheme. reflexivity.
  - apply Hmono. unfold ConfidenceSpec.extends. split_and!; vm_compute; congruence.
Defined.

(** ** The null rule of the parsers *)

Section ParserTheorems.
Import Text Parsers.

Lemma has_items_length (l : list Receipt.LineItem) :
  bool_decide (0 < length l)%nat = false ↔ l = [].
Proof.
  destruct l; simpl; split; done.
Qed.

Lemma alpha_label (a b c d : bool) :
  let l := if a && b && (c || d) then high else if a && b then medium else low in
  (l = high ↔ a = true ∧ b = true ∧ (c = true ∨ d = true))
  ∧ (l = low ↔ ¬ (a = true ∧ b = true)).
Proof. destruct a, b, c, d; simpl; intuition congruence. Qed.

(** C3 fails on the generic parser: on a text with a total and no date it
    extracts the total and answers [null], and so it does with the Ace
    Hardware profile as hints; the Alpha Supply parser answers the partial
    result for the same text, with the label low. *)
Lemma generic_parser_drops_total_without_date :
  total (GenericParser.extract TextSamples.totalOnlyEnv TextSamples.totalOnlyText None)
    = Some 50%float
  ∧ JS.truthy_onum
      (total (GenericParser.extract TextSamples.totalOnlyEnv TextSamples.totalOnlyText None))
    = true
  ∧ GenericParser.parse TextSamples.totalOnlyEnv TextSamples.totalOnlyText "text" None = None
  ∧ GenericParser.parse TextSamples.totalOnlyEnv TextSamples.totalOnlyText "text"
      (Some Vendors.aceHardware) = None
  ∧ AlphaSupplyParser.parse TextSamples.totalOnlyEnv TextSamples.totalOnlyText "text"
    = Some TextSamples.totalOnlyResult.
Proof. split_and!; reflexivity. Qed.

(** C3 as the program has it.  The Alpha Supply parser answers [null]
    exactly when it extracted no total and no line item, and otherwise the
    result as extracted, whose label is high with total, date and an invoice
    or purchase order number, medium with total and date, low otherwise.
    The generic parser answers the extracted result exactly when it has both
    a total and a date, and [null] otherwise, whatever else it extracted. *)
Theorem parser_null_rule :
  (∀ T text sourceType,
      (AlphaSupplyParser.parse T text sourceType = None
       ↔ JS.truthy_onum (total (AlphaSupplyParser.extract T text)) = false
         ∧ lineItems (AlphaSupplyParser.extract T text) = [])
      ∧ (∀ result, AlphaSupplyParser.parse T text sourceType = Some result →
           result = AlphaSupplyParser.extract T text
           ∧ (confidence result = high
              ↔ JS.truthy_onum (total result) = true ∧ JS.truthy_ostr (date result) = true
                ∧ (JS.truthy_ostr (invoiceNumber result) = true
                   ∨ JS.truthy_ostr (poNumber result) = true))
           ∧ (confidence result = low
              ↔ ¬ (JS.truthy_onum (total result) = true
                   ∧ JS.truthy_ostr (date result) = true))))
  ∧ (∀ T text sourceType vendor,
        (GenericParser.parse T text sourceType vendor = None
         ↔ ¬ (JS.truthy_onum (total (GenericParser.extract T text vendor)) = true
              ∧ JS.truthy_ostr (date (GenericParser.extract T text vendor)) = true))
        ∧ (∀ result, GenericParser.parse T text sourceType vendor = Some result →
             result = GenericParser.extract T text vendor
             ∧ confidence result = GenericParser.calculateConfidence result)).
Proof.
  split.
  - intros T text sourceType. split.
    + unfold AlphaSupplyParser.parse.
      destruct (JS.truthy_onum (total (AlphaSupplyParser.extract T text))); simpl.
      * split; [discriminate | intros [? _]; discriminate].
      * destruct (bool_decide _) eqn:Hb.
        -- split; [discriminate|]. intros [_ Hl]. apply has_items_length in Hl. congruence.
        -- apply has_items_length in Hb. split; done.
    + intros result H. unfold AlphaSupplyParser.parse in H.
      destruct (_ || _); [|discriminate]. injection H as <-.
      split; [done|]. unfold AlphaSupplyParser.extract; simpl.
      apply alpha_label.
  - intros T text sourceType vendor. split.
    + unfold GenericParser.parse.
      destruct (JS.truthy_onum (total (GenericParser.extract T text vendor))),
        (JS.truthy_ostr (date (GenericParser.extract T text vendor))); simpl;
        intuition congruence.
    + intros result H. unfold GenericParser.parse in H.
      destruct (_ && _); [|discriminate]. injection H as <-. split; [done|].
      unfold GenericParser.extract. simpl.
      unfold GenericParser.calculateConfidence, GenericParser.confidenceScore. simpl.
      reflexivity.
Qed.

(** The amended C3 on the sample text: the Alpha Supply parser answers
    its extraction, the generic parser [null]. *)
Lemma parser_null_rule_witness :
  TextSamples.totalOnlyResult
    = AlphaSupplyParser.extract TextSamples.totalOnlyEnv TextSamples.totalOnlyText
  ∧ GenericParser.parse TextSamples.totalOnlyEnv TextSamples.totalOnlyText "text" None = None.
Proof.
  destruct parser_null_rule as (Halpha & Hgeneric). split.
  - destruct (Halpha TextSamples.totalOnlyEnv TextSamples.totalOnlyText "text") as (_ & Hres).
    apply (Hres TextSamples.totalOnlyResult). reflexivity.
  - destruct (Hgeneric TextSamples.totalOnlyEnv TextSamples.totalOnlyText "text" None)
      as (Hnull & _).
    apply Hnull. vm_compute. intros [_ H]. discriminate H.
Defined.

End ParserTheorems.

(** ** The router *)

Section RouterTheorems.
Import Text Parsers.

Context (homeDepot lowes amazon ced readLighting : Parser).

Abbreviation registry := (vendorParsers homeDepot lowes amazon ced readLighting).
Abbreviation route := (parseText homeDepot lowes amazon ced readLighting).

Lemma registry_generic : registry !! "generic" = Some generic.
Proof. reflexivity. Qed.

(** The keys of the registry, and the one profile of the table that has
    none. *)
Lemma registry_keys (k : string) :
  is_Some (registry !! k)
  ↔ k ∈ ["generic"; "home-depot"; "lowes"; "amazon"; "ced"; "alpha-supply"; "read-lighting"].
Proof.
  unfold vendorParsers.
  rewrite <- elem_of_dom, dom_list_to_map_L, elem_of_list_to_set. reflexivity.
Qed.

Lemma profiles_without_parser :
  filter (fun v => registry !! Vendors.vendorId v = None) Vendors.vendors
  = [Vendors.aceHardware].
Proof. reflexivity. Qed.

(** C7.  For a vendor whose [vendorId] is no key of the registry, and for
    no vendor at all, [parseText] answers what the generic parser answers on
    the same text with the same vendor as its third argument. *)
Theorem parseText_falls_through_to_generic T text vendor :
  registry !! Vendors.vendorId vendor = None →
  route T text (Some vendor) = GenericParser.parse T text "text" (Some vendor)
  ∧ route T text None = GenericParser.parse T text "text" None.
Proof.
  intros Hnone. unfold parseText. simpl. rewrite Hnone. simpl.
  rewrite registry_generic. simpl. done.
Qed.

End RouterTheorems.

(** C7 on the Ace Hardware profile, the one profile without a parser of
    its own.  The lookup under [ace-hardware] does not read the five parsers
    left open, which the Alpha Supply parser stands for here. *)
Lemma parseText_falls_through_to_generic_witness :
  Parsers.parseText Parsers.alphaSupply Parsers.alphaSupply Parsers.alphaSupply
      Parsers.alphaSupply Parsers.alphaSupply
      TextSamples.totalOnlyEnv TextSamples.totalOnlyText (Some Vendors.aceHardware)
  = Parsers.GenericParser.parse TextSamples.totalOnlyEnv TextSamples.totalOnlyText "text"
      (Some Vendors.aceHardware)
  ∧ Parsers.parseText Parsers.alphaSupply Parsers.alphaSupply Parsers.alphaSupply
        Parsers.alphaSupply Parsers.alphaSupply
        TextSamples.totalOnlyEnv TextSamples.totalOnlyText None
    = Parsers.GenericParser.parse TextSamples.totalOnlyEnv TextSamples.totalOnlyText "text" None.
Proof.
  apply (parseText_falls_through_to_generic Parsers.alphaSupply Parsers.alphaSupply
           Parsers.alphaSupply Parsers.alphaSupply Parsers.alphaSupply).
  reflexivity.
Defined.

(** ** The sync of one receipt *)

Section SyncFacts.
Import Qbo Lifecycle.

Lemma updateSyncStatus_status now r st details :
  statusOf (Receipt.updateSyncStatus now r st details) = st.
Proof. reflexivity. Qed.

Lemma updateSyncStatus_error now r st details :
  Receipt.syncError (Receipt.qboSync (Receipt.updateSyncStatus now r st details))
  = match details with
    | Receipt.ErrorMessage m => Some m
    | _ => Receipt.syncError (Receipt.qboSync r)
    end.
Proof. reflexivity. Qed.

Lemma addProcessingNote_qboSync now r note :
  Receipt.qboSync (Receipt.addProcessingNote now r note) = Receipt.qboSync r.
Proof. reflexivity. Qed.

Lemma uploadAttachment_qboSync now r :
  Receipt.qboSync (Uploader.uploadAttachment now r) = Receipt.qboSync r.
Proof. unfold Uploader.uploadAttachment. repeat case_match; reflexivity. Qed.

(** The receipt as the three lookups of [syncReceipt] leave it, with the
    caches: the part of [syncReceipt] before the match. *)
Lemma syncReceipt_shape L now c r :
  ∃ c' r0,
    Receipt.qboSync r0 = Receipt.qboSync r
    ∧ Uploader.syncReceipt L now c r =
        match
          match Matcher.findMatchingTransaction L r0 with
          | Some matchingTxn =>
              match Uploader.updateTransaction L r0 matchingTxn with
              | Ok _ =>
                  Ok (Receipt.addProcessingNote now
                        (Receipt.updateSyncStatus now r0 Receipt.matched
                           (Receipt.TransactionId (purchaseId matchingTxn)))
                        ("Matched to existing transaction #" +:+ purchaseId matchingTxn))
              | Throw e => Throw e
              end
          | None =>
              match Uploader.createExpense L r0 with
              | Ok expense =>
                  Ok (Receipt.addProcessingNote now
                        (Receipt.updateSyncStatus now r0 Receipt.synced
                           (Receipt.ExpenseId (purchaseId expense)))
                        ("Created new expense #" +:+ purchaseId expense))
              | Throw e => Throw e
              end
          end
        with
        | Ok r1 =>
            (c', match Receipt.attachments r1 with
                 | _ :: _ => Uploader.uploadAttachment now r1
                 | [] => r1
                 end, Ok tt)
        | Throw e =>
            (c', Receipt.updateSyncStatus now r0 Receipt.error (Receipt.ErrorMessage e),
             Throw e)
        end.
Proof.
  unfold Uploader.syncReceipt.
  destruct (Matcher.findOrCreateVendor L c _) as [vendor c1].
  set (r1 := match vendor with Some _ => _ | None => r end).
  assert (Receipt.qboSync r1 = Receipt.qboSync r) as H1 by (subst r1; by destruct vendor).
  assert (Receipt.job r1 = Receipt.job r) as Hj by (subst r1; by destruct vendor).
  assert (Receipt.category r1 = Receipt.category r) as Hk by (subst r1; by destruct vendor).
  clearbody r1.
  destruct (if truthy_ostr _ then _ else _) as [r2 c2] eqn:H2.
  assert (Receipt.qboSync r2 = Receipt.qboSync r ∧ Receipt.category r2 = Receipt.category r)
    as [H2q H2k].
  { destruct (truthy_ostr _); [|injection H2 as <- <-; done].
    destruct (Matcher.findCustomer L c1 _) as [customer c2'].
    destruct customer; injection H2 as <- <-; done. }
  clear H2.
  destruct (Matcher.findAccount L c2 _) as [account c3].
  set (r3 := match account with Some _ => _ | None => r2 end).
  assert (Receipt.qboSync r3 = Receipt.qboSync r) as H3 by (subst r3; by destruct account).
  clearbody r3.
  exists c3, r3. split; [done|]. reflexivity.
Qed.

(** A sync returns with the status matched or synced and the recorded
    error untouched, or re-throws what a post to the ledger threw, with the
    status error and that message recorded. *)
Lemma syncReceipt_outcome L now c r :
  let res := Uploader.syncReceipt L now c r in
  (res.2 = Ok tt
   ∧ (statusOf res.1.2 = Receipt.matched ∨ statusOf res.1.2 = Receipt.synced)
   ∧ Receipt.syncError (Receipt.qboSync res.1.2) = Receipt.syncError (Receipt.qboSync r))
  ∨ (∃ e w,
        postPurchase L w = Throw e
        ∧ res.2 = Throw e
        ∧ statusOf res.1.2 = Receipt.error
        ∧ Receipt.syncError (Receipt.qboSync res.1.2) = Some e).
Proof.
  destruct (syncReceipt_shape L now c r) as (c' & r0 & Hq & ->).
  unfold Uploader.updateTransaction, Uploader.createExpense, statusOf.
  destruct (Matcher.findMatchingTransaction L r0) as [txn|].
  - destruct (postPurchase L (UpdatedPurchase r0 txn)) as [p|e] eqn:Hp; simpl.
    + left. split_and!; [done| |].
      * left. by destruct (Receipt.attachments _); rewrite ?uploadAttachment_qboSync.
      * rewrite <- Hq. by destruct (Receipt.attachments _); rewrite ?uploadAttachment_qboSync.
    + right. exists e, (UpdatedPurchase r0 txn). done.
  - destruct (postPurchase L (NewExpense r0 _)) as [p|e] eqn:Hp; simpl.
    + left. split_and!; [done| |].
      * right. by destruct (Receipt.attachments _); rewrite ?uploadAttachment_qboSync.
      * rewrite <- Hq. by destruct (Receipt.attachments _); rewrite ?uploadAttachment_qboSync.
    + right. exists e, (NewExpense r0 (Matcher.findCreditCardAccount L)). done.
Qed.

Lemma syncReceipt_not_pending L now c r :
  statusOf (Uploader.syncReceipt L now c r).1.2 ≠ Receipt.pending.
Proof.
  destruct (syncReceipt_outcome L now c r) as [(_ & [H|H] & _) | (e & w & _ & _ & H & _)];
    rewrite H; discriminate.
Qed.

End SyncFacts.

Section SyncTheorems.
Import Qbo Lifecycle.

(** C4 fails on the program.  The sample receipt is created pending and a
    first sync leaves it synced.  A second sync, against a ledger that now
    holds that purchase, leaves it matched; against a ledger that refuses
    the post, it leaves it in error: a terminal status has changed to
    another.  And a status update to pending is carried out as asked. *)
Lemma status_can_change_after_sync :
  statusOf Samples.aceReceipt = Receipt.pending
  ∧ statusOf LedgerSamples.firstSync.2 = Receipt.synced
  ∧ statusOf (Uploader.syncReceipt LedgerSamples.holdsExactCandidate LedgerSamples.clock
                LedgerSamples.firstSync.1 LedgerSamples.firstSync.2).1.2 = Receipt.matched
  ∧ statusOf (Uploader.syncReceipt LedgerSamples.writesRefused LedgerSamples.clock
                LedgerSamples.firstSync.1 LedgerSamples.firstSync.2).1.2 = Receipt.error
  ∧ statusOf (Receipt.updateSyncStatus LedgerSamples.clock LedgerSamples.firstSync.2
                Receipt.pending Receipt.NoDetails) = Receipt.pending.
Proof. split_and!; reflexivity. Qed.

Lemma note_keeps_status now r note :
  statusOf (Receipt.addProcessingNote now r note) = statusOf r.
Proof. reflexivity. Qed.

Lemma apply_not_pending st op :
  statusOf st.2 ≠ Receipt.pending → statusOf (apply st op).2 ≠ Receipt.pending.
Proof.
  intros H. destruct op as [L now | now note]; simpl.
  - apply syncReceipt_not_pending.
  - by rewrite note_keeps_status.
Qed.

(** C4 as the program has it.  A receipt is created pending.  A sync
    leaves the status matched, synced or error, whatever it was, and a note
    leaves it as it was: over syncs and notes, a status that has left
    pending does not come back to it.  [updateSyncStatus] itself sets the
    status it is given, whatever the status was. *)
Theorem sync_status_progression :
  (∀ freshId now data, statusOf (Receipt.createReceipt freshId now data) = Receipt.pending)
  ∧ (∀ L now c r,
        statusOf (Uploader.syncReceipt L now c r).1.2 = Receipt.matched
        ∨ statusOf (Uploader.syncReceipt L now c r).1.2 = Receipt.synced
        ∨ statusOf (Uploader.syncReceipt L now c r).1.2 = Receipt.error)
  ∧ (∀ now r note, statusOf (Receipt.addProcessingNote now r note) = statusOf r)
  ∧ (∀ ops st, statusOf st.2 ≠ Receipt.pending → statusOf (run ops st).2 ≠ Receipt.pending)
  ∧ (∀ now r st details, statusOf (Receipt.updateSyncStatus now r st details) = st).
Proof.
  split_and!.
  - reflexivity.
  - intros L now c r.
    destruct (syncReceipt_outcome L now c r) as [(_ & [H|H] & _) | (e & w & _ & _ & H & _)];
      rewrite H; auto.
  - exact note_keeps_status.
  - intros ops. unfold run. induction ops as [|op ops IH]; intros st H; simpl; [done|].
    apply IH. by apply apply_not_pending.
  - exact updateSyncStatus_status.
Qed.

(** The amended C4 on the sample receipt: after a first sync, a second
    sync against a ledger that refuses the post and a note leave a status
    that is not pending. *)
Lemma sync_status_progression_witness :
  statusOf
    (run [Sync LedgerSamples.writesRefused LedgerSamples.clock;
          Note LedgerSamples.clock "Retried by hand"]
       LedgerSamples.firstSync).2
  ≠ Receipt.pending.
Proof.
  destruct sync_status_progression as (_ & _ & _ & Hrun & _).
  apply Hrun. vm_compute. discriminate.
Defined.

(** C5 fails on the program.  While every vendor, customer and account
    call of the ledger throws, the three lookups answer [null] and the sync
    of the sample receipt returns: the status is synced, no error is
    recorded, and the three ledger identifiers stay unset. *)
Lemma failed_lookups_do_not_fail_the_sync :
  Matcher.findOrCreateVendor LedgerSamples.lookupsDown Matcher.constructor
      (Some "Ace Hardware") = (None, Matcher.constructor)
  ∧ Matcher.findCustomer LedgerSamples.lookupsDown Matcher.constructor
      (Some "Smith Kitchen") = (None, Matcher.constructor)
  ∧ Matcher.findAccount LedgerSamples.lookupsDown Matcher.constructor
      "Materials & Supplies" = (None, Matcher.constructor)
  ∧ LedgerSamples.syncWhileLookupsDown.2 = Ok tt
  ∧ statusOf LedgerSamples.syncWhileLookupsDown.1.2 = Receipt.synced
  ∧ Receipt.syncError (Receipt.qboSync LedgerSamples.syncWhileLookupsDown.1.2) = None
  ∧ Receipt.qboVendorId (Receipt.vendor LedgerSamples.syncWhileLookupsDown.1.2) = None
  ∧ Receipt.qboCustomerId (Receipt.job LedgerSamples.syncWhileLookupsDown.1.2) = None
  ∧ Receipt.qboAccountId (Receipt.category LedgerSamples.syncWhileLookupsDown.1.2) = None.
Proof. split_and!; reflexivity. Qed.

(** C5 as the program has it.  A vendor, customer or account call that
    throws is caught in the lookup, which answers [null] and leaves the
    caches as they were; the sync goes on.  The sync re-throws only what a
    post to the ledger threw, and then the status is error and the message
    is recorded; otherwise it returns, with the status matched or synced and
    the recorded error untouched. *)
Theorem lookup_failures_are_swallowed :
  (∀ L c name e,
      Matcher.vendorCache c !! name = None →
      queryVendor L name = Throw e ∨ (queryVendor L name = Ok [] ∧ createVendor L name = Throw e) →
      Matcher.findOrCreateVendor L c name = (None, c))
  ∧ (∀ L c name e,
        Matcher.customerCache c !! name = None →
        queryCustomer L name = Throw e
        ∨ (queryCustomer L name = Ok [] ∧ createCustomer L name = Throw e) →
        Matcher.findOrCreateCustomer L c (Some name) = (None, c))
  ∧ (∀ L c name e,
        truthy_str name = true →
        Matcher.accountCache c !! name = None →
        queryAccount L name = Throw e
        ∨ (queryAccount L name = Ok [] ∧ queryExpenseAccounts L = Throw e) →
        Matcher.findAccount L c name = (None, c))
  ∧ (∀ L now c r,
        let res := Uploader.syncReceipt L now c r in
        (res.2 = Ok tt
         ∧ (statusOf res.1.2 = Receipt.matched ∨ statusOf res.1.2 = Receipt.synced)
         ∧ Receipt.syncError (Receipt.qboSync res.1.2)
           = Receipt.syncError (Receipt.qboSync r))
        ∨ (∃ e w,
              postPurchase L w = Throw e
              ∧ res.2 = Throw e
              ∧ statusOf res.1.2 = Receipt.error
              ∧ Receipt.syncError (Receipt.qboSync res.1.2) = Some e)).
Proof.
  split_and!.
  - intros L c name e Hc [Hq | [Hq Hn]]; unfold Matcher.findOrCreateVendor;
      rewrite Hc, Hq; [done|]. by rewrite Hn.
  - intros L c name e Hc [Hq | [Hq Hn]]; unfold Matcher.findOrCreateCustomer;
      destruct (truthy_str name); try done; rewrite Hc, Hq; [done|]. by rewrite Hn.
  - intros L c name e Ht Hc [Hq | [Hq Hn]]; unfold Matcher.findAccount;
      rewrite Ht, Hc, Hq; [done|]. by rewrite Hn.
  - exact syncReceipt_outcome.
Qed.

(** The amended C5 on the ledger whose lookups are down. *)
Lemma lookup_failures_are_swallowed_witness :
  Matcher.findOrCreateVendor LedgerSamples.lookupsDown Matcher.constructor
    (Some "Ace Hardware") = (None, Matcher.constructor)
  ∧ Matcher.findOrCreateCustomer LedgerSamples.lookupsDown Matcher.constructor
      (Some "Smith Kitchen") = (None, Matcher.constructor)
  ∧ Matcher.findAccount LedgerSamples.lookupsDown Matcher.constructor
      "Materials & Supplies" = (None, Matcher.constructor).
Proof.
  destruct lookup_failures_are_swallowed as (Hv & Hc & Ha & _). split_and!.
  - apply (Hv _ _ _ "AuthenticationFailed"); [reflexivity | left; reflexivity].
  - apply (Hc _ _ _ "AuthenticationFailed"); [reflexivity | left; reflexivity].
  - apply (Ha _ _ _ "AuthenticationFailed"); [reflexivity | reflexivity | left; reflexivity].
Defined.

End SyncTheorems.

(** ** The caches across cycles *)

Section CacheTheorems.
Import Qbo Lifecycle.

Lemma keeps_refl c : keeps c c.
Proof. unfold keeps. done. Qed.

Lemma keeps_trans c1 c2 c3 : keeps c1 c2 → keeps c2 c3 → keeps c1 c3.
Proof.
  unfold keeps. intros (H1 & H2 & H3) (H4 & H5 & H6).
  split_and!; etrans; eauto.
Qed.

Lemma findOrCreateVendor_keeps L c name :
  keeps c (Matcher.findOrCreateVendor L c name).2.
Proof.
  unfold Matcher.findOrCreateVendor.
  destruct (Matcher.vendorCache c !! name) eqn:Hc; [apply keeps_refl|].
  repeat case_match; simpl; try apply keeps_refl;
    (split_and!; simpl; [by apply insert_subseteq | done | done]).
Qed.

Lemma findOrCreateCustomer_keeps L c name :
  keeps c (Matcher.findOrCreateCustomer L c name).2.
Proof.
  unfold Matcher.findOrCreateCustomer.
  destruct name as [name|]; [|apply keeps_refl].
  destruct (truthy_str name); [|apply keeps_refl].
  destruct (Matcher.customerCache c !! name) eqn:Hc; [apply keeps_refl|].
  repeat case_match; simpl; try apply keeps_refl;
    (split_and!; simpl; [done | by apply insert_subseteq | done]).
Qed.

Lemma findAccount_keeps L c name :
  keeps c (Matcher.findAccount L c name).2.
Proof.
  unfold Matcher.findAccount.
  destruct (Matcher.accountCache c !! _) eqn:Hc; [apply keeps_refl|].
  repeat case_match; simpl; try apply keeps_refl;
    (split_and!; simpl; [done | done | by apply insert_subseteq]).
Qed.

Lemma syncReceipt_keeps L now c r :
  keeps c (Uploader.syncReceipt L now c r).1.1.
Proof.
  unfold Uploader.syncReceipt.
  pose proof (findOrCreateVendor_keeps L c
    (or_str (or_str (Receipt.qboVendorName (Receipt.vendor r))
                    (Receipt.displayName (Receipt.vendor r)))
            (Receipt.vendorName (Receipt.vendor r)))) as Hv.
  destruct (Matcher.findOrCreateVendor L c _) as [vendor c1]. simpl in Hv.
  set (r1 := match vendor with Some _ => _ | None => r end). clearbody r1.
  destruct (if truthy_ostr _ then _ else _) as [r2 c2] eqn:H2.
  assert (keeps c1 c2) as Hc.
  { destruct (truthy_ostr _); [|injection H2 as <- <-; apply keeps_refl].
    pose proof (findOrCreateCustomer_keeps L c1 (Receipt.jobName (Receipt.job r1))) as Hcu.
    unfold Matcher.findCustomer in H2.
    destruct (Matcher.findOrCreateCustomer L c1 _) as [customer c2'].
    destruct customer; injection H2 as <- <-; done. }
  pose proof (findAccount_keeps L c2 (Receipt.categoryName (Receipt.category r2))) as Ha.
  destruct (Matcher.findAccount L c2 _) as [account c3]. simpl in Ha.
  assert (keeps c c3) as Hall by (do 2 (eapply keeps_trans; [|eassumption]); done).
  repeat case_match; simpl; done.
Qed.

Lemma syncAll_keeps now receipts : ∀ s c,
  keeps c (Scheduler.syncAll now receipts s c).1.2.
Proof.
  induction receipts as [|[L r] rest IH]; intros s c; simpl; [apply keeps_refl|].
  pose proof (syncReceipt_keeps L now c r) as Hs.
  destruct (Uploader.syncReceipt L now c r) as [[c1 r1] outcome]. simpl in Hs.
  set (s1 := match outcome with Ok _ => _ | Throw _ => _ end).
  pose proof (IH s1 c1) as Hr.
  destruct (Scheduler.syncAll now rest s1 c1) as [[s2 c2] done]. simpl in *.
  by eapply keeps_trans.
Qed.

Lemma runPipeline_keeps cy sch c :
  keeps c (Scheduler.runPipeline cy sch c).1.2.
Proof.
  unfold Scheduler.runPipeline.
  destruct (Scheduler.isRunning sch); [apply keeps_refl|].
  set (s := Scheduler.Build_Stats _ _ _ _).
  assert (keeps c (Scheduler.cycleBody cy s c).1.2) as H.
  { unfold Scheduler.cycleBody.
    repeat case_match; subst; first [apply keeps_refl | apply syncAll_keeps]. }
  destruct (Scheduler.cycleBody cy s c) as [[s' c'] out]. done.
Qed.

(** C8 fails on the program.  After a first cycle in which the ledger
    answers the vendor 34 for Ace Hardware, the vendor cache holds that
    entry; a second cycle starts on these caches, and while the ledger now
    answers the vendor 57 the receipt of the second cycle is given the
    vendor 34 of the first.  On emptied caches it would be given 57. *)
Lemma cache_entries_outlive_a_cycle :
  Matcher.vendorCache LedgerSamples.afterFirstCycle.1.2 !! Some "Ace Hardware"
    = Some {| Id := "34"; Name := "Ace Hardware" |}
  ∧ LedgerSamples.vendorIds
      (Scheduler.runPipeline (LedgerSamples.cycleWithAce "57")
         LedgerSamples.afterFirstCycle.1.1 LedgerSamples.afterFirstCycle.1.2)
    = [Some "34"]
  ∧ LedgerSamples.vendorIds
      (Scheduler.runPipeline (LedgerSamples.cycleWithAce "57")
         LedgerSamples.afterFirstCycle.1.1
         (Matcher.clearCaches LedgerSamples.afterFirstCycle.1.2))
    = [Some "57"].
Proof. split_and!; vm_compute; reflexivity. Qed.

(** C8 as the program has it.  The caches belong to the one matcher of the
    process and a cycle hands them on as it leaves them: every entry the
    caches hold when a cycle starts is still there, unchanged, when it ends.
    A lookup under a cached name answers the cached object without asking
    the ledger.  The caches are emptied by [clearCaches], which no cycle
    calls. *)
Theorem caches_persist_across_cycles :
  (∀ cy sch c, keeps c (Scheduler.runPipeline cy sch c).1.2)
  ∧ (∀ L c name v,
        Matcher.vendorCache c !! name = Some v →
        Matcher.findOrCreateVendor L c name = (Some v, c))
  ∧ (∀ L c name v,
        truthy_str name = true →
        Matcher.customerCache c !! name = Some v →
        Matcher.findOrCreateCustomer L c (Some name) = (Some v, c))
  ∧ (∀ L c name v,
        truthy_str name = true →
        Matcher.accountCache c !! name = Some v →
        Matcher.findAccount L c name = (Some v, c))
  ∧ (∀ c, Matcher.clearCaches c = Matcher.constructor).
Proof.
  split_and!.
  - exact runPipeline_keeps.
  - intros L c name v H. unfold Matcher.findOrCreateVendor. by rewrite H.
  - intros L c name v Ht H. unfold Matcher.findOrCreateCustomer. by rewrite Ht, H.
  - intros L c name v Ht H. unfold Matcher.findAccount. by rewrite Ht, H.
  - reflexivity.
Qed.

(** The amended C8 on the caches the first sample cycle leaves: the
    vendor cached then is answered whatever the ledger says now. *)
Lemma caches_persist_across_cycles_witness :
  Matcher.findOrCreateVendor (LedgerSamples.aceIs "57") LedgerSamples.afterFirstCycle.1.2
    (Some "Ace Hardware")
  = (Some {| Id := "34"; Name := "Ace Hardware" |}, LedgerSamples.afterFirstCycle.1.2).
Proof.
  destruct caches_persist_across_cycles as (_ & Hv & _).
  apply Hv. vm_compute. reflexivity.
Defined.

End CacheTheorems.

(** ** The scenarios of the specification, run on the model *)

Section Scenarios.
Import Qbo Lifecycle.

(** Dates: the window of three days around a date crosses months and
    leap days, and [null] is an invalid date. *)
Example dayjs_window :
  Dayjs.format (Dayjs.add (Dayjs.dayjs (Some "2025-11-29")) 3) = "2025-12-02"
  ∧ Dayjs.format (Dayjs.subtract (Dayjs.dayjs (Some "2024-03-02")) 3) = "2024-02-28"
  ∧ Dayjs.format (Dayjs.subtract (Dayjs.dayjs (Some "2025-03-02")) 3) = "2025-02-27"
  ∧ Dayjs.parse "1970-01-01" = Some 0%Z
  ∧ Dayjs.parse "2025-11-23" = Some 20415%Z
  ∧ Dayjs.format (Dayjs.dayjs None) = "Invalid Date".
Proof. split_and!; reflexivity. Qed.

(** Amounts as [parseCurrency] reads them. *)
Example parseCurrency_reads :
  Helpers.parseCurrency (Helpers.ArgStr "119.76") = Some 119.76%float
  ∧ Helpers.parseCurrency (Helpers.ArgStr "$1,234.50") = Some 1234.5%float
  ∧ Helpers.parseCurrency (Helpers.ArgStr "0.00") = Some 0%float
  ∧ truthy_onum (Helpers.parseCurrency (Helpers.ArgStr "0.00")) = false
  ∧ Helpers.parseCurrency (Helpers.ArgStr ",") = None
  ∧ Helpers.parseCurrency Helpers.ArgMissing = None.
Proof. split_and!; reflexivity. Qed.

(** Scenario B: one candidate of the same amount on the same day, no card
    on the purchase: score 130, accepted, and the sync leaves the receipt
    matched to it. *)
Example scenario_matched :
  let candidate := Samples.purchase "501" 119.76%float "2025-11-23" None in
  let res := Uploader.syncReceipt (with_purchases (Ok [candidate]) LedgerSamples.quietLedger)
               LedgerSamples.clock Matcher.constructor Samples.aceReceipt in
  Matcher.score candidate Samples.aceReceipt = 130%Z
  ∧ Matcher.findBestMatch [candidate] Samples.aceReceipt = Some candidate
  ∧ statusOf res.1.2 = Receipt.matched
  ∧ Receipt.transactionId (Receipt.qboSync res.1.2) = Some "501".
Proof. split_and!; reflexivity. Qed.

(** Scenario C: no candidate in the window: a new expense is created and
    the receipt is synced. *)
Example scenario_synced :
  statusOf LedgerSamples.firstSync.2 = Receipt.synced
  ∧ Receipt.expenseId (Receipt.qboSync LedgerSamples.firstSync.2) = Some "900"
  ∧ Receipt.syncedAt (Receipt.qboSync LedgerSamples.firstSync.2) = Some LedgerSamples.clock.
Proof. split_and!; reflexivity. Qed.

End Scenarios.

(** * Further properties of the code *)

(** ** The lookups of the matcher and their caches *)

Section LookupTheorems.
Import Qbo.

(** X1.  A vendor lookup that answers a vendor leaves it cached under the
    name, touches no other entry and no other cache, and from then on the
    same name is answered by that vendor on these caches whatever the ledger
    says.  A lookup that answers [null] leaves the caches as they were: a
    failure is not cached. *)
Theorem vendor_lookup_is_cached L c name :
  let res := Matcher.findOrCreateVendor L c name in
  match res.1 with
  | Some v =>
      Matcher.vendorCache res.2 !! name = Some v
      ∧ (∀ k, k ≠ name → Matcher.vendorCache res.2 !! k = Matcher.vendorCache c !! k)
      ∧ Matcher.customerCache res.2 = Matcher.customerCache c
      ∧ Matcher.accountCache res.2 = Matcher.accountCache c
      ∧ (∀ L', Matcher.findOrCreateVendor L' res.2 name = (Some v, res.2))
  | None => res.2 = c ∧ Matcher.vendorCache c !! name = None
  end.
Proof.
  assert (∀ m v, Matcher.vendorCache m !! name = Some v →
                 ∀ L', Matcher.findOrCreateVendor L' m name = (Some v, m)) as Hhit.
  { intros m v H L'. unfold Matcher.findOrCreateVendor. by rewrite H. }
  destruct (Matcher.findOrCreateVendor L c name) as [o c'] eqn:E.
  unfold Matcher.findOrCreateVendor in E. cbn [fst snd].
  destruct (Matcher.vendorCache c !! name) as [v|] eqn:Hc.
  - injection E as <- <-. split_and!; try done. by apply Hhit.
  - assert (∀ v, let m := Matcher.set_vendorCache (<[name:=v]> (Matcher.vendorCache c)) c in
                 Matcher.vendorCache m !! name = Some v
                 ∧ (∀ k, k ≠ name → Matcher.vendorCache m !! k = Matcher.vendorCache c !! k)
                 ∧ Matcher.customerCache m = Matcher.customerCache c
                 ∧ Matcher.accountCache m = Matcher.accountCache c
                 ∧ (∀ L', Matcher.findOrCreateVendor L' m name = (Some v, m))) as Hins.
    { intros v m. split_and!; try done.
      - apply lookup_insert_eq.
      - intros k Hk. by apply lookup_insert_ne.
      - apply Hhit. apply lookup_insert_eq. }
    destruct (queryVendor L name) as [[|v vs]|e].
    + destruct (createVendor L name) as [v|e]; injection E as <- <-; [apply Hins | done].
    + injection E as <- <-. apply Hins.
    + injection E as <- <-. done.
Qed.

(** X2.  A customer lookup under no job name, or an empty one, answers [null]
    and asks the ledger nothing.  Under a name, a customer that is answered
    is cached under it and answered again from the cache; [null] leaves the
    caches as they were. *)
Theorem customer_lookup_is_cached L c :
  (Matcher.findOrCreateCustomer L c None = (None, c)
   ∧ Matcher.findOrCreateCustomer L c (Some "") = (None, c))
  ∧ (∀ name,
        let res := Matcher.findOrCreateCustomer L c (Some name) in
        match res.1 with
        | Some v =>
            Matcher.customerCache res.2 !! name = Some v
            ∧ Matcher.vendorCache res.2 = Matcher.vendorCache c
            ∧ Matcher.accountCache res.2 = Matcher.accountCache c
            ∧ (∀ L', Matcher.findOrCreateCustomer L' res.2 (Some name) = (Some v, res.2))
        | None => res.2 = c
        end).
Proof.
  split; [done|]. intros name.
  assert (∀ m v, truthy_str name = true → Matcher.customerCache m !! name = Some v →
                 ∀ L', Matcher.findOrCreateCustomer L' m (Some name) = (Some v, m)) as Hhit.
  { intros m v Ht H L'. unfold Matcher.findOrCreateCustomer. by rewrite Ht, H. }
  destruct (Matcher.findOrCreateCustomer L c (Some name)) as [o c'] eqn:E.
  unfold Matcher.findOrCreateCustomer in E. cbn [fst snd].
  destruct (truthy_str name) eqn:Ht; [|by injection E as <- <-].
  destruct (Matcher.customerCache c !! name) as [v|] eqn:Hc.
  - injection E as <- <-. split_and!; try done. by apply Hhit.
  - assert (∀ v, let m := Matcher.set_customerCache (<[name:=v]> (Matcher.customerCache c)) c in
                 Matcher.customerCache m !! name = Some v
                 ∧ Matcher.vendorCache m = Matcher.vendorCache c
                 ∧ Matcher.accountCache m = Matcher.accountCache c
                 ∧ (∀ L', Matcher.findOrCreateCustomer L' m (Some name) = (Some v, m)))
      as Hins.
    { intros v m. split_and!; try done; [apply lookup_insert_eq|].
      apply Hhit; [done|]. apply lookup_insert_eq. }
    destruct (queryCustomer L name) as [[|v vs]|e].
    + destruct (createCustomer L name) as [v|e]; injection E as <- <-; [apply Hins | done].
    + injection E as <- <-. apply Hins.
    + injection E as <- <-. done.
Qed.

(** X3.  The account lookup answers an account whenever the ledger has any
    expense account: when the search by name finds none and the list of all
    expense accounts is not empty, the answer is the first account of that
    list whose name holds one of the words job, material, supplies or cost of
    goods, in any case, and the first account of the list when none does; the
    answer is cached under the name searched. *)
Theorem account_lookup_falls_back L c name allAccounts :
  truthy_str name = true →
  Matcher.accountCache c !! name = None →
  queryAccount L name = Ok [] →
  queryExpenseAccounts L = Ok allAccounts →
  allAccounts ≠ [] →
  ∃ a,
    (Matcher.findAccount L c name).1 = Some a
    ∧ a ∈ allAccounts
    ∧ Matcher.accountCache (Matcher.findAccount L c name).2 !! name = Some a
    ∧ ((Matcher.looks_like_supplies a = true
        ∧ ∃ before after,
            allAccounts = before ++ a :: after
            ∧ ∀ b, b ∈ before → Matcher.looks_like_supplies b = false)
       ∨ ((∀ b, b ∈ allAccounts → Matcher.looks_like_supplies b = false)
          ∧ head allAccounts = Some a)).
Proof.
  intros Ht Hc Hq Hall Hne. unfold Matcher.findAccount. rewrite Ht, Hc, Hq, Hall.
  destruct (List.find Matcher.looks_like_supplies allAccounts) as [a|] eqn:Hf.
  - exists a. simpl.
    assert (∃ before after, allAccounts = before ++ a :: after
              ∧ Matcher.looks_like_supplies a = true
              ∧ ∀ b, b ∈ before → Matcher.looks_like_supplies b = false)
      as (before & after & -> & Hl & Hb).
    { clear -Hf. induction allAccounts as [|x l IH]; [discriminate|]. simpl in Hf.
      destruct (Matcher.looks_like_supplies x) eqn:Hx.
      - injection Hf as ->. exists [], l. split_and!; [done|done|].
        intros b Hb. by apply elem_of_nil in Hb.
      - destruct (IH Hf) as (before & after & -> & Hl & Hb).
        exists (x :: before), after. split_and!; [done|done|].
        intros b Hin. apply elem_of_cons in Hin as [-> | Hin]; [done | by apply Hb]. }
    split_and!; [done| |apply lookup_insert_eq|].
    + apply elem_of_app. right. apply elem_of_cons. by left.
    + left. split; [done|]. by exists before, after.
  - destruct allAccounts as [|a rest]; [done|]. exists a. simpl.
    split_and!; [done| |apply lookup_insert_eq|].
    + apply elem_of_cons. by left.
    + right. split; [|done]. intros b Hb.
      apply list_elem_of_In in Hb.
      by apply (find_none _ _ Hf).
Qed.

(** The fallback of the account lookup on the quiet sample ledger, whose
    one expense account is named Job Materials. *)
Lemma account_lookup_falls_back_witness :
  ∃ a,
    (Matcher.findAccount LedgerSamples.quietLedger Matcher.constructor
       "Materials & Supplies").1 = Some a
    ∧ a ∈ [ {| Id := "7"; Name := "Job Materials" |} ]
    ∧ Matcher.accountCache
        (Matcher.findAccount LedgerSamples.quietLedger Matcher.constructor
           "Materials & Supplies").2 !! "Materials & Supplies" = Some a
    ∧ ((Matcher.looks_like_supplies a = true
        ∧ ∃ before after,
            [ {| Id := "7"; Name := "Job Materials" |} ] = before ++ a :: after
            ∧ ∀ b, b ∈ before → Matcher.looks_like_supplies b = false)
       ∨ ((∀ b, b ∈ [ {| Id := "7"; Name := "Job Materials" |} ]
              → Matcher.looks_like_supplies b = false)
          ∧ head [ {| Id := "7"; Name := "Job Materials" |} ] = Some a)).
Proof.
  apply (account_lookup_falls_back LedgerSamples.quietLedger Matcher.constructor
           "Materials & Supplies" [ {| Id := "7"; Name := "Job Materials" |} ]);
    try reflexivity. discriminate.
Defined.

End LookupTheorems.

(** ** The dates of the purchase window *)

Section WindowTheorems.
Import Qbo Matcher Range.
Local Open Scope Z_scope.

Lemma holds_from_spec p n : ∀ z k,
  holds_from p n z = true → z ≤ k < z + Z.of_nat n → p k = true.
Proof.
  induction n as [|n IH]; intros z k H Hk; [lia|].
  simpl in H. apply andb_true_iff in H as [Hz Hrest].
  destruct (decide (k = z)) as [->|Hne]; [done|].
  apply (IH (z + 1)); [done | lia].
Qed.

Lemma digit_pair_small :
  holds_from (fun n => bool_decide
                (Dayjs.num2 (Dayjs.digit_char (n / 10)) (Dayjs.digit_char n) = Some n))
             100 0 = true.
Proof. vm_compute. reflexivity. Qed.

Lemma digit_char_mod n : Dayjs.digit_char n = Dayjs.digit_char (n mod 10).
Proof. unfold Dayjs.digit_char. by rewrite Z.mod_mod. Qed.

(** Two digits printed from a number read back as its last two digits. *)
Lemma digit_pair n :
  0 ≤ n → Dayjs.num2 (Dayjs.digit_char (n / 10)) (Dayjs.digit_char n) = Some (n mod 100).
Proof.
  intros Hn. pose proof (Z.mod_pos_bound n 100 ltac:(lia)) as Hb.
  pose proof (holds_from_spec _ _ _ (n mod 100) digit_pair_small ltac:(lia)) as H.
  rewrite bool_decide_eq_true in H.
  rewrite (digit_char_mod (n / 10)), (digit_char_mod n).
  rewrite (digit_char_mod (n mod 100 / 10)), (digit_char_mod (n mod 100)) in H.
  replace ((n / 10) mod 10) with ((n mod 100 / 10) mod 10).
  2:{ rewrite (Z.div_mod n 100) at 2 by lia.
      replace (100 * (n / 100) + n mod 100) with (n mod 100 + (n / 100 * 10) * 10) by lia.
      rewrite Z.div_add by lia.
      rewrite Z.add_mod by lia. rewrite Z.mod_mul by lia.
      rewrite Z.add_0_r. by rewrite Z.mod_mod. }
  replace (n mod 10) with ((n mod 100) mod 10).
  2:{ rewrite (Z.div_mod n 100) at 2 by lia.
      replace (100 * (n / 100) + n mod 100) with (n mod 100 + (n / 100 * 10) * 10) by lia.
      by rewrite Z.mod_add. }
  apply H.
Qed.

(** A year, a month and a day printed as [YYYY-MM-DD] read back as their
    day number. *)
Lemma parse_printed y m d :
  0 ≤ y < 10000 → 0 ≤ m < 100 → 0 ≤ d < 100 →
  Dayjs.parse (Dayjs.pad2 (y / 100) +:+ Dayjs.pad2 y +:+ "-" +:+ Dayjs.pad2 m
               +:+ "-" +:+ Dayjs.pad2 d)
  = Some (Dayjs.days_from_civil y m d).
Proof.
  intros Hy Hm Hd. unfold Dayjs.parse, Dayjs.pad2.
  lazy beta iota zeta delta [String.append list_ascii_of_string].
  rewrite !digit_pair by (try lia; apply Z.div_pos; lia).
  cbn -[Dayjs.days_from_civil Z.div Z.mul Z.add Z.modulo].
  assert (0 ≤ y / 100 < 100) as Hq.
  { split; [apply Z.div_pos; lia | apply Z.div_lt_upper_bound; lia]. }
  rewrite (Z.mod_small (y / 100)), (Z.mod_small m), (Z.mod_small d) by lia.
  do 3 f_equal. rewrite (Z.div_mod y 100) at 3 by lia. lia.
Qed.

(** The calendar on every day from 2000-01-01 to 2049-12-31: the civil date
    of a day number has a four-digit year and two-digit month and day, and
    its day number is the day number. *)
Lemma calendar_range :
  holds_from (fun z =>
                let '(y, m, d) := Dayjs.civil_from_days z in
                (0 <=? y) && (y <? 10000) && (0 <=? m) && (m <? 100) && (0 <=? d)
                && (d <? 100) && (Dayjs.days_from_civil y m d =? z))
             (Z.to_nat 18263) 10957 = true.
Proof. vm_compute. reflexivity. Qed.

(** Every day from 2000-01-01 to 2049-12-31 is printed as a date string
    that reads back as the same day. *)
Lemma dayjs_format_parse z :
  10957 ≤ z < 29220 → Dayjs.parse (Dayjs.format (Some z)) = Some z.
Proof.
  intros Hz.
  pose proof (holds_from_spec _ _ _ z calendar_range ltac:(lia)) as H.
  unfold Dayjs.format. cbv beta in H.
  destruct (Dayjs.civil_from_days z) as [[y m] d].
  rewrite !andb_true_iff in H.
  destruct H as ((((((H1 & H2) & H3) & H4) & H5) & H6) & H7).
  rewrite parse_printed by lia. f_equal. lia.
Qed.

(** X4.  The purchases scored for a receipt are those the ledger answers for
    the window from three days before the receipt's date to three days after
    it: for a receipt dated from 2000-01-04 to 2049-12-28, the query is sent
    with two date strings that read back as the receipt's day minus three
    and plus three. *)
Theorem purchase_window_is_three_days L r s z :
  Receipt.date (Receipt.transaction r) = Some s →
  Dayjs.parse s = Some z →
  10960 ≤ z < 29217 →
  ∃ startDate endDate,
    Dayjs.parse startDate = Some (z - 3)
    ∧ Dayjs.parse endDate = Some (z + 3)
    ∧ findMatchingTransaction L r =
        match queryPurchases L startDate endDate with
        | Ok purchases => findBestMatch purchases r
        | Throw _ => None
        end.
Proof.
  intros Hd Hp Hz.
  exists (Dayjs.format (Some (z - 3))), (Dayjs.format (Some (z + 3))).
  split_and!; [apply dayjs_format_parse; lia | apply dayjs_format_parse; lia |].
  unfold findMatchingTransaction. rewrite Hd.
  assert (Dayjs.dayjs (Some s) = Some z) as -> by exact Hp.
  reflexivity.
Qed.

(** The window of the sample receipt, dated 2025-11-23. *)
Lemma purchase_window_is_three_days_witness :
  ∃ startDate endDate,
    Dayjs.parse startDate = Some (20415 - 3)
    ∧ Dayjs.parse endDate = Some (20415 + 3)
    ∧ findMatchingTransaction LedgerSamples.holdsExactCandidate Samples.aceReceipt =
        match queryPurchases LedgerSamples.holdsExactCandidate startDate endDate with
        | Ok purchases => findBestMatch purchases Samples.aceReceipt
        | Throw _ => None
        end.
Proof.
  apply (purchase_window_is_three_days LedgerSamples.holdsExactCandidate Samples.aceReceipt
           "2025-11-23" 20415); [reflexivity | reflexivity | lia].
Defined.

End WindowTheorems.

(** ** The candidates the matcher answers *)

Section CandidateTheorems.
Import Qbo Matcher.
Local Open Scope Z_scope.

(** X5.  The amount is not needed to reach the threshold: a candidate on the
    receipt's date whose card number ends in the receipt's last four digits
    scores at least 80 whatever its amount, and alone in the list it is the
    answer. *)
Theorem date_and_card_reach_the_threshold t r last4 number :
  Some (TxnDate t) = Receipt.date (Receipt.transaction r) →
  Receipt.cardLast4 (Receipt.payment r) = Some last4 →
  CCNumber t = Some number →
  last4 ≠ "" →
  slice_last 4 number = last4 →
  80 ≤ score t r ∧ findBestMatch [t] r = Some t.
Proof.
  intros Hd Hc Hn Hne Hs.
  assert (80 ≤ score t r) as H80.
  { unfold score. rewrite (datePoints_same_date _ _ Hd),
      (cardPoints_same_suffix _ _ _ _ Hc Hn Hne Hs).
    pose proof (amountPoints_range (amountDiff t r)). lia. }
  split; [done|].
  unfold findBestMatch. simpl. unfold step. simpl.
  destruct (0 <? score t r) eqn:H0; [|apply Z.ltb_ge in H0; lia].
  destruct (80 <=? score t r) eqn:H8; [done | apply Z.leb_gt in H8; lia].
Qed.

(** A candidate forty dollars off on the receipt's date and card. *)
Lemma date_and_card_reach_the_threshold_witness :
  80 ≤ score (Samples.purchase "507" 159.76%float "2025-11-23" (Some "XXXXXXXXXXXX1234"))
             Samples.aceReceipt
  ∧ findBestMatch [Samples.purchase "507" 159.76%float "2025-11-23" (Some "XXXXXXXXXXXX1234")]
      Samples.aceReceipt
    = Some (Samples.purchase "507" 159.76%float "2025-11-23" (Some "XXXXXXXXXXXX1234")).
Proof.
  apply (date_and_card_reach_the_threshold _ _ "1234" "XXXXXXXXXXXX1234");
    try reflexivity. discriminate.
Defined.

Lemma first_highest_unique (r : Receipt.t) b1 : ∀ t1 a1 b2 t2 a2,
  b1 ++ t1 :: a1 = b2 ++ t2 :: a2 →
  (∀ u, u ∈ b1 → score u r < score t1 r) → (∀ u, u ∈ a1 → score u r ≤ score t1 r) →
  (∀ u, u ∈ b2 → score u r < score t2 r) → (∀ u, u ∈ a2 → score u r ≤ score t2 r) →
  t1 = t2.
Proof.
  induction b1 as [|x b1 IH]; intros t1 a1 b2 t2 a2 Heq Hb1 Ha1 Hb2 Ha2.
  - destruct b2 as [|y b2]; simpl in Heq.
    + by injection Heq.
    + injection Heq as -> ->.
      assert (score y r < score t2 r) by (apply Hb2; apply elem_of_cons; by left).
      assert (score t2 r ≤ score y r).
      { apply Ha1. apply elem_of_app. right. apply elem_of_cons. by left. }
      lia.
  - destruct b2 as [|y b2]; simpl in Heq.
    + injection Heq as -> <-.
      assert (score t2 r < score t1 r) by (apply Hb1; apply elem_of_cons; by left).
      assert (score t1 r ≤ score t2 r).
      { apply Ha2. apply elem_of_app. right. apply elem_of_cons. by left. }
      lia.
    + injection Heq as -> Heq.
      apply (IH t1 a1 b2 t2 a2 Heq); try done.
      * intros u Hu. apply Hb1. apply elem_of_cons. by right.
      * intros u Hu. apply Hb2. apply elem_of_cons. by right.
Qed.

(** X6.  Candidates that score below 80 have no part in the answer: leaving
    them out of the list changes nothing. *)
Theorem candidates_below_threshold_do_not_matter txns r :
  findBestMatch (filter (fun u => 80 ≤ score u r) txns) r = findBestMatch txns r.
Proof.
  pose proof (findBestMatch_spec txns r) as Hfull.
  pose proof (findBestMatch_spec (filter (fun u => 80 ≤ score u r) txns) r) as Hfilt.
  destruct (findBestMatch txns r) as [t|].
  - destruct Hfull as (before & after & -> & H80 & Hb & Ha).
    rewrite filter_app, filter_cons_True in Hfilt |- * by done.
    destruct (findBestMatch _ r) as [t'|].
    + destruct Hfilt as (b' & a' & Heq & _ & Hb' & Ha'). f_equal. symmetry.
      apply (first_highest_unique r _ _ _ _ _ _ Heq).
      * intros u Hu. apply list_elem_of_filter in Hu as [_ Hu]. by apply Hb.
      * intros u Hu. apply list_elem_of_filter in Hu as [_ Hu]. by apply Ha.
      * done.
      * done.
    + assert (score t r < 80); [|lia].
      apply Hfilt. apply elem_of_app. right. apply elem_of_cons. by left.
  - destruct (findBestMatch _ r) as [t'|]; [|done].
    destruct Hfilt as (b' & a' & Heq & H80 & _).
    assert (t' ∈ filter (fun u => 80 ≤ score u r) txns) as Hin.
    { rewrite Heq. apply elem_of_app. right. apply elem_of_cons. by left. }
    apply list_elem_of_filter in Hin as [_ Hin]. specialize (Hfull t' Hin). lia.
Qed.

End CandidateTheorems.

(** ** What a sync leaves on the receipt *)

Section SyncRecordTheorems.
Import Qbo Lifecycle SyncSpec.
Local Open Scope Z_scope.

Lemma lookups_only_refl r : lookups_only r r.
Proof. unfold lookups_only. split_and!; reflexivity. Qed.

Lemma lookups_only_trans r1 r2 r3 :
  lookups_only r1 r2 → lookups_only r2 r3 → lookups_only r1 r3.
Proof. unfold lookups_only. intros H1 H2. split_and!; intuition congruence. Qed.

(** The sync up to its match, with all that the lookups left alone. *)
Lemma syncReceipt_lookups L now c r :
  ∃ c' r0,
    lookups_only r r0
    ∧ Uploader.syncReceipt L now c r =
        match
          match Matcher.findMatchingTransaction L r0 with
          | Some matchingTxn =>
              match Uploader.updateTransaction L r0 matchingTxn with
              | Ok _ =>
                  Ok (Receipt.addProcessingNote now
                        (Receipt.updateSyncStatus now r0 Receipt.matched
                           (Receipt.TransactionId (purchaseId matchingTxn)))
                        ("Matched to existing transaction #" +:+ purchaseId matchingTxn))
              | Throw e => Throw e
              end
          | None =>
              match Uploader.createExpense L r0 with
              | Ok expense =>
                  Ok (Receipt.addProcessingNote now
                        (Receipt.updateSyncStatus now r0 Receipt.synced
                           (Receipt.ExpenseId (purchaseId expense)))
                        ("Created new expense #" +:+ purchaseId expense))
              | Throw e => Throw e
              end
          end
        with
        | Ok r1 =>
            (c', match Receipt.attachments r1 with
                 | _ :: _ => Uploader.uploadAttachment now r1
                 | [] => r1
                 end, Ok tt)
        | Throw e =>
            (c', Receipt.updateSyncStatus now r0 Receipt.error (Receipt.ErrorMessage e),
             Throw e)
        end.
Proof.
  unfold Uploader.syncReceipt.
  destruct (Matcher.findOrCreateVendor L c _) as [vendor c1].
  set (r1 := match vendor with Some _ => _ | None => r end).
  assert (lookups_only r r1) as H1.
  { subst r1. destruct vendor; [|apply lookups_only_refl].
    unfold lookups_only. split_and!; reflexivity. }
  clearbody r1.
  destruct (if truthy_ostr _ then _ else _) as [r2 c2] eqn:H2.
  assert (lookups_only r1 r2) as H12.
  { destruct (truthy_ostr _); [|injection H2 as <- <-; apply lookups_only_refl].
    destruct (Matcher.findCustomer L c1 _) as [customer c2'].
    destruct customer; injection H2 as <- <-; [|apply lookups_only_refl].
    unfold lookups_only. split_and!; reflexivity. }
  clear H2.
  destruct (Matcher.findAccount L c2 _) as [account c3].
  set (r3 := match account with Some _ => _ | None => r2 end).
  assert (lookups_only r2 r3) as H23.
  { subst r3. destruct account; [|apply lookups_only_refl].
    unfold lookups_only. split_and!; reflexivity. }
  clearbody r3.
  exists c3, r3. split; [|reflexivity].
  eapply lookups_only_trans; [|exact H23]. eapply lookups_only_trans; eauto.
Qed.

Lemma uploadAttachment_notes now r :
  ∃ added,
    Receipt.processingNotes (Receipt.metadata (Uploader.uploadAttachment now r))
    = Receipt.processingNotes (Receipt.metadata r) ++ added
    ∧ (length added ≤ 1)%nat.
Proof.
  unfold Uploader.uploadAttachment.
  repeat case_match;
    first [ exists []; split; [by rewrite app_nil_r | simpl; lia]
          | eexists [_]; split; [reflexivity | simpl; lia] ].
Qed.

Lemma uploadAttachment_lookups_only now r :
  Receipt.id (Uploader.uploadAttachment now r) = Receipt.id r
  ∧ Receipt.source (Uploader.uploadAttachment now r) = Receipt.source r
  ∧ Receipt.vendor (Uploader.uploadAttachment now r) = Receipt.vendor r
  ∧ Receipt.transaction (Uploader.uploadAttachment now r) = Receipt.transaction r
  ∧ Receipt.payment (Uploader.uploadAttachment now r) = Receipt.payment r
  ∧ Receipt.reference (Uploader.uploadAttachment now r) = Receipt.reference r
  ∧ Receipt.job (Uploader.uploadAttachment now r) = Receipt.job r
  ∧ Receipt.lineItems (Uploader.uploadAttachment now r) = Receipt.lineItems r
  ∧ Receipt.category (Uploader.uploadAttachment now r) = Receipt.category r
  ∧ Receipt.attachments (Uploader.uploadAttachment now r) = Receipt.attachments r
  ∧ Receipt.createdAt (Receipt.metadata (Uploader.uploadAttachment now r))
    = Receipt.createdAt (Receipt.metadata r)
  ∧ Receipt.confidence (Receipt.metadata (Uploader.uploadAttachment now r))
    = Receipt.confidence (Receipt.metadata r).
Proof.
  unfold Uploader.uploadAttachment.
  destruct (Receipt.attachments r) as [|a l] eqn:Ha; [by rewrite Ha|].
  destruct (truthy_ostr (Receipt.data a)); [|by rewrite Ha].
  destruct (truthy_ostr _); [|by rewrite Ha].
  cbn. by rewrite Ha.
Qed.

(** X7.  A sync writes three ledger ids, the sync status and notes, and nothing
    else: the identity, the source, the amounts and dates, the payment, the
    references, the line items and the attachments of the receipt, the
    names it was looked up by and its creation time are as before. *)
Theorem sync_keeps_the_extracted_data L now c r :
  let r' := (Uploader.syncReceipt L now c r).1.2 in
  Receipt.id r' = Receipt.id r
  ∧ Receipt.source r' = Receipt.source r
  ∧ Receipt.transaction r' = Receipt.transaction r
  ∧ Receipt.payment r' = Receipt.payment r
  ∧ Receipt.reference r' = Receipt.reference r
  ∧ Receipt.lineItems r' = Receipt.lineItems r
  ∧ Receipt.attachments r' = Receipt.attachments r
  ∧ Receipt.vendorId (Receipt.vendor r') = Receipt.vendorId (Receipt.vendor r)
  ∧ Receipt.vendorName (Receipt.vendor r') = Receipt.vendorName (Receipt.vendor r)
  ∧ Receipt.displayName (Receipt.vendor r') = Receipt.displayName (Receipt.vendor r)
  ∧ Receipt.jobName (Receipt.job r') = Receipt.jobName (Receipt.job r)
  ∧ Receipt.qboProjectId (Receipt.job r') = Receipt.qboProjectId (Receipt.job r)
  ∧ Receipt.categoryName (Receipt.category r') = Receipt.categoryName (Receipt.category r)
  ∧ Receipt.isBillable (Receipt.category r') = Receipt.isBillable (Receipt.category r)
  ∧ Receipt.isTaxable (Receipt.category r') = Receipt.isTaxable (Receipt.category r)
  ∧ Receipt.billId (Receipt.qboSync r') = Receipt.billId (Receipt.qboSync r)
  ∧ Receipt.createdAt (Receipt.metadata r') = Receipt.createdAt (Receipt.metadata r)
  ∧ Receipt.confidence (Receipt.metadata r') = Receipt.confidence (Receipt.metadata r).
Proof.
  destruct (syncReceipt_lookups L now c r) as (c' & r0 & H0 & ->).
  unfold lookups_only in H0.
  destruct H0 as (?&?&?&?&?&?&?&Hq&Hm&?&?&?&?&?&?&?&?&?).
  destruct (match Matcher.findMatchingTransaction L r0 with Some _ => _ | None => _ end)
    as [r1|e] eqn:Hw; cbn [fst snd].
  - assert (Receipt.id r1 = Receipt.id r0 ∧ Receipt.source r1 = Receipt.source r0
            ∧ Receipt.vendor r1 = Receipt.vendor r0
            ∧ Receipt.transaction r1 = Receipt.transaction r0
            ∧ Receipt.payment r1 = Receipt.payment r0
            ∧ Receipt.reference r1 = Receipt.reference r0
            ∧ Receipt.job r1 = Receipt.job r0
            ∧ Receipt.lineItems r1 = Receipt.lineItems r0
            ∧ Receipt.category r1 = Receipt.category r0
            ∧ Receipt.attachments r1 = Receipt.attachments r0
            ∧ Receipt.billId (Receipt.qboSync r1) = Receipt.billId (Receipt.qboSync r0)
            ∧ Receipt.createdAt (Receipt.metadata r1) = Receipt.createdAt (Receipt.metadata r0)
            ∧ Receipt.confidence (Receipt.metadata r1) = Receipt.confidence (Receipt.metadata r0))
      as (?&?&?&?&?&?&?&?&?&?&?&?&?).
    { repeat case_match; simplify_eq; split_and!; reflexivity. }
    assert (Receipt.billId (Receipt.qboSync
              (match Receipt.attachments r1 with
               | _ :: _ => Uploader.uploadAttachment now r1 | [] => r1 end))
            = Receipt.billId (Receipt.qboSync r1)) as Hb.
    { destruct (Receipt.attachments r1); [done|]. by rewrite uploadAttachment_qboSync. }
    pose proof (uploadAttachment_lookups_only now r1) as (?&?&?&?&?&?&?&?&?&?&?&?).
    destruct (Receipt.attachments r1) eqn:Ha; split_and!; congruence.
  - split_and!; simpl; congruence.
Qed.


Lemma score_lookups_only r r0 t :
  lookups_only r r0 → Matcher.score t r0 = Matcher.score t r.
Proof.
  intros (_&_&Ht&Hp&_).
  unfold Matcher.score, Matcher.amountDiff, Matcher.datePoints, Matcher.dateDiff,
    Matcher.cardPoints.
  by rewrite Ht, Hp.
Qed.

Lemma findBestMatch_lookups_only r r0 txns :
  lookups_only r r0 → Matcher.findBestMatch txns r0 = Matcher.findBestMatch txns r.
Proof.
  intros H. unfold Matcher.findBestMatch.
  assert (∀ acc, fold_left (Matcher.step r0) txns acc = fold_left (Matcher.step r) txns acc)
    as ->; [|done].
  induction txns as [|t txns IH]; intros acc; [done|]. simpl.
  rewrite IH. unfold Matcher.step. by rewrite (score_lookups_only r r0 t H).
Qed.

Lemma findMatchingTransaction_lookups_only L r r0 :
  lookups_only r r0 →
  Matcher.findMatchingTransaction L r0 = Matcher.findMatchingTransaction L r.
Proof.
  intros H. unfold Matcher.findMatchingTransaction.
  pose proof H as (_&_&Ht&_). rewrite Ht.
  destruct (queryPurchases L _ _); [|done]. by apply findBestMatch_lookups_only.
Qed.

Lemma attached_qboSync now (r1 : Receipt.t) :
  Receipt.qboSync (match Receipt.attachments r1 with
                   | _ :: _ => Uploader.uploadAttachment now r1
                   | [] => r1
                   end) = Receipt.qboSync r1.
Proof. destruct (Receipt.attachments r1); [done|]. apply uploadAttachment_qboSync. Qed.

(** X8.  A receipt a sync leaves matched carries the id of the best match
    among the purchases the ledger answered to the query the matcher makes
    for that receipt, from three days before its date to three days after:
    a purchase of that answer that scores at least 80 against the receipt
    and no less than any other purchase of that answer.  The ledger
    accepted the update of that purchase; the id of an expense created
    earlier stays, and the sync returned. *)
Theorem matched_names_the_best_candidate L now c r :
  statusOf (Uploader.syncReceipt L now c r).1.2 = Receipt.matched →
  ∃ purchases t r0 updated,
    queryPurchases L (Window.startDate r) (Window.endDate r) = Ok purchases
    ∧ Matcher.findBestMatch purchases r = Some t
    ∧ t ∈ purchases
    ∧ 80 ≤ Matcher.score t r
    ∧ (∀ u, u ∈ purchases → Matcher.score u r ≤ Matcher.score t r)
    ∧ lookups_only r r0
    ∧ postPurchase L (UpdatedPurchase r0 t) = Ok updated
    ∧ Receipt.transactionId (Receipt.qboSync (Uploader.syncReceipt L now c r).1.2)
      = Some (purchaseId t)
    ∧ Receipt.expenseId (Receipt.qboSync (Uploader.syncReceipt L now c r).1.2)
      = Receipt.expenseId (Receipt.qboSync r)
    ∧ (Uploader.syncReceipt L now c r).2 = Ok tt.
Proof.
  destruct (syncReceipt_lookups L now c r) as (c' & r0 & H0 & ->).
  rewrite (findMatchingTransaction_lookups_only L r r0 H0).
  pose proof H0 as (_&_&_&_&_&_&_&Hq&_).
  destruct (Matcher.findMatchingTransaction L r) as [t|] eqn:Hm.
  - unfold Uploader.updateTransaction.
    destruct (postPurchase L (UpdatedPurchase r0 t)) as [p|e] eqn:Hpost; cbn [fst snd];
      unfold statusOf; [|simpl; discriminate].
    intros _. unfold Matcher.findMatchingTransaction in Hm.
    fold (Window.startDate r) in Hm. fold (Window.endDate r) in Hm.
    destruct (queryPurchases L (Window.startDate r) (Window.endDate r))
      as [purchases|] eqn:Hquery; [|discriminate].
    exists purchases, t, r0, p.
    destruct (findBestMatch_some_score _ _ _ Hm) as [Hin H80].
    split_and!; [done | done | done | done | | done | done | | | done].
    + intros u Hu. by apply (findBestMatch_max purchases).
    + by rewrite attached_qboSync.
    + rewrite attached_qboSync. simpl. by rewrite Hq.
  - destruct (Uploader.createExpense L r0) as [p|e]; cbn [fst snd];
      unfold statusOf; [rewrite attached_qboSync|]; simpl; discriminate.
Qed.

(** The sample receipt, dated 2025-11-23, against the ledger that answers
    its purchase to the query from 2025-11-20 to 2025-11-26 and to no
    other. *)
Lemma matched_names_the_best_candidate_witness :
  ∃ purchases t r0 updated,
    queryPurchases Window.holdsCandidateInWindow "2025-11-20" "2025-11-26" = Ok purchases
    ∧ Matcher.findBestMatch purchases Samples.aceReceipt = Some t
    ∧ t ∈ purchases
    ∧ 80 ≤ Matcher.score t Samples.aceReceipt
    ∧ (∀ u, u ∈ purchases → Matcher.score u Samples.aceReceipt ≤ Matcher.score t Samples.aceReceipt)
    ∧ lookups_only Samples.aceReceipt r0
    ∧ postPurchase Window.holdsCandidateInWindow (UpdatedPurchase r0 t) = Ok updated
    ∧ Receipt.transactionId
        (Receipt.qboSync (Uploader.syncReceipt Window.holdsCandidateInWindow
                            LedgerSamples.clock Matcher.constructor Samples.aceReceipt).1.2)
      = Some (purchaseId t)
    ∧ Receipt.expenseId
        (Receipt.qboSync (Uploader.syncReceipt Window.holdsCandidateInWindow
                            LedgerSamples.clock Matcher.constructor Samples.aceReceipt).1.2)
      = Receipt.expenseId (Receipt.qboSync Samples.aceReceipt)
    ∧ (Uploader.syncReceipt Window.holdsCandidateInWindow
         LedgerSamples.clock Matcher.constructor Samples.aceReceipt).2 = Ok tt.
Proof.
  apply (matched_names_the_best_candidate Window.holdsCandidateInWindow
           LedgerSamples.clock Matcher.constructor Samples.aceReceipt).
  reflexivity.
Defined.

(** X9.  A receipt a sync leaves synced carries the id of the purchase the
    ledger created for it and the time of the sync; no purchase answered
    for its window scored 80, or the query failed; the id of a transaction
    matched earlier stays. *)
Theorem synced_names_the_new_expense L now c r :
  statusOf (Uploader.syncReceipt L now c r).1.2 = Receipt.synced →
  ∃ r0 expense,
    lookups_only r r0
    ∧ postPurchase L (NewExpense r0 (Matcher.findCreditCardAccount L)) = Ok expense
    ∧ Matcher.findMatchingTransaction L r = None
    ∧ Receipt.expenseId (Receipt.qboSync (Uploader.syncReceipt L now c r).1.2)
      = Some (purchaseId expense)
    ∧ Receipt.syncedAt (Receipt.qboSync (Uploader.syncReceipt L now c r).1.2) = Some now
    ∧ Receipt.transactionId (Receipt.qboSync (Uploader.syncReceipt L now c r).1.2)
      = Receipt.transactionId (Receipt.qboSync r)
    ∧ (Uploader.syncReceipt L now c r).2 = Ok tt.
Proof.
  destruct (syncReceipt_lookups L now c r) as (c' & r0 & H0 & ->).
  rewrite (findMatchingTransaction_lookups_only L r r0 H0).
  pose proof H0 as (_&_&_&_&_&_&_&Hq&_).
  destruct (Matcher.findMatchingTransaction L r) as [t|] eqn:Hm.
  - destruct (Uploader.updateTransaction L r0 t) as [p|e]; cbn [fst snd];
      unfold statusOf; [rewrite attached_qboSync|]; simpl; discriminate.
  - unfold Uploader.createExpense.
    destruct (postPurchase L _) as [p|e] eqn:Hp; cbn [fst snd];
      unfold statusOf; [|simpl; discriminate].
    intros _. exists r0, p. rewrite !attached_qboSync. simpl. rewrite Hq.
    split_and!; done.
Qed.

(** The sample receipt against the ledger that holds no purchase. *)
Lemma synced_names_the_new_expense_witness :
  ∃ r0 expense,
    lookups_only Samples.aceReceipt r0
    ∧ postPurchase LedgerSamples.quietLedger
        (NewExpense r0 (Matcher.findCreditCardAccount LedgerSamples.quietLedger)) = Ok expense
    ∧ Matcher.findMatchingTransaction LedgerSamples.quietLedger Samples.aceReceipt = None
    ∧ Receipt.expenseId
        (Receipt.qboSync (Uploader.syncReceipt LedgerSamples.quietLedger
                            LedgerSamples.clock Matcher.constructor Samples.aceReceipt).1.2)
      = Some (purchaseId expense)
    ∧ Receipt.syncedAt
        (Receipt.qboSync (Uploader.syncReceipt LedgerSamples.quietLedger
                            LedgerSamples.clock Matcher.constructor Samples.aceReceipt).1.2)
      = Some LedgerSamples.clock
    ∧ Receipt.transactionId
        (Receipt.qboSync (Uploader.syncReceipt LedgerSamples.quietLedger
                            LedgerSamples.clock Matcher.constructor Samples.aceReceipt).1.2)
      = Receipt.transactionId (Receipt.qboSync Samples.aceReceipt)
    ∧ (Uploader.syncReceipt LedgerSamples.quietLedger
         LedgerSamples.clock Matcher.constructor Samples.aceReceipt).2 = Ok tt.
Proof.
  apply (synced_names_the_new_expense LedgerSamples.quietLedger
           LedgerSamples.clock Matcher.constructor Samples.aceReceipt).
  reflexivity.
Defined.

Lemma attached_notes now (r1 : Receipt.t) :
  Receipt.processingNotes
    (Receipt.metadata (match Receipt.attachments r1 with
                       | _ :: _ => Uploader.uploadAttachment now r1
                       | [] => r1
                       end))
  = Receipt.processingNotes (Receipt.metadata r1)
    ++ match Receipt.attachments r1 with
       | a :: _ =>
           if truthy_ostr (Receipt.data a)
              && truthy_ostr (or_str (Receipt.expenseId (Receipt.qboSync r1))
                                     (Receipt.billId (Receipt.qboSync r1)))
           then [ {| Receipt.timestamp := now;
                     Receipt.message :=
                       "Attachment " +:+ default "null" (Receipt.filename a)
                         +:+ " ready for upload" |} ]
           else []
       | [] => []
       end.
Proof.
  unfold Uploader.uploadAttachment.
  destruct (Receipt.attachments r1) as [|a l]; [by rewrite app_nil_r|].
  destruct (truthy_ostr (Receipt.data a)); [|by rewrite app_nil_r].
  destruct (truthy_ostr (or_str _ _)); [done | by rewrite app_nil_r].
Qed.

(** X10.  A sync that returns appends, after the notes the receipt had,
    the note of what it did, stamped with the time of the sync: matched to
    the transaction whose id it recorded, or created the expense whose id
    it recorded.  After that note comes the note that the first attachment
    is ready for upload, exactly when the receipt has an attachment, the
    first one has data, and the receipt now has an expense id or a bill id;
    no other note is added and the recorded error is untouched.  A sync
    that throws leaves no trace but the error: the status is error and the
    message is the one a post to the ledger threw; the transaction and
    expense ids, the time of the last sync and the notes are as before. *)
Theorem sync_notes_and_errors L now c r :
  let res := Uploader.syncReceipt L now c r in
  let q := Receipt.qboSync res.1.2 in
  match res.2 with
  | Ok _ =>
      ∃ first,
        Receipt.processingNotes (Receipt.metadata res.1.2)
        = Receipt.processingNotes (Receipt.metadata r)
          ++ first
             :: match Receipt.attachments r with
                | a :: _ =>
                    if truthy_ostr (Receipt.data a)
                       && truthy_ostr (or_str (Receipt.expenseId q) (Receipt.billId q))
                    then [ {| Receipt.timestamp := now;
                              Receipt.message :=
                                "Attachment " +:+ default "null" (Receipt.filename a)
                                  +:+ " ready for upload" |} ]
                    else []
                | [] => []
                end
        ∧ Receipt.timestamp first = now
        ∧ ((statusOf res.1.2 = Receipt.matched
            ∧ ∃ i, Receipt.transactionId q = Some i
                   ∧ Receipt.message first = "Matched to existing transaction #" +:+ i)
           ∨ (statusOf res.1.2 = Receipt.synced
              ∧ ∃ i, Receipt.expenseId q = Some i
                     ∧ Receipt.message first = "Created new expense #" +:+ i))
        ∧ Receipt.syncError q = Receipt.syncError (Receipt.qboSync r)
  | Throw e =>
      (∃ w, postPurchase L w = Throw e)
      ∧ statusOf res.1.2 = Receipt.error
      ∧ Receipt.syncError q = Some e
      ∧ Receipt.transactionId q = Receipt.transactionId (Receipt.qboSync r)
      ∧ Receipt.expenseId q = Receipt.expenseId (Receipt.qboSync r)
      ∧ Receipt.syncedAt q = Receipt.syncedAt (Receipt.qboSync r)
      ∧ Receipt.processingNotes (Receipt.metadata res.1.2)
        = Receipt.processingNotes (Receipt.metadata r)
  end.
Proof.
  destruct (syncReceipt_lookups L now c r) as (c' & r0 & H0 & ->).
  pose proof H0 as (_&_&_&_&_&_&Hatt&Hq&Hmeta&_).
  destruct (Matcher.findMatchingTransaction L r0) as [t|].
  - unfold Uploader.updateTransaction.
    destruct (postPurchase L _) as [p|e] eqn:Hp; cbn [fst snd].
    + cbv zeta.
      set (r1 := Receipt.addProcessingNote now
                   (Receipt.updateSyncStatus now r0 Receipt.matched
                      (Receipt.TransactionId (purchaseId t))) _).
      assert (Receipt.attachments r1 = Receipt.attachments r) as Ha1
        by (rewrite <- Hatt; reflexivity).
      unfold statusOf. rewrite (attached_notes now r1), !(attached_qboSync now r1), Ha1.
      eexists. split_and!.
      * subst r1. simpl. rewrite Hmeta, <- app_assoc. reflexivity.
      * reflexivity.
      * left. split; [reflexivity|]. by eexists.
      * subst r1. simpl. by rewrite Hq.
    + cbv zeta. split; [by eexists|]. unfold statusOf. simpl. rewrite Hq, Hmeta. done.
  - unfold Uploader.createExpense.
    destruct (postPurchase L _) as [p|e] eqn:Hp; cbn [fst snd].
    + cbv zeta.
      set (r1 := Receipt.addProcessingNote now
                   (Receipt.updateSyncStatus now r0 Receipt.synced
                      (Receipt.ExpenseId (purchaseId p))) _).
      assert (Receipt.attachments r1 = Receipt.attachments r) as Ha1
        by (rewrite <- Hatt; reflexivity).
      unfold statusOf. rewrite (attached_notes now r1), !(attached_qboSync now r1), Ha1.
      eexists. split_and!.
      * subst r1. simpl. rewrite Hmeta, <- app_assoc. reflexivity.
      * reflexivity.
      * right. split; [reflexivity|]. by eexists.
      * subst r1. simpl. by rewrite Hq.
    + cbv zeta. split; [by eexists|]. unfold statusOf. simpl. rewrite Hq, Hmeta. done.
Qed.

(** The sample receipt with its invoice attached, synced against the
    quiet ledger: the note of the new expense, then the note of the
    attachment. *)
Lemma sync_notes_and_errors_witness :
  map Receipt.message
    (Receipt.processingNotes
       (Receipt.metadata
          (Uploader.syncReceipt LedgerSamples.quietLedger LedgerSamples.clock
             Matcher.constructor Window.attachedReceipt).1.2))
  = ["Created new expense #900"; "Attachment invoice.pdf ready for upload"].
Proof.
  pose proof (sync_notes_and_errors LedgerSamples.quietLedger LedgerSamples.clock
                Matcher.constructor Window.attachedReceipt) as H.
  cbv zeta in H.
  change (Uploader.syncReceipt LedgerSamples.quietLedger LedgerSamples.clock
            Matcher.constructor Window.attachedReceipt).2 with (Ok (A:=unit) tt) in H.
  destruct H as (first & Hnotes & _ & [(Hm & _) | (_ & i & Hi & Hmsg)] & _).
  - vm_compute in Hm. discriminate Hm.
  - rewrite Hnotes. vm_compute in Hi. injection Hi as <-.
    simpl. rewrite Hmsg. reflexivity.
Defined.

(** The same receipt against the ledger that holds its purchase: it is
    matched, has no expense id, and gets the one note of the match. *)
Example matched_receipt_with_attachment :
  map Receipt.message
    (Receipt.processingNotes
       (Receipt.metadata
          (Uploader.syncReceipt Window.holdsCandidateInWindow LedgerSamples.clock
             Matcher.constructor Window.attachedReceipt).1.2))
  = ["Matched to existing transaction #501"].
Proof. reflexivity. Qed.

End SyncRecordTheorems.

(** ** A purchase query that fails *)

Section QueryFailureTheorems.
Import Qbo Lifecycle SyncSpec.
Local Open Scope Z_scope.

Lemma raw_loop_read r purchases : ∀ best,
  RawReply.loop r best (map Some purchases) = Ok (fold_left (Matcher.step r) purchases best).
Proof. induction purchases as [|t l IH]; intros best; [done|]. simpl. apply IH. Qed.

Lemma raw_loop_null r transactions : ∀ best,
  None ∈ transactions → ∃ e, RawReply.loop r best transactions = Throw e.
Proof.
  induction transactions as [|[t|] l IH]; intros best Hin.
  - by apply elem_of_nil in Hin.
  - simpl. apply IH. by apply elem_of_cons in Hin as [|].
  - by eexists.
Qed.

(** C10.  [findMatchingTransaction] never throws: what the request
    throws, and what the scoring throws on a reply it cannot read, ends in
    [null], and a reply that is read is answered by its best match.  When
    the query the matcher makes for a receipt throws, no match is found and
    the sync goes on to post a new expense for the receipt as the lookups
    left it.  If the ledger accepts the post, the sync returns with the
    status synced, the id of the purchase the ledger created as expense id
    and the time of the sync, and records no error: the failed query leaves
    no trace.  If the ledger refuses the post, the error recorded and
    re-thrown is that of the post. *)
Theorem failed_purchase_query_is_silent L now c r :
  (∀ r',
      (∀ e, RawReply.findMatchingTransaction (Throw e) r' = None)
      ∧ (∀ transactions,
            None ∈ transactions →
            RawReply.findMatchingTransaction (Ok transactions) r' = None)
      ∧ (∀ purchases,
            RawReply.findMatchingTransaction (Ok (map Some purchases)) r'
            = Matcher.findBestMatch purchases r')
      ∧ (∀ L',
            Matcher.findMatchingTransaction L' r'
            = RawReply.findMatchingTransaction
                (RawReply.of_ledger
                   (queryPurchases L' (Window.startDate r') (Window.endDate r'))) r'))
  ∧ (∀ e,
        queryPurchases L (Window.startDate r) (Window.endDate r) = Throw e →
        Matcher.findMatchingTransaction L r = None
        ∧ ∃ r0,
            lookups_only r r0
            ∧ match postPurchase L (NewExpense r0 (Matcher.findCreditCardAccount L)) with
              | Ok expense =>
                  (Uploader.syncReceipt L now c r).2 = Ok tt
                  ∧ statusOf (Uploader.syncReceipt L now c r).1.2 = Receipt.synced
                  ∧ Receipt.expenseId (Receipt.qboSync (Uploader.syncReceipt L now c r).1.2)
                    = Some (purchaseId expense)
                  ∧ Receipt.syncedAt (Receipt.qboSync (Uploader.syncReceipt L now c r).1.2)
                    = Some now
                  ∧ Receipt.syncError (Receipt.qboSync (Uploader.syncReceipt L now c r).1.2)
                    = Receipt.syncError (Receipt.qboSync r)
                  ∧ Receipt.transactionId
                      (Receipt.qboSync (Uploader.syncReceipt L now c r).1.2)
                    = Receipt.transactionId (Receipt.qboSync r)
              | Throw e' =>
                  (Uploader.syncReceipt L now c r).2 = Throw e'
                  ∧ statusOf (Uploader.syncReceipt L now c r).1.2 = Receipt.error
                  ∧ Receipt.syncError (Receipt.qboSync (Uploader.syncReceipt L now c r).1.2)
                    = Some e'
              end).
Proof.
  split.
  - intros r'. split; [done|]. split; [|split].
    + intros transactions Hnull. unfold RawReply.findMatchingTransaction, RawReply.findBestMatch.
      by destruct (raw_loop_null r' transactions (None, 0) Hnull) as [e ->].
    + intros purchases. unfold RawReply.findMatchingTransaction, RawReply.findBestMatch.
      rewrite raw_loop_read. unfold Matcher.findBestMatch.
      by destruct (fold_left (Matcher.step r') purchases (None, 0)).
    + intros L'. unfold Matcher.findMatchingTransaction.
      fold (Window.startDate r'). fold (Window.endDate r').
      destruct (queryPurchases L' (Window.startDate r') (Window.endDate r'))
        as [purchases|e]; [|done].
      unfold RawReply.of_ledger, RawReply.findMatchingTransaction, RawReply.findBestMatch.
      rewrite raw_loop_read. unfold Matcher.findBestMatch.
      by destruct (fold_left (Matcher.step r') purchases (None, 0)).
  - intros e Hquery.
    assert (Matcher.findMatchingTransaction L r = None) as Hnone.
    { unfold Matcher.findMatchingTransaction.
      fold (Window.startDate r). fold (Window.endDate r). by rewrite Hquery. }
    split; [done|].
    destruct (syncReceipt_lookups L now c r) as (c' & r0 & H0 & ->).
    rewrite (findMatchingTransaction_lookups_only L r r0 H0), Hnone.
    pose proof H0 as (_&_&_&_&_&_&_&Hq&_).
    exists r0. split; [done|]. unfold Uploader.createExpense.
    destruct (postPurchase L (NewExpense r0 (Matcher.findCreditCardAccount L)))
      as [expense|e']; cbn [fst snd]; unfold statusOf.
    + rewrite !attached_qboSync. simpl. rewrite Hq. done.
    + simpl. done.
Qed.

(** C10 on the sample receipt, dated 2025-11-23, against the ledger
    whose query from 2025-11-20 to 2025-11-26 fails while it holds the
    purchase of the receipt: the sync posts a new expense and records its
    id. *)
Lemma failed_purchase_query_is_silent_witness :
  Matcher.findMatchingTransaction Window.windowQueryDown Samples.aceReceipt = None
  ∧ statusOf (Uploader.syncReceipt Window.windowQueryDown LedgerSamples.clock
                Matcher.constructor Samples.aceReceipt).1.2 = Receipt.synced
  ∧ Receipt.expenseId
      (Receipt.qboSync (Uploader.syncReceipt Window.windowQueryDown LedgerSamples.clock
                          Matcher.constructor Samples.aceReceipt).1.2) = Some "900".
Proof.
  destruct (failed_purchase_query_is_silent Window.windowQueryDown LedgerSamples.clock
              Matcher.constructor Samples.aceReceipt) as (_ & Hsilent).
  destruct (Hsilent "ThrottleExceeded" eq_refl) as (Hnone & r0 & _ & Hpost).
  split; [exact Hnone|].
  change (postPurchase Window.windowQueryDown
            (NewExpense r0 (Matcher.findCreditCardAccount Window.windowQueryDown)))
    with (Ok (A:=Purchase)
            (LedgerSamples.posted
               (NewExpense r0 (Matcher.findCreditCardAccount Window.windowQueryDown))))
    in Hpost.
  destruct Hpost as (_ & Hstatus & Hid & _). split; [exact Hstatus | exact Hid].
Defined.

End QueryFailureTheorems.

(** ** The accounts of a pipeline run *)

Section PipelineTheorems.
Import Qbo Lifecycle SyncSpec.
Local Open Scope Z_scope.

Lemma syncReceipt_id L now c r :
  Receipt.id (Uploader.syncReceipt L now c r).1.2 = Receipt.id r.
Proof.
  destruct (syncReceipt_lookups L now c r) as (c' & r0 & (Hid & _) & ->).
  rewrite <- Hid.
  destruct (Matcher.findMatchingTransaction L r0) as [t|].
  - destruct (Uploader.updateTransaction L r0 t); cbn [fst snd]; [|done].
    destruct (Receipt.attachments _); [done|].
    by destruct (uploadAttachment_lookups_only now
                   (Receipt.addProcessingNote now
                      (Receipt.updateSyncStatus now r0 Receipt.matched
                         (Receipt.TransactionId (purchaseId t)))
                      ("Matched to existing transaction #" +:+ purchaseId t))) as [-> _].
  - destruct (Uploader.createExpense L r0) as [p|]; cbn [fst snd]; [|done].
    destruct (Receipt.attachments _); [done|].
    by destruct (uploadAttachment_lookups_only now
                   (Receipt.addProcessingNote now
                      (Receipt.updateSyncStatus now r0 Receipt.synced
                         (Receipt.ExpenseId (purchaseId p)))
                      ("Created new expense #" +:+ purchaseId p))) as [-> _].
Qed.

(** A sync re-throws exactly when it leaves the status error. *)
Lemma syncReceipt_error_iff L now c r :
  match (Uploader.syncReceipt L now c r).2 with
  | Ok _ => statusOf (Uploader.syncReceipt L now c r).1.2 ≠ Receipt.error
  | Throw _ => statusOf (Uploader.syncReceipt L now c r).1.2 = Receipt.error
  end.
Proof.
  destruct (syncReceipt_outcome L now c r) as [(-> & [H|H] & _) | (e & w & _ & -> & H & _)];
    rewrite H; done.
Qed.

Lemma syncAll_accounts now receipts : ∀ s c,
  length (Scheduler.syncAll now receipts s c).2 = length receipts
  ∧ map Receipt.id (Scheduler.syncAll now receipts s c).2
    = map (fun p => Receipt.id p.2) receipts
  ∧ Forall (fun r => statusOf r ≠ Receipt.pending) (Scheduler.syncAll now receipts s c).2
  ∧ Scheduler.totalRuns (Scheduler.syncAll now receipts s c).1.1 = Scheduler.totalRuns s
  ∧ Scheduler.totalProcessed (Scheduler.syncAll now receipts s c).1.1
    = Scheduler.totalProcessed s
  ∧ Scheduler.totalErrors (Scheduler.syncAll now receipts s c).1.1
    = Scheduler.totalErrors s
      + Z.of_nat (length (filter (fun r => statusOf r = Receipt.error)
                                 (Scheduler.syncAll now receipts s c).2))
  ∧ Scheduler.totalSynced (Scheduler.syncAll now receipts s c).1.1
    = Scheduler.totalSynced s
      + Z.of_nat (length (filter (fun r => statusOf r ≠ Receipt.error)
                                 (Scheduler.syncAll now receipts s c).2)).
Proof.
  induction receipts as [|[L r] rest IH]; intros s c; simpl.
  { split_and!; try done; simpl; lia. }
  pose proof (syncReceipt_id L now c r) as Hid.
  pose proof (syncReceipt_error_iff L now c r) as Herr.
  pose proof (syncReceipt_not_pending L now c r) as Hnp.
  destruct (Uploader.syncReceipt L now c r) as [[c1 r1] outcome]. simpl in Hid, Herr, Hnp.
  set (s1 := match outcome with Ok _ => _ | Throw _ => _ end).
  specialize (IH s1 c1).
  destruct (Scheduler.syncAll now rest s1 c1) as [[s2 c2] out]. simpl in *.
  destruct IH as (Hl & Hids & Hall & Hruns & Hproc & Herrs & Hsyn).
  rewrite Hl, Hids, Hid, Hruns, Hproc, Herrs, Hsyn.
  split_and!; [done | done | by constructor | by destruct outcome | by destruct outcome | |].
  - destruct outcome; subst s1; simpl.
    + rewrite filter_cons_False by done. lia.
    + rewrite filter_cons_True by done. simpl. lia.
  - destruct outcome; subst s1; simpl.
    + rewrite filter_cons_True by done. simpl. lia.
    + rewrite filter_cons_False by (intros ?; done). lia.
Qed.

(** X11.  An authenticated run over the receipts the mail gave accounts for
    every one of them: it answers as many receipts, in the order and under
    the ids they came with, none of them pending; it counts one run and
    the receipts as processed, one error for each receipt left in error
    and one sync for each other receipt. *)
Theorem pipeline_accounts_for_every_receipt cy sch c receipts :
  Scheduler.isRunning sch = false →
  Scheduler.gmailAuth cy = Ok true →
  Scheduler.qboAuth cy = Ok true →
  Scheduler.processNewEmails cy = Ok receipts →
  let res := Scheduler.runPipeline cy sch c in
  let out := res.2 in
  let before := Scheduler.stats sch in
  let after := Scheduler.stats res.1.1 in
  length out = length receipts
  ∧ map Receipt.id out = map (fun p => Receipt.id p.2) receipts
  ∧ Forall (fun r => statusOf r ≠ Receipt.pending) out
  ∧ Scheduler.totalRuns after = Scheduler.totalRuns before + 1
  ∧ Scheduler.totalProcessed after
    = Scheduler.totalProcessed before + Z.of_nat (length receipts)
  ∧ Scheduler.totalErrors after
    = Scheduler.totalErrors before
      + Z.of_nat (length (filter (fun r => statusOf r = Receipt.error) out))
  ∧ Scheduler.totalSynced after
    = Scheduler.totalSynced before
      + Z.of_nat (length (filter (fun r => statusOf r ≠ Receipt.error) out))
  ∧ Scheduler.isRunning res.1.1 = false
  ∧ Scheduler.lastRun res.1.1 = Some (Scheduler.now cy).
Proof.
  intros Hrun Hg Hq Hp. unfold Scheduler.runPipeline, Scheduler.cycleBody.
  rewrite Hrun, Hg, Hq, Hp. cbn [negb].
  destruct receipts as [|p rest]; [cbn; split_and!; try done; lia|].
  set (s := Scheduler.Build_Stats _ _ _ _).
  pose proof (syncAll_accounts (Scheduler.now cy) (p :: rest) s c) as H.
  destruct (Scheduler.syncAll _ (p :: rest) s c) as [[s' c'] out].
  cbn [fst snd] in H. destruct H as (?&?&?&Hr&Hpr&He&Hs).
  subst s. cbn in Hr, Hpr, He, Hs |- *. rewrite Hr, Hpr, He, Hs.
  split_and!; done.
Qed.

(** The first cycle of the sample process. *)
Lemma pipeline_accounts_for_every_receipt_witness :
  length LedgerSamples.afterFirstCycle.2 = 1%nat
  ∧ Scheduler.totalSynced (Scheduler.stats LedgerSamples.afterFirstCycle.1.1) = 1.
Proof.
  destruct (pipeline_accounts_for_every_receipt (LedgerSamples.cycleWithAce "34")
              Scheduler.constructor Matcher.constructor
              [(LedgerSamples.aceIs "34", Samples.aceReceipt)]
              eq_refl eq_refl eq_refl eq_refl) as (Hl & _ & _ & _ & _ & _ & Hs & _).
  split; [exact Hl | reflexivity].
Defined.

(** X12.  A run asked for while another is going on does nothing at all.  A run
    without the mail or the ledger authenticated counts as a run, looks at
    no mail, syncs nothing and counts no error; the caches are as
    before. *)
Theorem pipeline_guards cy sch c :
  (Scheduler.isRunning sch = true → Scheduler.runPipeline cy sch c = (sch, c, []))
  ∧ (Scheduler.isRunning sch = false →
     (∃ qboOk, Scheduler.gmailAuth cy = Ok false ∧ Scheduler.qboAuth cy = Ok qboOk)
     ∨ (Scheduler.gmailAuth cy = Ok true ∧ Scheduler.qboAuth cy = Ok false) →
     Scheduler.runPipeline cy sch c
     = ({| Scheduler.isRunning := false;
           Scheduler.lastRun := Some (Scheduler.now cy);
           Scheduler.stats :=
             {| Scheduler.totalRuns := Scheduler.totalRuns (Scheduler.stats sch) + 1;
                Scheduler.totalProcessed := Scheduler.totalProcessed (Scheduler.stats sch);
                Scheduler.totalSynced := Scheduler.totalSynced (Scheduler.stats sch);
                Scheduler.totalErrors := Scheduler.totalErrors (Scheduler.stats sch) |} |},
        c, [])).
Proof.
  unfold Scheduler.runPipeline, Scheduler.cycleBody. split.
  - by intros ->.
  - intros -> [(qboOk & -> & ->) | (-> & ->)]; reflexivity.
Qed.

(** A run asked for while the first cycle of the sample process is going
    on. *)
Lemma pipeline_guards_witness :
  Scheduler.runPipeline (LedgerSamples.cycleWithAce "34")
    {| Scheduler.isRunning := true; Scheduler.lastRun := Some LedgerSamples.clock;
       Scheduler.stats := Scheduler.stats Scheduler.constructor |}
    Matcher.constructor
  = ({| Scheduler.isRunning := true; Scheduler.lastRun := Some LedgerSamples.clock;
        Scheduler.stats := Scheduler.stats Scheduler.constructor |},
     Matcher.constructor, []).
Proof.
  apply (proj1 (pipeline_guards (LedgerSamples.cycleWithAce "34")
                  {| Scheduler.isRunning := true; Scheduler.lastRun := Some LedgerSamples.clock;
                     Scheduler.stats := Scheduler.stats Scheduler.constructor |}
                  Matcher.constructor)).
  reflexivity.
Defined.

End PipelineTheorems.

(** ** What the generic parser answers *)

Section GenericTheorems.
Import Text Helpers Parsers GenericHtml DatedSamples.
Local Open Scope Z_scope.

Lemma label_with_total_and_date (result : Parsed) :
  JS.truthy_onum (total result) = true →
  JS.truthy_ostr (date result) = true →
  GenericParser.calculateConfidence result ≠ low
  ∧ (GenericParser.calculateConfidence result = high
     ↔ JS.truthy_ostr (orderNumber result) = true
       ∨ JS.truthy_ostr (invoiceNumber result) = true
       ∨ JS.truthy_ostr (cardLast4 result) = true
       ∨ lineItems result ≠ []).
Proof.
  intros Ht Hd.
  unfold GenericParser.calculateConfidence, GenericParser.confidenceScore.
  rewrite Ht, Hd.
  destruct (JS.truthy_ostr (orderNumber result)), (JS.truthy_ostr (invoiceNumber result)),
    (JS.truthy_ostr (cardLast4 result)), (lineItems result); simpl;
    (split; [discriminate|]); split;
    first [ discriminate
          | intros _; first [by left | by right; left | by right; right; left
                            | by right; right; right]
          | intros [?|[?|[?|?]]]; done ].
Qed.

(** X13.  The generic parser never answers a result labeled low: a result it
    answers, from text or from HTML, has a total and a date, so it is
    labeled medium, and high exactly when it also has an order or invoice
    number, a card number or a line item. *)
Theorem generic_parser_never_answers_low T :
  (∀ text sourceType vendor result,
      GenericParser.parse T text sourceType vendor = Some result →
      confidence result ≠ low
      ∧ (confidence result = high
         ↔ JS.truthy_ostr (orderNumber result) = true
           ∨ JS.truthy_ostr (invoiceNumber result) = true
           ∨ JS.truthy_ostr (cardLast4 result) = true
           ∨ lineItems result ≠ []))
  ∧ (∀ html extracted vendor result,
        parseHtml T html extracted vendor = Some result →
        confidence result ≠ low
        ∧ (confidence result = high
           ↔ JS.truthy_ostr (orderNumber result) = true
             ∨ JS.truthy_ostr (invoiceNumber result) = true
             ∨ JS.truthy_ostr (cardLast4 result) = true
             ∨ lineItems result ≠ [])).
Proof.
  split.
  - intros text sourceType vendor result H. unfold GenericParser.parse in H.
    destruct (_ && _) eqn:Hb; [|discriminate]. injection H as <-.
    apply andb_true_iff in Hb as [Ht Hd].
    unfold GenericParser.extract in *. cbn [set_confidence confidence total date
      orderNumber invoiceNumber cardLast4 lineItems] in *.
    by apply (label_with_total_and_date (Build_Parsed _ _ _ _ _ _ _ _ _ _ _ _ _)).
  - intros html extracted vendor result H. unfold parseHtml in H.
    destruct (_ && _) eqn:Hb; [|discriminate]. injection H as <-.
    apply andb_true_iff in Hb as [Ht Hd].
    unfold extractHtml in *. cbn [set_confidence confidence total date
      orderNumber invoiceNumber cardLast4 lineItems] in *.
    by apply (label_with_total_and_date (Build_Parsed _ _ _ _ _ _ _ _ _ _ _ _ _)).
Qed.

(** The text with a date and a total is answered with the label medium. *)
Lemma generic_parser_never_answers_low_witness :
  ∃ result,
    GenericParser.parse DatedSamples.datedEnv DatedSamples.datedText "text" None = Some result
    ∧ confidence result ≠ low.
Proof.
  eexists. split; [reflexivity|].
  apply (proj1 (generic_parser_never_answers_low DatedSamples.datedEnv)
           DatedSamples.datedText "text" None).
  reflexivity.
Defined.

Lemma omap_length_le {A B} (f : A → option B) (l : list A) :
  (length (omap f l) ≤ length l)%nat.
Proof.
  induction l as [|a l IH]; [done|]. cbn. destruct (f a); simpl; lia.
Qed.

(** X14.  The line items read from text are at most 50 and at most one a line,
    for the generic parser and for the Alpha Supply parser.  Those of the
    generic parser have the quantity 1, no unit price and no stock number,
    and a description that does not start like a summary line. *)
Theorem text_line_items_are_capped T text :
  (length (GenericParser.extractLineItems T text) ≤ 50)%nat
  ∧ (length (GenericParser.extractLineItems T text) ≤ length (JS.split_lines text))%nat
  ∧ (length (AlphaSupplyParser.extractLineItems T text) ≤ 50)%nat
  ∧ (length (AlphaSupplyParser.extractLineItems T text) ≤ length (JS.split_lines text))%nat
  ∧ (∀ it, it ∈ GenericParser.extractLineItems T text →
       Receipt.quantity it = Some 1
       ∧ Receipt.unitPrice it = None
       ∧ Receipt.sku it = None
       ∧ ∃ d, Receipt.description it = Some d ∧ test T summaryLine d = false).
Proof.
  unfold GenericParser.extractLineItems, AlphaSupplyParser.extractLineItems.
  split_and!.
  - rewrite length_take. lia.
  - rewrite length_take. etrans; [apply Nat.le_min_r | apply omap_length_le].
  - rewrite length_take. lia.
  - rewrite length_take. etrans; [apply Nat.le_min_r | apply omap_length_le].
  - intros it Hit. apply elem_of_take in Hit as (i & Hit & _).
    apply list_elem_of_lookup_2 in Hit.
    apply list_elem_of_omap in Hit as (line & _ & Hline).
    destruct (str_match T line GenericParser.simpleLine) as [g|]; [|discriminate].
    destruct (test T summaryLine _) eqn:Hs; [discriminate|].
    injection Hline as <-. simpl. split_and!; try done. by eexists.
Qed.


Lemma scanCell_description T row : ∀ st d,
  (fold_left (scanCell T) row st).2 = Some d →
  st.2 = Some d
  ∨ (d ∈ row ∧ (3 < String.length d)%nat ∧ str_match T d priceCell = None).
Proof.
  induction row as [|cell row IH]; intros st d H; [by left|].
  simpl in H. apply IH in H as [H|(Hin & Hd)].
  - unfold scanCell in H. destruct (str_match T cell priceCell) eqn:Hm; [by left|].
    destruct (bool_decide _ && _) eqn:Hb; [|by left].
    simpl in H. injection H as ->. right.
    apply andb_true_iff in Hb as [Hb _]. apply bool_decide_eq_true in Hb.
    split_and!; [apply elem_of_cons; by left | done | done].
  - right. split; [apply elem_of_cons; by right | done].
Qed.

(** X15.  The line items read from the tables of an HTML mail are at most 50.
    Each comes from a row after the first of its table, with the quantity
    1, a price that is not zero, and for description a cell of that row
    longer than three characters in which no price was found. *)
Theorem table_line_items_come_from_data_rows T tables :
  (length (extractLineItemsFromTables T tables) ≤ 50)%nat
  ∧ (∀ it, it ∈ extractLineItemsFromTables T tables →
       ∃ rows row d,
         rows ∈ tables ∧ row ∈ drop 1 rows ∧ d ∈ row
         ∧ Receipt.description it = Some d
         ∧ (3 < String.length d)%nat
         ∧ str_match T d priceCell = None
         ∧ JS.truthy_onum (Receipt.totalPrice it) = true
         ∧ Receipt.quantity it = Some 1).
Proof.
  unfold extractLineItemsFromTables. split; [rewrite length_take; lia|].
  intros it Hit. apply elem_of_take in Hit as (i & Hit & _).
  apply list_elem_of_lookup_2 in Hit.
  apply list_elem_of_In, in_concat in Hit as (items & Hitems & Hit).
  apply in_map_iff in Hitems as (rows & <- & Hrows).
  apply list_elem_of_In in Hit, Hrows.
  unfold itemsOfTable in Hit. destruct (bool_decide _); [by apply elem_of_nil in Hit|].
  apply list_elem_of_omap in Hit as (row & Hrow & Hitem).
  unfold itemOfRow in Hitem. destruct (bool_decide _); [discriminate|].
  destruct (fold_left (scanCell T) row (None, None)) as [price description] eqn:Hfold.
  destruct description as [d|]; [|discriminate].
  destruct (JS.truthy_str d && JS.truthy_onum price) eqn:Hb; [|discriminate].
  injection Hitem as <-. apply andb_true_iff in Hb as [_ Hp].
  destruct (scanCell_description T row (None, None) d) as [H|(Hin & Hlen & Hno)];
    [by rewrite Hfold | discriminate |].
  exists rows, row, d. split_and!; done.
Qed.

(** *** The fallback date *)

Lemma insert_sorted_elem a l x :
  x ∈ GenericParser.insert_sorted a l ↔ x = a ∨ x ∈ l.
Proof.
  induction l as [|b l IH]; simpl.
  - rewrite list_elem_of_singleton, elem_of_nil. tauto.
  - destruct (GenericParser.byDateDesc a b) as [c|]; [destruct (0 <? c)|];
      rewrite ?elem_of_cons, ?IH; rewrite ?elem_of_cons; tauto.
Qed.

Lemma sortDates_elem l x : x ∈ GenericParser.sortDates l ↔ x ∈ l.
Proof.
  induction l as [|a l IH]; simpl; [done|].
  rewrite insert_sorted_elem, elem_of_cons, IH. tauto.
Qed.

Lemma insert_sorted_head a l :
  is_Some (Dayjs.parse a) →
  (∀ d, d ∈ l → is_Some (Dayjs.parse d)) →
  (∀ m, head l = Some m → ∀ d, d ∈ l → dayOf d ≤ dayOf m) →
  ∀ m, head (GenericParser.insert_sorted a l) = Some m →
       ∀ d, d ∈ a :: l → dayOf d ≤ dayOf m.
Proof.
  intros [za Ha] Hall Hmax m Hm d Hd.
  destruct l as [|b l]; simpl in Hm.
  { injection Hm as <-. apply list_elem_of_singleton in Hd. subst. lia. }
  destruct (Hall b ltac:(apply elem_of_cons; by left)) as [zb Hb].
  unfold GenericParser.byDateDesc, Dayjs.diff in Hm. rewrite Ha, Hb in Hm. simpl in Hm.
  specialize (Hmax b eq_refl).
  assert (dayOf a = za) as Hza by (unfold dayOf; by rewrite Ha).
  assert (dayOf b = zb) as Hzb by (unfold dayOf; by rewrite Hb).
  destruct (0 <? zb - za) eqn:Hc; simpl in Hm; injection Hm as <-.
  - apply Z.ltb_lt in Hc. apply elem_of_cons in Hd as [->|Hd]; [lia | by apply Hmax].
  - apply Z.ltb_ge in Hc. apply elem_of_cons in Hd as [->|Hd]; [lia|].
    specialize (Hmax d Hd). lia.
Qed.

Lemma sortDates_head l :
  (∀ d, d ∈ l → is_Some (Dayjs.parse d)) →
  ∀ m, head (GenericParser.sortDates l) = Some m → ∀ d, d ∈ l → dayOf d ≤ dayOf m.
Proof.
  induction l as [|a l IH]; intros Hall m Hm d Hd; [by apply elem_of_nil in Hd|].
  simpl in Hm.
  apply (insert_sorted_head a (GenericParser.sortDates l)); try done.
  - apply Hall. apply elem_of_cons. by left.
  - intros x Hx. apply Hall. apply elem_of_cons. right. by apply sortDates_elem.
  - intros m' Hm' x Hx. apply IH; [|done|by apply sortDates_elem].
    intros y Hy. apply Hall. apply elem_of_cons. by right.
  - apply elem_of_cons in Hd as [->|Hd]; apply elem_of_cons; [by left|].
    right. by apply sortDates_elem.
Qed.

(** X16.  When the date parser answers dates of the shape [YYYY-MM-DD], the
    fallback date of the generic parser is the latest of the dates found in
    the text: it was parsed from a match of one of the three date patterns,
    and no match parses to a later day.  It is [null] only when no match
    parses. *)
Theorem fallback_date_is_the_latest T text :
  (∀ s d, parseDate T s = Some d → is_Some (Dayjs.parse d)) →
  match GenericParser.extractMostRecentDate T text with
  | Some m =>
      (∃ pattern g, pattern ∈ GenericParser.datePatterns ∧ g ∈ exec_all T pattern text
                    ∧ parseDate T (group 1 g) = Some m)
      ∧ (∀ pattern g d, pattern ∈ GenericParser.datePatterns → g ∈ exec_all T pattern text →
           parseDate T (group 1 g) = Some d →
           ∃ zd zm, Dayjs.parse d = Some zd ∧ Dayjs.parse m = Some zm ∧ zd ≤ zm)
  | None =>
      ∀ pattern g, pattern ∈ GenericParser.datePatterns → g ∈ exec_all T pattern text →
                   parseDate T (group 1 g) = None
  end.
Proof.
  intros Hcanon. unfold GenericParser.extractMostRecentDate.
  set (dates := concat _).
  assert (∀ d, d ∈ dates ↔
               ∃ pattern g, pattern ∈ GenericParser.datePatterns ∧ g ∈ exec_all T pattern text
                            ∧ parseDate T (group 1 g) = Some d) as Hdates.
  { intros d. subst dates. rewrite list_elem_of_In, in_concat. split.
    - intros (l & Hl & Hd). apply in_map_iff in Hl as (pattern & <- & Hp).
      apply list_elem_of_In, list_elem_of_omap in Hd as (g & Hg & Hd).
      exists pattern, g. split_and!; [by apply list_elem_of_In | done | done].
    - intros (pattern & g & Hp & Hg & Hd). eexists. split.
      + apply in_map_iff. exists pattern. split; [done | by apply list_elem_of_In].
      + apply list_elem_of_In, list_elem_of_omap. exists g. split; [exact Hg | exact Hd]. }
  assert (∀ d, d ∈ dates → is_Some (Dayjs.parse d)) as Hall.
  { intros d Hd. apply Hdates in Hd as (pattern & g & _ & _ & Hd). by eapply Hcanon. }
  destruct (head (GenericParser.sortDates dates)) as [m|] eqn:Hm.
  - assert (m ∈ dates) as Hin.
    { apply sortDates_elem. destruct (GenericParser.sortDates dates); [done|].
      injection Hm as ->. apply elem_of_cons. by left. }
    split; [by apply Hdates|].
    intros pattern g d Hp Hg Hd.
    assert (d ∈ dates) as Hdin by (apply Hdates; by exists pattern, g).
    pose proof (sortDates_head dates Hall m Hm d Hdin) as Hle.
    destruct (Hall d Hdin) as [zd Hzd]. destruct (Hall m Hin) as [zm Hzm].
    exists zd, zm. unfold dayOf in Hle. rewrite Hzd, Hzm in Hle. done.
  - intros pattern g Hp Hg.
    destruct (parseDate T (group 1 g)) as [d|] eqn:Hd; [|done].
    assert (d ∈ dates) as Hdin by (apply Hdates; by exists pattern, g).
    apply sortDates_elem in Hdin.
    destruct (GenericParser.sortDates dates); [by apply elem_of_nil in Hdin | done].
Qed.

Lemma datedEnv_canonical s d :
  parseDate DatedSamples.datedEnv s = Some d → is_Some (Dayjs.parse d).
Proof.
  unfold parseDate. destruct s as [s|]; [|discriminate].
  destruct (JS.truthy_str s); [|discriminate].
  cbn. unfold DatedSamples.strictDate. cbn.
  destruct (decide (s = "11/23/2025")); [intros [= <-]; by eexists|].
  destruct (decide (s = "11/20/2025")); [intros [= <-]; by eexists|].
  discriminate.
Qed.

(** Of the two dates of the sample text the later one is answered. *)
Lemma fallback_date_is_the_latest_witness :
  GenericParser.extractMostRecentDate DatedSamples.datedEnv DatedSamples.twoDatesText
  = Some "2025-11-23"
  ∧ ∃ pattern g, pattern ∈ GenericParser.datePatterns
                 ∧ g ∈ exec_all DatedSamples.datedEnv pattern DatedSamples.twoDatesText
                 ∧ parseDate DatedSamples.datedEnv (group 1 g) = Some "2025-11-23".
Proof.
  split; [reflexivity|].
  exact (proj1 (fallback_date_is_the_latest DatedSamples.datedEnv DatedSamples.twoDatesText
                  datedEnv_canonical)).
Defined.

End GenericTheorems.

(** ** The fallback total *)

Section AmountOrder.
Import Text Helpers Parsers.

Lemma positive_cases x :
  PrimFloat.ltb 0%float x = true →
  Prim2SF x = S754_infinity false ∨ ∃ m e, Prim2SF x = S754_finite false m e.
Proof.
  rewrite FloatAxioms.ltb_spec. change (Prim2SF 0%float) with (S754_zero false).
  destruct (Prim2SF x) as [s|s| |s m e]; unfold SFltb; simpl;
    try destruct s; try discriminate; intros _; [by left | right; by eexists _, _].
Qed.

Lemma not_positive_cases x :
  PrimFloat.ltb 0%float x = false →
  (∃ s, Prim2SF x = S754_zero s) ∨ Prim2SF x = S754_nan
  ∨ Prim2SF x = S754_infinity true ∨ ∃ m e, Prim2SF x = S754_finite true m e.
Proof.
  rewrite FloatAxioms.ltb_spec. change (Prim2SF 0%float) with (S754_zero false).
  destruct (Prim2SF x) as [s|s| |s m e]; unfold SFltb; simpl;
    try destruct s; try discriminate; intros _; eauto 6.
Qed.

Lemma SFltb_finite m1 e1 m2 e2 :
  SFltb (S754_finite false m1 e1) (S754_finite false m2 e2)
  = ((e1 <? e2)%Z || ((e1 =? e2)%Z && (m1 <? m2)%positive)).
Proof.
  unfold SFltb. simpl. change (Pos.compare_cont Eq m1 m2) with (Pos.compare m1 m2).
  unfold Pos.ltb.
  destruct (Z.compare_spec e1 e2), (Z.ltb_spec e1 e2), (Z.eqb_spec e1 e2);
    try lia; simpl; by destruct (m1 ?= m2)%positive.
Qed.

(** On positive numbers [<] is a strict total order. *)
Lemma ltb_positive_order x y z :
  PrimFloat.ltb 0%float x = true → PrimFloat.ltb 0%float y = true →
  PrimFloat.ltb 0%float z = true →
  PrimFloat.ltb x x = false
  ∧ (PrimFloat.ltb x y = true → PrimFloat.ltb y z = true → PrimFloat.ltb x z = true)
  ∧ (PrimFloat.ltb x y = false → PrimFloat.ltb y z = false → PrimFloat.ltb x z = false).
Proof.
  intros Hx Hy Hz. rewrite !FloatAxioms.ltb_spec.
  destruct (positive_cases x Hx) as [->|(mx & ex & ->)],
    (positive_cases y Hy) as [->|(my & ey & ->)],
    (positive_cases z Hz) as [->|(mz & ez & ->)];
    rewrite ?SFltb_finite;
    (split_and!; [| intros H1 H2 | intros H1 H2]);
    first [ reflexivity | discriminate H1 | discriminate H2 | idtac ];
    repeat match goal with
      | |- context [(?a <? ?b)%Z] => destruct (Z.ltb_spec a b)
      | |- context [(?a =? ?b)%Z] => destruct (Z.eqb_spec a b)
      | |- context [(?a <? ?b)%positive] => destruct (Pos.ltb_spec a b)
      | H : context [(?a <? ?b)%Z] |- _ => destruct (Z.ltb_spec a b)
      | H : context [(?a =? ?b)%Z] |- _ => destruct (Z.eqb_spec a b)
      | H : context [(?a <? ?b)%positive] |- _ => destruct (Pos.ltb_spec a b)
      end; simpl in *; try done; lia.
Qed.

Lemma ltb_below_positive x y :
  PrimFloat.ltb 0%float x = true → PrimFloat.ltb 0%float y = false →
  PrimFloat.ltb x y = false.
Proof.
  intros Hx Hy. rewrite FloatAxioms.ltb_spec.
  destruct (positive_cases x Hx) as [->|(mx & ex & ->)],
    (not_positive_cases y Hy) as [[s ->]|[->|[->|(my & ey & ->)]]]; reflexivity.
Qed.

Lemma ltb_neg_infinity x :
  PrimFloat.ltb 0%float x = true → PrimFloat.ltb neg_infinity x = true.
Proof.
  intros Hx. rewrite FloatAxioms.ltb_spec.
  change (Prim2SF neg_infinity) with (S754_infinity true).
  by destruct (positive_cases x Hx) as [->|(mx & ex & ->)].
Qed.

Lemma fold_max_spec l : ∀ acc,
  PrimFloat.ltb 0%float acc = true →
  (∀ x, x ∈ l → PrimFloat.ltb 0%float x = true) →
  let r := fold_left (fun acc x => if PrimFloat.ltb acc x then x else acc) l acc in
  r ∈ acc :: l
  ∧ PrimFloat.ltb r acc = false
  ∧ (∀ y, y ∈ l → PrimFloat.ltb r y = false).
Proof.
  induction l as [|a l IH]; intros acc Hacc Hl; simpl.
  { split_and!; [apply elem_of_cons; by left | | intros y Hy; by apply elem_of_nil in Hy].
    by destruct (ltb_positive_order acc acc acc) as (? & _). }
  assert (PrimFloat.ltb 0%float a = true) as Ha by (apply Hl, elem_of_cons; by left).
  assert (∀ x, x ∈ l → PrimFloat.ltb 0%float x = true) as Hl'
    by (intros x Hx; apply Hl, elem_of_cons; by right).
  set (acc' := if PrimFloat.ltb acc a then a else acc).
  assert (PrimFloat.ltb 0%float acc' = true) as Hacc'
    by (subst acc'; by destruct (PrimFloat.ltb acc a)).
  destruct (IH acc' Hacc' Hl') as (Hin & Hge & Hall).
  set (r := fold_left _ l acc') in *.
  assert (PrimFloat.ltb 0%float r = true) as Hr.
  { apply elem_of_cons in Hin as [->|Hin]; [done | by apply Hl']. }
  assert (PrimFloat.ltb r acc = false ∧ PrimFloat.ltb r a = false) as [H1 H2].
  { subst acc'. destruct (PrimFloat.ltb acc a) eqn:Hc.
    - split; [|done].
      destruct (PrimFloat.ltb r acc) eqn:Hra; [|done].
      destruct (ltb_positive_order r acc a) as (_ & Ht & _); try done.
      rewrite Ht in Hge; done.
    - split; [done|].
      by destruct (ltb_positive_order r acc a) as (_ & _ & Ht); try apply Ht. }
  split_and!; [| done |].
  - apply elem_of_cons in Hin as [->|Hin].
    + subst acc'. destruct (PrimFloat.ltb acc a); rewrite !elem_of_cons; tauto.
    + rewrite !elem_of_cons; tauto.
  - intros y Hy. apply elem_of_cons in Hy as [->|Hy]; [done | by apply Hall].
Qed.

Lemma Math_max_positive a l :
  (∀ x, x ∈ a :: l → PrimFloat.ltb 0%float x = true) →
  JS.Math_max (a :: l) ∈ a :: l
  ∧ (∀ y, y ∈ a :: l → PrimFloat.ltb (JS.Math_max (a :: l)) y = false).
Proof.
  intros Hall. unfold JS.Math_max. simpl.
  assert (PrimFloat.ltb 0%float a = true) as Ha by (apply Hall, elem_of_cons; by left).
  rewrite (ltb_neg_infinity a Ha).
  destruct (fold_max_spec l a Ha) as (Hin & Hge & Hrest).
  { intros x Hx. apply Hall, elem_of_cons. by right. }
  split; [done|]. intros y Hy. apply elem_of_cons in Hy as [->|Hy]; [done | by apply Hrest].
Qed.

(** X17.  The fallback total of the generic parser is the largest of the
    amounts found in the text: it is positive, it was parsed from a match of
    the amount pattern, and no match parses to a larger number.  It is
    [null] only when no match parses to a positive number. *)
Theorem fallback_total_is_the_largest_amount T text :
  match GenericParser.extractLargestAmount T text with
  | Some x =>
      PrimFloat.ltb 0%float x = true
      ∧ (∃ g, g ∈ exec_all T GenericParser.amountPattern text ∧ currency_of 1 g = Some x)
      ∧ (∀ g y, g ∈ exec_all T GenericParser.amountPattern text →
                currency_of 1 g = Some y → PrimFloat.ltb x y = false)
  | None =>
      ∀ g y, g ∈ exec_all T GenericParser.amountPattern text →
             currency_of 1 g = Some y → PrimFloat.ltb 0%float y = false
  end.
Proof.
  unfold GenericParser.extractLargestAmount.
  set (amounts := omap _ _).
  assert (∀ x, x ∈ amounts ↔
               ∃ g, g ∈ exec_all T GenericParser.amountPattern text
                    ∧ currency_of 1 g = Some x ∧ PrimFloat.ltb 0%float x = true) as Hamounts.
  { intros x. subst amounts. rewrite list_elem_of_omap. split.
    - intros (g & Hg & H). exists g. destruct (currency_of 1 g) as [y|]; [|discriminate].
      destruct (PrimFloat.ltb 0%float y) eqn:Hy; [|discriminate]. by injection H as ->.
    - intros (g & Hg & Hc & Hpos). exists g. split; [done|]. by rewrite Hc, Hpos. }
  destruct amounts as [|a l] eqn:Ha.
  - intros g y Hg Hy. destruct (PrimFloat.ltb 0%float y) eqn:Hpos; [|done].
    assert (y ∈ @nil float) as H by (apply Hamounts; by exists g).
    by apply elem_of_nil in H.
  - assert (∀ x, x ∈ a :: l → PrimFloat.ltb 0%float x = true) as Hall.
    { intros x Hx. by apply Hamounts in Hx as (g & _ & _ & Hpos). }
    destruct (Math_max_positive a l Hall) as (Hin & Hmax).
    split_and!.
    + by apply Hall.
    + apply Hamounts in Hin as (g & Hg & Hc & _). by exists g.
    + intros g y Hg Hy. destruct (PrimFloat.ltb 0%float y) eqn:Hpos.
      * apply Hmax. apply Hamounts. by exists g.
      * apply ltb_below_positive; [by apply Hall | done].
Qed.

End AmountOrder.

(** ** The utility helpers *)

Section CurrencyTheorems.
Import Helpers.

Lemma SFeqb_refl_finite s m e : SFeqb (S754_finite s m e) (S754_finite s m e) = true.
Proof.
  unfold SFeqb. simpl. rewrite Z.compare_refl, Pos.compare_cont_refl. by destruct s.
Qed.

(** A number that is below or above another is not [NaN]. *)
Lemma ltb_not_nan a b :
  PrimFloat.ltb a b = true → isNaN a = false ∧ isNaN b = false.
Proof.
  unfold isNaN. rewrite FloatAxioms.ltb_spec, !FloatAxioms.eqb_spec.
  destruct (Prim2SF a) as [sa|sa| |sa ma ea], (Prim2SF b) as [sb|sb| |sb mb eb];
    try discriminate; intros _; rewrite ?SFeqb_refl_finite;
    repeat match goal with s : bool |- _ => destruct s end; done.
Qed.

Lemma strip_currency_idem s : strip_currency (strip_currency s) = strip_currency s.
Proof.
  unfold strip_currency. rewrite list_ascii_of_string_of_list_ascii.
  f_equal. induction (list_ascii_of_string s) as [|c l IH]; [done|].
  rewrite (filter_cons _ c l). destruct (decide _) as [Hc|Hc]; [|done].
  rewrite filter_cons_True by done. by rewrite IH.
Qed.

(** X18.  [parseCurrency] reads through dollar signs, commas and white space:
    two strings that differ only in them are read alike, so a string is
    read as the string stripped of them is.  What it answers is never
    [NaN]: a string without a number and the numbers [0] and [NaN] give
    [null]. *)
Theorem parseCurrency_reads_through_separators :
  (∀ s s', strip_currency s = strip_currency s' →
           parseCurrency (ArgStr s) = parseCurrency (ArgStr s'))
  ∧ (∀ s, parseCurrency (ArgStr (strip_currency s)) = parseCurrency (ArgStr s))
  ∧ (∀ a x, parseCurrency a = Some x → isNaN x = false).
Proof.
  assert (∀ s, parseCurrency (ArgStr s)
               = if isNaN (JS.parseFloat (strip_currency s)) then None
                 else Some (JS.parseFloat (strip_currency s))) as Hread.
  { intros s. unfold parseCurrency. destruct s; [reflexivity|]. reflexivity. }
  split_and!.
  - intros s s' H. by rewrite !Hread, H.
  - intros s. by rewrite !Hread, strip_currency_idem.
  - intros [|s|x] y; [discriminate| |].
    + rewrite Hread. destruct (isNaN _) eqn:Hn; [discriminate|]. by intros [= <-].
    + unfold parseCurrency, JS.truthy_num.
      destruct (PrimFloat.ltb x 0%float) eqn:H1; simpl.
      * intros [= <-]. by destruct (ltb_not_nan _ _ H1).
      * destruct (PrimFloat.ltb 0%float x) eqn:H2; [|discriminate].
        intros [= <-]. by destruct (ltb_not_nan _ _ H2).
Qed.

(** An amount written with a dollar sign and a comma. *)
Lemma parseCurrency_reads_through_separators_witness :
  parseCurrency (ArgStr "$1,234.50") = parseCurrency (ArgStr "1234.50").
Proof.
  apply (proj1 parseCurrency_reads_through_separators). reflexivity.
Defined.

End CurrencyTheorems.

Section NormalizeTheorems.
Import Normalize.

Lemma collapse_spaces l : ∀ b c,
  c ∈ collapse b l → JS.is_space c = true → c = " "%char.
Proof.
  induction l as [|a l IH]; intros b c Hc Hs; simpl in Hc; [by apply elem_of_nil in Hc|].
  destruct (JS.is_space a) eqn:Ha.
  - destruct b; [by eapply IH|].
    apply elem_of_cons in Hc as [->|Hc]; [done | by eapply IH].
  - apply elem_of_cons in Hc as [->|Hc]; [congruence | by eapply IH].
Qed.

Lemma collapse_length l : ∀ b, length (collapse b l) ≤ length l.
Proof.
  induction l as [|a l IH]; intros b; simpl; [lia|].
  pose proof (IH true). pose proof (IH false).
  destruct (JS.is_space a); [destruct b|]; simpl; lia.
Qed.

Lemma drop_spaces_length l : length (JS.drop_spaces l) ≤ length l.
Proof. induction l as [|a l IH]; simpl; [lia|]. destruct (JS.is_space a); simpl; lia. Qed.

Lemma string_length_list s : String.length s = length (list_ascii_of_string s).
Proof. induction s as [|c s IH]; simpl; [done | by rewrite IH]. Qed.

Lemma trim_length s : String.length (JS.trim s) ≤ String.length s.
Proof.
  unfold JS.trim. rewrite !string_length_list, list_ascii_of_string_of_list_ascii.
  rewrite length_rev.
  etrans; [apply drop_spaces_length|]. rewrite length_rev. apply drop_spaces_length.
Qed.

(** X19.  A normalized vendor name holds only letters, digits, underscores,
    plain spaces, hyphens and apostrophes (a tab or a line break has become
    a space), and is no longer than the name given. *)
Theorem normalized_name_alphabet name out :
  normalizeVendorName name = Some out →
  (∀ c, c ∈ list_ascii_of_string out →
        is_word c = true ∨ c = " "%char ∨ c = "-"%char ∨ c = "'"%char)
  ∧ String.length out ≤ String.length (default "" name).
Proof.
  unfold normalizeVendorName. destruct name as [s|]; [|discriminate].
  destruct (JS.truthy_str s); [|discriminate]. intros [= <-].
  rewrite string_length_list, list_ascii_of_string_of_list_ascii. split.
  - intros c Hc. apply list_elem_of_filter in Hc as [Hk Hc].
    unfold kept in Hk.
    destruct (is_word c) eqn:Hw; [by left|].
    destruct (JS.is_space c) eqn:Hs; [right; left; by eapply collapse_spaces|].
    simpl in Hk. apply orb_true_iff in Hk as [Hk|Hk]; apply Ascii.eqb_eq in Hk; auto.
  - simpl. etrans; [apply length_filter|]. etrans; [apply collapse_length|].
    rewrite <- string_length_list. apply trim_length.
Qed.

(** A name given with a tab and an ampersand. *)
Lemma normalized_name_alphabet_witness :
  normalizeVendorName (Some (String (ascii_of_nat 9) "Smith & Sons ")) = Some "Smith  Sons"
  ∧ String.length "Smith  Sons" ≤ String.length (String (ascii_of_nat 9) "Smith & Sons ").
Proof.
  split; [reflexivity|].
  apply (normalized_name_alphabet (Some (String (ascii_of_nat 9) "Smith & Sons "))
           "Smith  Sons").
  reflexivity.
Defined.

Lemma plain_space c : plain c = true → JS.is_space c = Ascii.eqb c " ".
Proof.
  destruct c as [[] [] [] [] [] [] [] []]; vm_compute; intros H; done.
Qed.

Lemma plain_kept c : plain c = true → kept c = true.
Proof.
  destruct c as [[] [] [] [] [] [] [] []]; vm_compute; intros H; done.
Qed.

Lemma collapse_single_spaced l : ∀ b,
  forallb plain l = true → single_spaced l = true →
  (b = true → match l with c :: _ => Ascii.eqb c " " = false | [] => True end) →
  collapse b l = l.
Proof.
  induction l as [|a l IH]; intros b Hp Hs Hb; [done|].
  simpl in Hp. apply andb_true_iff in Hp as [Ha Hp].
  simpl. rewrite (plain_space a Ha).
  destruct (Ascii.eqb a " ") eqn:Hsp.
  - destruct b; [by specialize (Hb eq_refl)|].
    apply Ascii.eqb_eq in Hsp as ->. f_equal.
    destruct l as [|c l]; [done|]. apply IH; [done| |].
    + simpl in Hs. by apply andb_true_iff in Hs as [_ Hs].
    + intros _. simpl in Hs. apply andb_true_iff in Hs as [Hs _].
      by destruct (Ascii.eqb c " ").
  - f_equal. destruct l as [|c l]; [done|]. apply IH; [done| |done].
    simpl in Hs. rewrite Hsp in Hs. by simpl in Hs.
Qed.

(** X20.  A clean name is left as it is: a name of letters, digits, underscores,
    hyphens, apostrophes and single spaces, with no space at either end, is
    its own normalization. *)
Theorem clean_name_is_unchanged s :
  clean s = true → normalizeVendorName (Some s) = Some s.
Proof.
  unfold clean. intros H.
  apply andb_true_iff in H as [H Hlast]. apply andb_true_iff in H as [H Hfirst].
  apply andb_true_iff in H as [Hplain Hsingle].
  set (l := list_ascii_of_string s) in *.
  assert (JS.truthy_str s = true) as Ht.
  { destruct s; [done|]. reflexivity. }
  assert (JS.trim s = s) as Htrim.
  { unfold JS.trim. fold l.
    assert (JS.drop_spaces l = l) as ->.
    { destruct l as [|c l'] eqn:Hl; [done|]. simpl.
      simpl in Hplain. apply andb_true_iff in Hplain as [Hc _].
      rewrite (plain_space c Hc). by destruct (Ascii.eqb c " "). }
    assert (JS.drop_spaces (rev l) = rev l) as ->.
    { destruct (rev l) as [|c l'] eqn:Hl; [done|]. simpl.
      assert (plain c = true) as Hc.
      { rewrite forallb_forall in Hplain. apply Hplain, in_rev. rewrite Hl. by left. }
      rewrite (plain_space c Hc). by destruct (Ascii.eqb c " "). }
    rewrite rev_involutive. subst l. apply string_of_list_ascii_of_string. }
  unfold normalizeVendorName. rewrite Ht, Htrim. fold l.
  rewrite (collapse_single_spaced l false Hplain Hsingle) by done.
  f_equal. transitivity (string_of_list_ascii l);
    [f_equal | subst l; apply string_of_list_ascii_of_string].
  clear -Hplain. induction l as [|c l IH]; [done|].
  simpl in Hplain. apply andb_true_iff in Hplain as [Hc Hp].
  rewrite filter_cons_True by (by apply plain_kept). by rewrite IH.
Qed.

(** A vendor name of the table. *)
Lemma clean_name_is_unchanged_witness :
  normalizeVendorName (Some "Lowe's") = Some "Lowe's".
Proof. apply (clean_name_is_unchanged "Lowe's"). reflexivity. Defined.

(** The normalization is not idempotent: dropping a character between two
    spaces leaves two spaces, which a second pass makes one. *)
Example normalize_twice :
  normalizeVendorName (Some "A & B") = Some "A  B"
  ∧ normalizeVendorName (Some "A  B") = Some "A B".
Proof. split; reflexivity. Qed.

End NormalizeTheorems.

Section RetryTheorems.
Import JS Retry.
Local Open Scope Z_scope.

Lemma attempts_success {A} (fn : nat → Result A) o k a : ∀ n from last,
  (k < n)%nat →
  (from + n ≤ Z.to_nat (maxRetries o))%nat →
  (∀ j, (j < k)%nat → ∃ e, fn (from + j)%nat = Throw e) →
  fn (from + k)%nat = Ok a →
  attempts fn o n from last = (Returned a, backoff o from k).
Proof.
  induction k as [|k IH]; intros n from last Hk Hn Hfail Hok.
  - destruct n as [|n]; [lia|]. simpl. rewrite Nat.add_0_r in Hok. by rewrite Hok.
  - destruct n as [|n]; [lia|]. simpl.
    destruct (Hfail 0%nat ltac:(lia)) as [e He]. rewrite Nat.add_0_r in He. rewrite He.
    rewrite (IH n (S from) (Some e)); [| lia | lia | |].
    + destruct (Z.ltb_spec (Z.of_nat from) (maxRetries o - 1)); [done | lia].
    + intros j Hj. replace (S from + j)%nat with (from + S j)%nat by lia.
      apply Hfail. lia.
    + by replace (S from + k)%nat with (from + S k)%nat by lia.
Qed.

Lemma attempts_failure {A} (fn : nat → Result A) o : ∀ n from last e,
  (from + S n = Z.to_nat (maxRetries o))%nat →
  (∀ j, (j < n)%nat → ∃ e', fn (from + j)%nat = Throw e') →
  fn (from + n)%nat = Throw e →
  attempts fn o (S n) from last = (Rethrown e, backoff o from n).
Proof.
  induction n as [|n IH]; intros from last e Hn Hfail He.
  - simpl. rewrite Nat.add_0_r in He. rewrite He.
    destruct (Z.ltb_spec (Z.of_nat from) (maxRetries o - 1)); [lia | done].
  - destruct (Hfail 0%nat ltac:(lia)) as [e0 He0]. rewrite Nat.add_0_r in He0.
    change (attempts fn o (S (S n)) from last)
      with (match fn from with
            | Ok a => (Returned a, [])
            | Throw e =>
                let slept :=
                  if Z.of_nat from <? maxRetries o - 1
                  then [Z.min (baseDelay o * 2 ^ Z.of_nat from) (maxDelay o)]
                  else [] in
                let '(out, rest) := attempts fn o (S n) (S from) (Some e) in
                (out, slept ++ rest)
            end).
    rewrite He0. rewrite (IH (S from) (Some e0) e); [| lia | |].
    + destruct (Z.ltb_spec (Z.of_nat from) (maxRetries o - 1)); [done | lia].
    + intros j Hj. replace (S from + j)%nat with (from + S j)%nat by lia.
      apply Hfail. lia.
    + by replace (S from + n)%nat with (from + S n)%nat by lia.
Qed.

Lemma attempts_bounds {A} (fn : nat → Result A) o : ∀ n from last,
  (length (attempts fn o n from last).2 ≤ n)%nat
  ∧ (n ≠ 0%nat → Z.to_nat (maxRetries o) ≤ from + n →
     length (attempts fn o n from last).2 ≤ n - 1)%nat
  ∧ (∀ d, d ∈ (attempts fn o n from last).2 → d ≤ maxDelay o).
Proof.
  induction n as [|n IH]; intros from last; simpl.
  { split_and!; [lia | lia | intros d Hd; by apply elem_of_nil in Hd]. }
  destruct (fn from) as [a|e]; simpl.
  { split_and!; [lia | lia | intros d Hd; by apply elem_of_nil in Hd]. }
  specialize (IH (S from) (Some e)).
  destruct (attempts fn o n (S from) (Some e)) as [out rest]. simpl in *.
  destruct IH as (Hlen & Hlen' & Hall).
  destruct (Z.ltb_spec (Z.of_nat from) (maxRetries o - 1)) as [Hlt|Hge]; simpl.
  - split_and!; [lia | | ].
    + intros _ Hmax. destruct n as [|n]; [lia|]. specialize (Hlen' ltac:(lia) ltac:(lia)). lia.
    + intros d Hd. apply elem_of_cons in Hd as [->|Hd]; [lia | by apply Hall].
  - split_and!; [lia | | done].
    intros _ Hmax. destruct n as [|n]; [simpl in *; lia|].
    specialize (Hlen' ltac:(lia) ltac:(lia)). lia.
Qed.

(** X21.  [retry] answers what the first call of [fn] that does not throw
    answers, as long as it is among the first [maxRetries] calls; before
    each further call it has slept the base delay doubled at each attempt
    and capped at the maximal delay. *)
Theorem retry_returns_the_first_success {A} (fn : nat → Result A) o k a :
  (k < Z.to_nat (maxRetries o))%nat →
  (∀ j, (j < k)%nat → ∃ e, fn j = Throw e) →
  fn k = Ok a →
  retry fn o = (Returned a, backoff o 0 k).
Proof.
  intros Hk Hfail Hok. unfold retry.
  apply attempts_success; [done | lia | exact Hfail | exact Hok].
Qed.

(** With the default options a call that answers the third time is
    answered after sleeping one second, then two. *)
Lemma retry_returns_the_first_success_witness :
  retry thirdTimeLucky defaults = (Returned "done", [1000; 2000]).
Proof.
  apply (retry_returns_the_first_success thirdTimeLucky defaults 2 "done").
  - simpl. lia.
  - intros [|[|j]] Hj; [by eexists | by eexists | lia].
  - reflexivity.
Defined.

(** X22.  [retry] gives up after [maxRetries] calls that throw: it throws what
    the last of them threw, and has slept between the calls but not after
    the last.  With no retry allowed it throws [undefined] without calling
    [fn].  Whatever [fn] does, it sleeps fewer than [maxRetries] times and
    never longer than the maximal delay at a time. *)
Theorem retry_gives_up_after_max_retries {A} :
  (∀ (fn : nat → Result A) o n e,
      maxRetries o = Z.of_nat (S n) →
      (∀ j, (j < n)%nat → ∃ e', fn j = Throw e') →
      fn n = Throw e →
      retry fn o = (Rethrown e, backoff o 0 n))
  ∧ (∀ (fn : nat → Result A) o,
        maxRetries o ≤ 0 → retry fn o = (ThrownUndefined, []))
  ∧ (∀ (fn : nat → Result A) o,
        (length (retry fn o).2 ≤ Z.to_nat (maxRetries o) - 1)%nat
        ∧ ∀ d, d ∈ (retry fn o).2 → d ≤ maxDelay o).
Proof.
  split_and!.
  - intros fn o n e Hmax Hfail He. unfold retry. rewrite Hmax, Nat2Z.id.
    apply attempts_failure; [rewrite Hmax; lia | exact Hfail | exact He].
  - intros fn o Hmax. unfold retry.
    replace (Z.to_nat (maxRetries o)) with 0%nat by lia. reflexivity.
  - intros fn o. unfold retry.
    destruct (attempts_bounds fn o (Z.to_nat (maxRetries o)) 0 None) as (Hl & Hl' & Hd).
    split; [|done]. destruct (Z.to_nat (maxRetries o)) eqn:Hn; [simpl in *; lia|].
    rewrite <- Hn in *. apply Hl'; lia.
Qed.

(** With the default options a call that always throws is tried three
    times. *)
Lemma retry_gives_up_after_max_retries_witness :
  retry alwaysDown defaults = (Rethrown "2", [1000; 2000]).
Proof.
  apply (proj1 retry_gives_up_after_max_retries alwaysDown defaults 2%nat "2").
  - reflexivity.
  - intros j _. by eexists.
  - reflexivity.
Defined.

End RetryTheorems.

(** ** Vendor detection and the router on decoded documents *)

Section DetectTheorems.
Import Text Vendors Detect.

Lemma find_first {A} (f : A → bool) (l : list A) x :
  List.find f l = Some x →
  ∃ before after, l = before ++ x :: after ∧ f x = true ∧ ∀ u, u ∈ before → f u = false.
Proof.
  induction l as [|a l IH]; [discriminate|]. simpl.
  destruct (f a) eqn:Ha.
  - intros [= ->]. exists [], l. split_and!; [done | done |].
    intros u Hu. by apply elem_of_nil in Hu.
  - intros H. destruct (IH H) as (before & after & -> & Hx & Hb).
    exists (a :: before), after. split_and!; [done | done |].
    intros u Hu. apply elem_of_cons in Hu as [->|Hu]; [done | by apply Hb].
Qed.

Lemma matches_false T text v :
  matches T text v = false ↔ ∀ p, p ∈ emailPatterns v → test T p text = false.
Proof.
  unfold matches. split.
  - intros H p Hp. destruct (test T p text) eqn:Ht; [|done].
    assert (existsb (fun pattern => test T pattern text) (emailPatterns v) = true) as Hex.
    { apply existsb_exists. exists p. split; [by apply list_elem_of_In | done]. }
    congruence.
  - intros H. destruct (existsb _ _) eqn:Hex; [|done].
    apply existsb_exists in Hex as (p & Hp & Ht). apply list_elem_of_In in Hp.
    rewrite (H p Hp) in Ht. done.
Qed.

Lemma vendor_ids_unique v : v ∈ vendors → getVendor (vendorId v) = Some v.
Proof.
  unfold vendors. rewrite !elem_of_cons, elem_of_nil.
  intros [->|[->|[->|[->|[->|[->|[->|[]]]]]]]]; reflexivity.
Qed.

(** X23.  The vendor detected for a mail is the first profile of the table one
    of whose mail patterns matches the lower-cased sender, subject and
    snippet: no pattern of an earlier profile matches.  Looking its id up
    gives the same profile back.  No vendor is detected exactly when no
    pattern of the table matches. *)
Theorem first_matching_vendor_is_detected T email :
  match detectVendor T email with
  | Some v =>
      ∃ before after,
        vendors = before ++ v :: after
        ∧ (∃ p, p ∈ emailPatterns v ∧ test T p (searchText email) = true)
        ∧ (∀ u p, u ∈ before → p ∈ emailPatterns u → test T p (searchText email) = false)
        ∧ getVendor (vendorId v) = Some v
  | None =>
      ∀ u p, u ∈ vendors → p ∈ emailPatterns u → test T p (searchText email) = false
  end.
Proof.
  unfold detectVendor.
  destruct (List.find _ vendors) as [v|] eqn:Hf.
  - destruct (find_first _ _ _ Hf) as (before & after & Heq & Hv & Hb).
    exists before, after. split_and!; [done | | |].
    + unfold matches in Hv. apply existsb_exists in Hv as (p & Hp & Ht).
      exists p. split; [by apply list_elem_of_In | done].
    + intros u p Hu Hp. by apply (matches_false T _ u); [apply Hb|].
    + apply vendor_ids_unique. rewrite Heq. apply elem_of_app. right.
      apply elem_of_cons. by left.
  - intros u p Hu Hp. apply (matches_false T _ u); [|done].
    apply (find_none _ _ Hf). by apply list_elem_of_In.
Qed.

(** A mail from Read Lighting that mentions the Home Depot is taken for a
    Home Depot mail: the Home Depot comes first in the table. *)
Example earlier_profile_wins :
  detectVendor forwardedEnv forwardedMail = Some homeDepot
  ∧ matches forwardedEnv (searchText forwardedMail) readLighting = true.
Proof. split; reflexivity. Qed.

End DetectTheorems.


Section RouterDecodedTheorems.
Import Text Parsers Router.

Context (homeDepot lowes amazon ced readLighting : Parser).

(** X24.  A PDF or an image is routed as its text is.  When the decoding throws
    or gives a blank text the router answers [null], whatever the parsers
    are.  Otherwise, as long as the parser of the vendor does not look at
    the kind of source, the answer is that of [parseText] on the decoded
    text; this is so for an unknown vendor, for a vendor without a parser
    of its own, and for Alpha Supply. *)
Theorem decoded_documents_are_routed_as_text T :
  (∀ e vendor,
      parsePdf homeDepot lowes amazon ced readLighting T (JS.Throw e) vendor = None
      ∧ parseImage homeDepot lowes amazon ced readLighting T (JS.Throw e) vendor = None)
  ∧ (∀ text vendor,
        JS.trim text = "" →
        parsePdf homeDepot lowes amazon ced readLighting T (JS.Ok text) vendor = None
        ∧ parseImage homeDepot lowes amazon ced readLighting T (JS.Ok text) vendor = None)
  ∧ (∀ text vendor,
        JS.trim text ≠ "" →
        (∀ v p sourceType,
            vendor = Some v →
            vendorParsers homeDepot lowes amazon ced readLighting !! Vendors.vendorId v
              = Some p →
            parse p T text sourceType None = parse p T text "text" None) →
        parsePdf homeDepot lowes amazon ced readLighting T (JS.Ok text) vendor
          = parseText homeDepot lowes amazon ced readLighting T text vendor
        ∧ parseImage homeDepot lowes amazon ced readLighting T (JS.Ok text) vendor
          = parseText homeDepot lowes amazon ced readLighting T text vendor)
  ∧ (∀ v p sourceType text,
        v = Vendors.alphaSupply ∨ v = Vendors.aceHardware →
        vendorParsers homeDepot lowes amazon ced readLighting !! Vendors.vendorId v = Some p →
        parse p T text sourceType None = parse p T text "text" None).
Proof.
  split; [|split; [|split]].
  - intros e vendor. split; reflexivity.
  - intros text vendor Ht. unfold parsePdf, parseImage. rewrite Ht.
    cbn [String.length Nat.eqb]. by rewrite !orb_true_r.
  - intros text vendor Ht Hsame.
    assert (negb (JS.truthy_str text) || (String.length (JS.trim text) =? 0)%nat = false)
      as Hblank.
    { apply orb_false_iff. split.
      - destruct text; [by destruct Ht|done].
      - destruct (JS.trim text); [done|reflexivity]. }
    unfold parsePdf, parseImage, parseText. rewrite Hblank.
    rewrite !registry_generic. cbn [mbind option_bind].
    unfold generic. cbn [parse]. unfold GenericParser.parse.
    destruct vendor as [v|]; [|split; reflexivity]. cbn [mbind option_bind].
    destruct (vendorParsers _ _ _ _ _ !! Vendors.vendorId v) as [p|] eqn:Hp;
      [|split; reflexivity].
    cbn [mbind option_bind].
    rewrite (Hsame v p "pdf" eq_refl Hp), (Hsame v p "image" eq_refl Hp).
    split; reflexivity.
  - intros v p sourceType text [->| ->] Hp.
    + assert (vendorParsers homeDepot lowes amazon ced readLighting
                !! Vendors.vendorId Vendors.alphaSupply = Some alphaSupply) as Ha
        by reflexivity.
      rewrite Ha in Hp. injection Hp as <-. reflexivity.
    + assert (vendorParsers homeDepot lowes amazon ced readLighting
                !! Vendors.vendorId Vendors.aceHardware = None) as Ha
        by reflexivity.
      rewrite Ha in Hp. discriminate Hp.
Qed.

End RouterDecodedTheorems.

(** The text with a total only, decoded from a PDF of Alpha Supply, in a
    registry where the other vendors have the generic parser. *)
Lemma decoded_documents_are_routed_as_text_witness :
  Router.parsePdf Parsers.generic Parsers.generic Parsers.generic Parsers.generic
    Parsers.generic TextSamples.totalOnlyEnv (JS.Ok TextSamples.totalOnlyText)
    (Some Vendors.alphaSupply)
  = Parsers.parseText Parsers.generic Parsers.generic Parsers.generic Parsers.generic
      Parsers.generic TextSamples.totalOnlyEnv TextSamples.totalOnlyText
      (Some Vendors.alphaSupply).
Proof.
  destruct (decoded_documents_are_routed_as_text Parsers.generic Parsers.generic
              Parsers.generic Parsers.generic Parsers.generic TextSamples.totalOnlyEnv)
    as (_ & _ & Hrouted & Halpha).
  apply (Hrouted TextSamples.totalOnlyText (Some Vendors.alphaSupply)).
  - discriminate.
  - intros v p sourceType [= <-] Hp.
    apply (Halpha Vendors.alphaSupply p sourceType); [by left | exact Hp].
Defined.

(** ** The receipt model: lists and validation *)

Section ReceiptOpsTheorems.
Import Receipt ReceiptOps.
Local Open Scope Z_scope.

(** A line item or an attachment added to a receipt goes to the end of
    its list and changes nothing before it: the first attachment, the one
    the uploader reads, stays the first.  The quantity of an added item is
    the one given, or 1 when none or 0 was given; the type of an added
    attachment is pdf when none was given.  Neither changes the sync
    object. *)
Lemma receipt_lists_grow_at_the_end now r :
  (∀ item,
      ∃ added,
        lineItems (addLineItem now r item) = lineItems r ++ [added]
        ∧ (∃ q, quantity added = Some q ∧ q ≠ 0
                ∧ (∀ q', quantity item = Some q' → q' ≠ 0 → q = q')
                ∧ (quantity item = None ∨ quantity item = Some 0 → q = 1))
        ∧ attachments (addLineItem now r item) = attachments r
        ∧ qboSync (addLineItem now r item) = qboSync r)
  ∧ (∀ attachment,
        ∃ added,
          attachments (addAttachment now r attachment) = attachments r ++ [added]
          ∧ (a_type attachment = None → attType added = "pdf")
          ∧ (∀ first, head (attachments r) = Some first →
                head (attachments (addAttachment now r attachment)) = Some first)
          ∧ lineItems (addAttachment now r attachment) = lineItems r
          ∧ qboSync (addAttachment now r attachment) = qboSync r).
Proof.
  split.
  - intros item. eexists. split; [reflexivity|]. split_and!; [|done|done].
    exists (quantity_or_one (quantity item)). simpl. unfold quantity_or_one.
    split_and!; [done| | |].
    + destruct (quantity item) as [z|]; [|done].
      destruct (Z.eqb_spec z 0); [done | done].
    + intros q' -> Hq'. by destruct (Z.eqb_spec q' 0).
    + by intros [-> | ->].
  - intros attachment. eexists. split; [reflexivity|]. split_and!; [|  |done|done].
    + by intros ->.
    + intros first Hf. simpl. by destruct (attachments r).
Qed.

(** X25.  A receipt is valid exactly when it has a vendor name, a total that is
    not zero and a date, and each one that is missing gives one error.  A
    receipt just created is valid exactly when the data given had all
    three. *)
Theorem valid_receipt_has_vendor_total_and_date :
  (∀ r,
      (isValid (validateReceipt r) = true
       ↔ JS.truthy_ostr (vendorName (vendor r)) = true
         ∧ JS.truthy_onum (total (transaction r)) = true
         ∧ JS.truthy_ostr (date (transaction r)) = true)
      ∧ Z.of_nat (length (errors (validateReceipt r)))
        = (if JS.truthy_ostr (vendorName (vendor r)) then 0 else 1)
          + (if JS.truthy_onum (total (transaction r)) then 0 else 1)
          + (if JS.truthy_ostr (date (transaction r)) then 0 else 1))
  ∧ (∀ freshId now data,
        isValid (validateReceipt (createReceipt freshId now data)) = true
        ↔ JS.truthy_ostr (d_vendorName data) = true
          ∧ JS.truthy_onum (d_total data) = true
          ∧ JS.truthy_ostr (d_date data) = true).
Proof.
  assert (∀ r,
      isValid (validateReceipt r) = true
      ↔ JS.truthy_ostr (vendorName (vendor r)) = true
        ∧ JS.truthy_onum (total (transaction r)) = true
        ∧ JS.truthy_ostr (date (transaction r)) = true) as Hvalid.
  { intros r. unfold validateReceipt. cbn [isValid].
    destruct (JS.truthy_ostr (vendorName (vendor r))),
      (JS.truthy_onum (total (transaction r))),
      (JS.truthy_ostr (date (transaction r))); vm_compute;
      (split; [intros H | intros (H1 & H2 & H3)]; first [done | discriminate]). }
  split.
  - intros r. split; [apply Hvalid|].
    unfold validateReceipt. cbn [errors].
    by destruct (JS.truthy_ostr (vendorName (vendor r))),
      (JS.truthy_onum (total (transaction r))),
      (JS.truthy_ostr (date (transaction r))).
  - intros freshId now data. rewrite Hvalid. simpl.
    unfold str_or_null, num_or_null.
    destruct (JS.truthy_ostr (d_vendorName data)) eqn:Hv,
      (JS.truthy_onum (d_total data)) eqn:Ht,
      (JS.truthy_ostr (d_date data)) eqn:Hd; simpl; rewrite ?Hv, ?Ht, ?Hd;
      (split; [intros (H1 & H2 & H3) | intros (H1 & H2 & H3)]; first [done | discriminate]).
Qed.

End ReceiptOpsTheorems.

(** ** The mail processor *)

Section ProcessorTheorems.
Import JS Parsers ReceiptOps Processor ProcessorSpec.

Lemma same_core_refl r : same_core r r.
Proof. unfold same_core. split_and!; reflexivity. Qed.

Lemma same_core_trans r1 r2 r3 : same_core r1 r2 → same_core r2 r3 → same_core r1 r3.
Proof. unfold same_core. intros H1 H2. split_and!; intuition congruence. Qed.

Lemma same_core_note now r note : same_core r (Receipt.addProcessingNote now r note).
Proof. unfold same_core. split_and!; reflexivity. Qed.

Lemma same_core_attachment now r a : same_core r (addAttachment now r a).
Proof. unfold same_core. split_and!; reflexivity. Qed.

Lemma tryAttachment_spec W kind label route mail a r :
  same_core r (tryAttachment W kind label route mail a r).1
  ∧ match (tryAttachment W kind label route mail a r).2 with
    | Some p =>
        ∃ data, downloadAttachment W (messageId a) (attachmentId a) = Ok data
                ∧ route data (vendor mail) = Some p
    | None =>
        ∀ data, downloadAttachment W (messageId a) (attachmentId a) = Ok data →
                route data (vendor mail) = None
    end.
Proof.
  unfold tryAttachment.
  destruct (downloadAttachment W _ _) as [data|e]; [|split; [apply same_core_refl|done]].
  destruct (route data (vendor mail)) as [p|] eqn:Hr; simpl.
  - split; [|by exists data].
    eapply same_core_trans; [apply same_core_attachment | apply same_core_note].
  - split; [apply same_core_attachment|]. by intros ? [= <-].
Qed.

Lemma processAttachments_spec W mail left : ∀ r,
  same_core r (processAttachments W mail left r).1
  ∧ match (processAttachments W mail left r).2 with
    | Some p =>
        ∃ a data,
          a ∈ left
          ∧ downloadAttachment W (messageId a) (attachmentId a) = Ok data
          ∧ ((isPdf a = true ∧ parsePdf W data (vendor mail) = Some p)
             ∨ (isImage a = true ∧ parseImage W data (vendor mail) = Some p))
    | None =>
        ∀ a data,
          a ∈ left →
          downloadAttachment W (messageId a) (attachmentId a) = Ok data →
          (isPdf a = true → parsePdf W data (vendor mail) = None)
          ∧ (isImage a = true → parseImage W data (vendor mail) = None)
    end.
Proof.
  induction left as [|a rest IH]; intros r; simpl.
  { split; [apply same_core_refl|]. intros a data Ha. by apply elem_of_nil in Ha. }
  set (first := if isPdf a then _ else (r, None)).
  assert (same_core r first.1
          ∧ match first.2 with
            | Some p =>
                ∃ data, downloadAttachment W (messageId a) (attachmentId a) = Ok data
                        ∧ isPdf a = true ∧ parsePdf W data (vendor mail) = Some p
            | None =>
                ∀ data, downloadAttachment W (messageId a) (attachmentId a) = Ok data →
                        isPdf a = true → parsePdf W data (vendor mail) = None
            end) as [Hc1 H1].
  { subst first. destruct (isPdf a) eqn:Hpdf.
    - destruct (tryAttachment_spec W "pdf" "Parsed from PDF: " (parsePdf W) mail a r)
        as [Hc Ho].
      split; [done|]. destruct (tryAttachment _ _ _ _ _ _ _).2 as [p|].
      + destruct Ho as (data & Hd & Hp). by exists data.
      + intros data Hd _. by apply Ho.
    - split; [apply same_core_refl|]. simpl. intros; discriminate. }
  destruct first as [r1 [p|]]; simpl in Hc1, H1.
  { split; [done|]. destruct H1 as (data & Hd & Hpdf & Hp).
    exists a, data. split_and!; [apply elem_of_cons; by left | done | by left]. }
  set (second := if isImage a then _ else (r1, None)).
  assert (same_core r1 second.1
          ∧ match second.2 with
            | Some p =>
                ∃ data, downloadAttachment W (messageId a) (attachmentId a) = Ok data
                        ∧ isImage a = true ∧ parseImage W data (vendor mail) = Some p
            | None =>
                ∀ data, downloadAttachment W (messageId a) (attachmentId a) = Ok data →
                        isImage a = true → parseImage W data (vendor mail) = None
            end) as [Hc2 H2].
  { subst second. destruct (isImage a) eqn:Himg.
    - destruct (tryAttachment_spec W "image" "Parsed from image: " (parseImage W) mail a r1)
        as [Hc Ho].
      split; [done|]. destruct (tryAttachment _ _ _ _ _ _ _).2 as [p|].
      + destruct Ho as (data & Hd & Hp). by exists data.
      + intros data Hd _. by apply Ho.
    - split; [apply same_core_refl|]. simpl. intros; discriminate. }
  destruct second as [r2 [p|]]; simpl in Hc2, H2.
  { split; [by eapply same_core_trans|]. destruct H2 as (data & Hd & Himg & Hp).
    exists a, data. split_and!; [apply elem_of_cons; by left | done | by right]. }
  destruct (IH r2) as [Hc3 H3]. split.
  { eapply same_core_trans; [|exact Hc3]. by eapply same_core_trans. }
  destruct (processAttachments W mail rest r2).2 as [p|].
  - destruct H3 as (a' & data & Ha' & Hrest). exists a', data.
    split; [apply elem_of_cons; by right | done].
  - intros a' data Ha' Hd. apply elem_of_cons in Ha' as [->|Ha'].
    + split; [by apply H1 | by apply H2].
    + by apply H3.
Qed.

Lemma processEmailBody_spec W mail r :
  same_core r (processEmailBody W mail r).1
  ∧ match (processEmailBody W mail r).2 with
    | Some p =>
        (∃ html, bodyHtml mail = Some html ∧ truthy_str html = true
                 ∧ parseHtml W html (vendor mail) = Some p)
        ∨ (∃ text, bodyText mail = Some text ∧ truthy_str text = true
                   ∧ parseText W text (vendor mail) = Some p)
    | None =>
        (∀ html, bodyHtml mail = Some html → truthy_str html = true →
                 parseHtml W html (vendor mail) = None)
        ∧ (∀ text, bodyText mail = Some text → truthy_str text = true →
                   parseText W text (vendor mail) = None)
    end.
Proof.
  unfold processEmailBody.
  set (fromHtml := match bodyHtml mail with Some _ => _ | None => None end).
  assert (match fromHtml with
          | Some p => ∃ html, bodyHtml mail = Some html ∧ truthy_str html = true
                              ∧ parseHtml W html (vendor mail) = Some p
          | None => ∀ html, bodyHtml mail = Some html → truthy_str html = true →
                            parseHtml W html (vendor mail) = None
          end) as Hh.
  { subst fromHtml. destruct (bodyHtml mail) as [html|]; [|by intros].
    destruct (truthy_str html) eqn:Ht.
    - destruct (parseHtml W html (vendor mail)) as [p|] eqn:Hp.
      + by exists html.
      + by intros ? [= <-].
    - intros ? [= <-]. congruence. }
  destruct fromHtml as [p|]; simpl.
  { split; [apply same_core_note | by left]. }
  set (fromText := match bodyText mail with Some _ => _ | None => None end).
  assert (match fromText with
          | Some p => ∃ text, bodyText mail = Some text ∧ truthy_str text = true
                              ∧ parseText W text (vendor mail) = Some p
          | None => ∀ text, bodyText mail = Some text → truthy_str text = true →
                            parseText W text (vendor mail) = None
          end) as Ht.
  { subst fromText. destruct (bodyText mail) as [text|]; [|by intros].
    destruct (truthy_str text) eqn:Htt.
    - destruct (parseText W text (vendor mail)) as [p|] eqn:Hp.
      + by exists text.
      + by intros ? [= <-].
    - intros ? [= <-]. congruence. }
  destruct fromText as [p|]; simpl.
  - split; [apply same_core_note | by right].
  - split; [apply same_core_refl | done].
Qed.

(** [processEmail] by what the router answered: with an answer [p] the
    outcome is the merge of [p] into a receipt that is the base receipt but
    for attachments and notes, and the mail is asked to be marked; without
    one nothing is answered and nothing marked. *)
Lemma processEmail_shape W mail :
  (∃ p r0,
      answered W mail p
      ∧ same_core (baseReceipt W mail) r0
      ∧ processEmail W mail
        = (match markAsProcessed W (mailId mail) with
           | Ok _ => Ok (Some (mergeParsed p r0))
           | Throw e => Throw e
           end, [mailId mail]))
  ∨ ((∀ p, ¬ answered W mail p) ∧ processEmail W mail = (Ok None, [])).
Proof.
  unfold processEmail.
  set (r0 := baseReceipt W mail).
  set (fromAttachments := match attachments mail with _ :: _ => _ | [] => (r0, None) end).
  assert (fromAttachments = processAttachments W mail (attachments mail) r0) as ->.
  { subst fromAttachments. by destruct (attachments mail). }
  destruct (processAttachments_spec W mail (attachments mail) r0) as [Hc1 H1].
  destruct (processAttachments W mail (attachments mail) r0) as [r1 [p|]]; simpl in Hc1, H1.
  { left. exists p, r1. split_and!; [by left | done |].
    by destruct (markAsProcessed W (mailId mail)). }
  destruct (processEmailBody_spec W mail r1) as [Hc2 H2].
  destruct (processEmailBody W mail r1) as [r2 [p|]]; simpl in Hc2, H2.
  { left. exists p, r2. split_and!; [by right | by eapply same_core_trans |].
    by destruct (markAsProcessed W (mailId mail)). }
  right. split; [|done].
  intros p [(a & data & Ha & Hd & [[Hpdf Hp]|[Himg Hp]]) | [(html & Hh & Ht & Hp)
           | (text & Hh & Ht & Hp)]].
  - destruct (H1 a data Ha Hd) as [Hn _]. rewrite (Hn Hpdf) in Hp. done.
  - destruct (H1 a data Ha Hd) as [_ Hn]. rewrite (Hn Himg) in Hp. done.
  - destruct H2 as [Hn _]. rewrite (Hn html Hh Ht) in Hp. done.
  - destruct H2 as [_ Hn]. rewrite (Hn text Hh Ht) in Hp. done.
Qed.

Lemma mergeParsed_fields p r :
  Receipt.transaction (mergeParsed p r)
  = {| Receipt.date := Parsers.date p; Receipt.total := Parsers.total p;
       Receipt.subtotal := Parsers.subtotal p; Receipt.tax := Parsers.tax p;
       Receipt.shipping := Receipt.shipping (Receipt.transaction r);
       Receipt.discount := Receipt.discount (Receipt.transaction r) |}
  ∧ Receipt.payment (mergeParsed p r)
    = {| Receipt.method := Parsers.paymentMethod p;
         Receipt.cardType := Receipt.cardType (Receipt.payment r);
         Receipt.cardLast4 := Parsers.cardLast4 p |}
  ∧ Receipt.reference (mergeParsed p r)
    = {| Receipt.orderNumber := Parsers.orderNumber p;
         Receipt.invoiceNumber := Parsers.invoiceNumber p;
         Receipt.poNumber := Receipt.poNumber (Receipt.reference r) |}
  ∧ Receipt.lineItems (mergeParsed p r) = Parsers.lineItems p
  ∧ Receipt.metadata (mergeParsed p r) = Receipt.metadata r
  ∧ Receipt.qboSync (mergeParsed p r) = Receipt.qboSync r
  ∧ Receipt.id (mergeParsed p r) = Receipt.id r
  ∧ Receipt.source (mergeParsed p r) = Receipt.source r
  ∧ Receipt.vendor (mergeParsed p r) = Receipt.vendor r
  ∧ Receipt.category (mergeParsed p r) = Receipt.category r
  ∧ Receipt.attachments (mergeParsed p r) = Receipt.attachments r.
Proof.
  unfold mergeParsed. destruct (truthy_ostr (Parsers.jobName p)); split_and!; reflexivity.
Qed.

(** X26.  A receipt the processor answers carries what one entry of the router
    answered on an attachment or a body of the mail: its date, amounts,
    payment method, card number, order and invoice numbers and line items.
    The purchase order number and the confidence of the answer are not
    carried over, and shipping, discount and card type are never set.  The
    receipt is pending with no ledger id, under the generated id, with the
    vendor detected for the mail; and the mail was marked as processed. *)
Theorem processed_receipt_carries_the_parsed_data W mail r :
  (processEmail W mail).1 = Ok (Some r) →
  ∃ p,
    answered W mail p
    ∧ markAsProcessed W (mailId mail) = Ok tt
    ∧ Receipt.transaction r
      = {| Receipt.date := Parsers.date p; Receipt.total := Parsers.total p;
           Receipt.subtotal := Parsers.subtotal p; Receipt.tax := Parsers.tax p;
           Receipt.shipping := None; Receipt.discount := None |}
    ∧ Receipt.payment r
      = {| Receipt.method := Parsers.paymentMethod p; Receipt.cardType := None;
           Receipt.cardLast4 := Parsers.cardLast4 p |}
    ∧ Receipt.reference r
      = {| Receipt.orderNumber := Parsers.orderNumber p;
           Receipt.invoiceNumber := Parsers.invoiceNumber p; Receipt.poNumber := None |}
    ∧ Receipt.lineItems r = Parsers.lineItems p
    ∧ Receipt.confidence (Receipt.metadata r) = None
    ∧ Receipt.qboSync r
      = {| Receipt.status := Receipt.pending; Receipt.transactionId := None;
           Receipt.expenseId := None; Receipt.billId := None;
           Receipt.syncedAt := None; Receipt.syncError := None |}
    ∧ Receipt.id r = freshId W
    ∧ Receipt.vendorName (Receipt.vendor r)
      = Receipt.str_or_null (Vendors.name <$> vendor mail)
    ∧ Receipt.qboVendorId (Receipt.vendor r) = None.
Proof.
  intros Hr.
  destruct (processEmail_shape W mail) as [(p & r0 & Hans & Hcore & Heq) | [_ Heq]];
    rewrite Heq in Hr; [|discriminate].
  simpl in Hr. destruct (markAsProcessed W (mailId mail)) as [[]|e] eqn:Hmark;
    [|discriminate].
  injection Hr as <-. exists p.
  destruct Hcore as (Hid & Hsrc & Hven & Htx & Hpay & Href & Hjob & Hli & Hq & Hcat & Hcr & Hconf).
  destruct (mergeParsed_fields p r0)
    as (Mtx & Mpay & Mref & Mli & Mmeta & Mq & Mid & Msrc & Mven & Mcat & Matt).
  rewrite Mtx, Mpay, Mref, Mli, Mmeta, Mq, Mid, Mven, Htx, Hpay, Href, Hconf, Hq, Hid, Hven.
  split_and!; done.
Qed.


(** The sample mail: the attachment is taken for a PDF by its file name,
    and the receipt carries the line item the PDF router answered. *)
Lemma processed_receipt_carries_the_parsed_data_witness :
  ∃ r p,
    (processEmail MailSamples.pdfWorld MailSamples.aceMail).1 = Ok (Some r)
    ∧ answered MailSamples.pdfWorld MailSamples.aceMail p
    ∧ Receipt.lineItems r = Parsers.lineItems p.
Proof.
  eexists.
  destruct (processed_receipt_carries_the_parsed_data
              MailSamples.pdfWorld MailSamples.aceMail _ eq_refl)
    as (p & Ha & _ & _ & _ & _ & Hl & _).
  exists p. split_and!; [reflexivity | exact Ha | exact Hl].
Defined.


Lemma processAll_spec emails :
  length (processAll emails).1 ≤ length (processAll emails).2
  ∧ length (processAll emails).2 ≤ length emails
  ∧ (∀ r, r ∈ (processAll emails).1 →
       ∃ W mail, (W, mail) ∈ emails ∧ (processEmail W mail).1 = Ok (Some r))
  ∧ (∀ i, i ∈ (processAll emails).2 ↔
       ∃ W mail, (W, mail) ∈ emails ∧ mailId mail = i ∧ ∃ p, answered W mail p).
Proof.
  induction emails as [|[W mail] rest IH]; simpl.
  { split_and!; [lia | lia | intros r Hr; by apply elem_of_nil in Hr |].
    intros i. split; [intros Hi; by apply elem_of_nil in Hi|].
    intros (W & mail & Hin & _). by apply elem_of_nil in Hin. }
  destruct IH as (Hlen1 & Hlen2 & Hrec & Hmarks).
  pose proof (processEmail_shape W mail) as Hshape.
  destruct (processEmail W mail) as [outcome marked] eqn:Hpe.
  destruct (processAll rest) as [results marks]. simpl in *.
  assert (length match outcome with
                 | Ok (Some receipt) => receipt :: results
                 | _ => results
                 end ≤ length marked + length results
          ∧ length marked ≤ 1
          ∧ (∀ r, outcome = Ok (Some r) → True)
          ∧ (∀ i, i ∈ marked ↔ mailId mail = i ∧ ∃ p, answered W mail p)) as (Hl & Hm & _ & Hi).
  { destruct Hshape as [(p & r0 & Hans & Hcore & Heq) | [Hno Heq]].
    - injection Heq as -> ->. split_and!; [| simpl; lia | done |].
      + destruct (markAsProcessed W (mailId mail)); simpl; lia.
      + intros i. rewrite list_elem_of_singleton. split; [intros ->; eauto | by intros [-> _]].
    - injection Heq as -> ->. split_and!; [simpl; lia | simpl; lia | done |].
      intros i. split; [intros Hi; by apply elem_of_nil in Hi|].
      intros [_ [p Hp]]. by destruct (Hno p). }
  split_and!.
  - rewrite length_app.
    destruct outcome as [[r|]|e]; simpl in *; lia.
  - rewrite length_app. lia.
  - intros r Hr.
    assert (outcome = Ok (Some r) ∨ r ∈ results) as [->|Hin].
    { destruct outcome as [[r'|]|e]; [|by right|by right].
      apply elem_of_cons in Hr as [->|Hr]; [by left | by right]. }
    + exists W, mail. split; [apply elem_of_cons; by left | by rewrite Hpe].
    + destruct (Hrec r Hin) as (W' & mail' & Hin' & Hr').
      exists W', mail'. split; [apply elem_of_cons; by right | done].
  - intros i. rewrite elem_of_app, Hi, Hmarks. split.
    + intros [[<- Hp] | (W' & mail' & Hin' & Hrest)].
      * exists W, mail. split; [apply elem_of_cons; by left | done].
      * exists W', mail'. split; [apply elem_of_cons; by right | done].
    + intros (W' & mail' & Hin' & Hid & Hp). apply elem_of_cons in Hin' as [[= -> ->]|Hin'].
      * by left.
      * right. by exists W', mail'.
Qed.

(** X28.  A batch counts every fetched mail as processed, whatever became of
    it.  Every receipt it answers was answered for one of the mails, and
    there are no more receipts than mails marked as processed, and no more
    of those than mails; the mails marked are those on which an entry of
    the router answered.  A fetch that throws makes the batch throw the
    same, with nothing marked. *)
Theorem batch_accounts_for_the_fetched_mail :
  (∀ e, processNewEmails (Throw e) = (Throw e, []))
  ∧ (∀ emails,
        ∃ b,
          (processNewEmails (Ok emails)).1 = Ok b
          ∧ processed b = length emails
          ∧ length (receipts b) ≤ length (processNewEmails (Ok emails)).2
          ∧ length (processNewEmails (Ok emails)).2 ≤ length emails
          ∧ (∀ r, r ∈ receipts b →
               ∃ W mail, (W, mail) ∈ emails ∧ (processEmail W mail).1 = Ok (Some r))
          ∧ (∀ i, i ∈ (processNewEmails (Ok emails)).2 ↔
               ∃ W mail, (W, mail) ∈ emails ∧ mailId mail = i ∧ ∃ p, answered W mail p)).
Proof.
  split; [done|]. intros emails. unfold processNewEmails.
  pose proof (processAll_spec emails) as H.
  destruct (processAll emails) as [results marks]. simpl in *.
  eexists. split; [reflexivity|]. simpl. destruct H as (?&?&?&?). split_and!; done.
Qed.

(** X29.  The processor does not validate what it answers.  A receipt answered
    for a mail of no known vendor is never valid: the vendor name is
    missing.  One answered for a mail of a vendor of the table is valid
    exactly when the parsed data had a total that is not zero and a
    date. *)
Theorem processed_receipt_may_be_invalid W mail r :
  (processEmail W mail).1 = Ok (Some r) →
  (vendor mail = None →
   isValid (validateReceipt r) = false
   ∧ "Vendor name is required" ∈ errors (validateReceipt r))
  ∧ (∀ v, vendor mail = Some v → v ∈ Vendors.vendors →
          (isValid (validateReceipt r) = true
           ↔ truthy_onum (Receipt.total (Receipt.transaction r)) = true
             ∧ truthy_ostr (Receipt.date (Receipt.transaction r)) = true)).
Proof.
  intros Hr.
  destruct (processEmail_shape W mail) as [(p & r0 & Hans & Hcore & Heq) | [_ Heq]];
    rewrite Heq in Hr; [|discriminate].
  simpl in Hr. destruct (markAsProcessed W (mailId mail)) as [u|e]; [|discriminate].
  injection Hr as <-.
  destruct Hcore as (_ & _ & Hven & _).
  destruct (mergeParsed_fields p r0) as (_ & _ & _ & _ & _ & _ & _ & _ & Mven & _).
  assert (Receipt.vendorName (Receipt.vendor (mergeParsed p r0))
          = Receipt.str_or_null (Vendors.name <$> vendor mail)) as Hname.
  { by rewrite Mven, Hven. }
  unfold validateReceipt. cbn [isValid errors]. rewrite Hname. split.
  - intros ->. simpl. split.
    + by destruct (truthy_onum (Receipt.total (Receipt.transaction (mergeParsed p r0)))),
        (truthy_ostr (Receipt.date (Receipt.transaction (mergeParsed p r0)))).
    + apply elem_of_cons. by left.
  - intros v -> Hv.
    assert (truthy_ostr (Receipt.str_or_null (Vendors.name <$> Some v)) = true) as ->.
    { revert Hv. unfold Vendors.vendors. rewrite !elem_of_cons, elem_of_nil.
      intros [->|[->|[->|[->|[->|[->|[->|[]]]]]]]]; reflexivity. }
    destruct (truthy_onum (Receipt.total (Receipt.transaction (mergeParsed p r0)))),
      (truthy_ostr (Receipt.date (Receipt.transaction (mergeParsed p r0)))); simpl;
      (split; [intros H | intros (H1 & H2)]; first [done | discriminate]).
Qed.

(** The sample mail comes from a vendor of the table and its receipt is
    valid. *)
Lemma processed_receipt_may_be_invalid_witness :
  ∃ r,
    (processEmail MailSamples.pdfWorld MailSamples.aceMail).1 = Ok (Some r)
    ∧ isValid (validateReceipt r) = true.
Proof.
  eexists. split; [reflexivity|].
  destruct (processed_receipt_may_be_invalid MailSamples.pdfWorld MailSamples.aceMail _ eq_refl)
    as [_ H].
  apply (H Vendors.aceHardware eq_refl).
  - unfold Vendors.vendors. rewrite !elem_of_cons. tauto.
  - split; reflexivity.
Defined.

Lemma processAttachments_with_body W mail html text left : ∀ r,
  processAttachments W (MailSamples.with_body html text mail) left r
  = processAttachments W mail left r.
Proof.
  induction left as [|a rest IH]; intros r; [done|]. cbn [processAttachments].
  change (tryAttachment W "pdf" "Parsed from PDF: " (parsePdf W)
            (MailSamples.with_body html text mail) a r)
    with (tryAttachment W "pdf" "Parsed from PDF: " (parsePdf W) mail a r).
  destruct (if isPdf a then _ else (r, None)) as [r1 [p|]]; [done|].
  change (tryAttachment W "image" "Parsed from image: " (parseImage W)
            (MailSamples.with_body html text mail) a r1)
    with (tryAttachment W "image" "Parsed from image: " (parseImage W) mail a r1).
  destruct (if isImage a then _ else (r1, None)) as [r2 [p|]]; [done|]. apply IH.
Qed.

(** X30.  Attachments come before the body: when a PDF or image attachment of
    the mail is answered by the router, the body of the mail is not read,
    and the outcome is the same whatever the body is. *)
Theorem attachment_answer_precedes_the_body W mail html text :
  is_Some (processAttachments W mail (attachments mail) (baseReceipt W mail)).2 →
  processEmail W (MailSamples.with_body html text mail) = processEmail W mail.
Proof.
  intros [p Hp]. unfold processEmail.
  change (baseReceipt W (MailSamples.with_body html text mail)) with (baseReceipt W mail).
  change (attachments (MailSamples.with_body html text mail)) with (attachments mail).
  change (mailId (MailSamples.with_body html text mail)) with (mailId mail).
  rewrite processAttachments_with_body.
  destruct (attachments mail) as [|a rest] eqn:Hatt; [by simpl in Hp|].
  destruct (processAttachments W mail (a :: rest) (baseReceipt W mail)) as [r1 o].
  simpl in Hp. subst o. reflexivity.
Qed.

(** The sample mail with an HTML body that the router would answer. *)
Lemma attachment_answer_precedes_the_body_witness :
  processEmail MailSamples.pdfWorld
    (MailSamples.with_body (Some "<p>Total: $1.00</p>") None MailSamples.aceMail)
  = processEmail MailSamples.pdfWorld MailSamples.aceMail.
Proof.
  apply (attachment_answer_precedes_the_body MailSamples.pdfWorld MailSamples.aceMail).
  by eexists.
Defined.

End ProcessorTheorems.
